(** * gstore-node: schema registry and model operations

    A shallow embedding of [lib/schema.js] and [lib/model.js] and the
    properties of their key builder, validation engine, sanitizer and
    update / delete orchestration. *)

From Stdlib Require Import ZArith String Ascii List Lia Bool.
From stdpp Require Import base option list gmap strings sorting.

Local Open Scope string_scope.
Local Open Scope Z_scope.

(** ** JavaScript primitives used by the library *)

Module JS.

(** Strings are sequences of code units in the Latin-1 range. *)

(** White space and line terminators of that range, as [String.prototype.trim],
    [Number(s)] and [parseInt] skip them. *)
Definition is_ws (c : ascii) : bool :=
  let n := nat_of_ascii c in
  ((9 <=? n)%nat && (n <=? 13)%nat) || (n =? 32)%nat || (n =? 160)%nat.

Definition is_digit (c : ascii) : bool :=
  let n := nat_of_ascii c in (48 <=? n)%nat && (n <=? 57)%nat.

Definition digit_val (c : ascii) : Z := Z.of_nat (nat_of_ascii c) - 48.

Fixpoint trim_start (s : string) : string :=
  match s with
  | String c r => if is_ws c then trim_start r else s
  | EmptyString => EmptyString
  end.

(** [all_ws s] holds when [s.trim().length === 0]. *)
Fixpoint all_ws (s : string) : bool :=
  match s with
  | String c r => is_ws c && all_ws r
  | EmptyString => true
  end.

Fixpoint trim_end (s : string) : string :=
  match s with
  | String c r => if all_ws s then EmptyString else String c (trim_end r)
  | EmptyString => EmptyString
  end.

Definition trim (s : string) : string := trim_end (trim_start s).

(** The longest prefix of decimal digits, and what follows it. *)
Fixpoint take_digits (s : string) : string * string :=
  match s with
  | String c r =>
      if is_digit c then let '(d, t) := take_digits r in (String c d, t)
      else (EmptyString, s)
  | EmptyString => (EmptyString, EmptyString)
  end.

Fixpoint digits_value_from (acc : Z) (s : string) : Z :=
  match s with
  | String c r => digits_value_from (10 * acc + digit_val c) r
  | EmptyString => acc
  end.

Definition digits_value (s : string) : Z := digits_value_from 0 s.

(** Numbers.  A finite double is a whole number or a non-integral
    fraction; the other values are [NaN] and the two infinities. *)
Inductive number : Type :=
| Whole (z : Z)
| Frac (n : Z) (d : positive)
| NaN
| Infinity (neg : bool).

Definition number_eqb (a b : number) : bool :=
  match a, b with
  | Whole x, Whole y => x =? y
  | Frac n d, Frac m e => (n * Z.pos e =? m * Z.pos d)
  | Infinity x, Infinity y => Bool.eqb x y
  | _, _ => false
  end.

(** Rounding of a whole number to the nearest double (ties to even);
    magnitudes that round to [2^1024] overflow. *)
Definition round_double (z : Z) : number :=
  let a := Z.abs z in
  if a <? 2 ^ 53 then Whole z
  else
    let k := Z.log2 a - 52 in
    let q := Z.shiftr a k in
    let r := a - Z.shiftl q k in
    let half := 2 ^ (k - 1) in
    let q' := if (half <? r) || ((r =? half) && Z.odd q) then q + 1 else q in
    let m := Z.shiftl q' k in
    if 2 ^ 1024 <=? m then Infinity (z <? 0)
    else Whole (if z <? 0 then - m else m).

(** The least magnitude that [Number(s)] rounds to an infinity. *)
Definition overflow_threshold : Z := 2 ^ 1024 - 2 ^ 970.

(** [m * 10^e] is below the overflow threshold. *)
Definition decimal_finite (m e : Z) : bool :=
  if 0 <=? e then m * 10 ^ e <? overflow_threshold
  else m <? overflow_threshold * 10 ^ (- e).

Definition strip_sign (s : string) : bool * string :=
  match s with
  | String "-" r => (true, r)
  | String "+" r => (false, r)
  | _ => (false, s)
  end.

(** The optional exponent part of a decimal literal: [None] when the
    text is malformed, else the exponent and the rest. *)
Definition exponent_part (s : string) : option (Z * string) :=
  match s with
  | String c r =>
      if (Ascii.eqb c "e" || Ascii.eqb c "E")%bool then
        let '(neg, r1) := strip_sign r in
        let '(d, r2) := take_digits r1 in
        match d with
        | EmptyString => None
        | _ => Some (if neg then - digits_value d else digits_value d, r2)
        end
      else Some (0, s)
  | EmptyString => Some (0, EmptyString)
  end.

(** An unsigned decimal literal ([StrUnsignedDecimalLiteral] without
    [Infinity]) as mantissa and decimal exponent. *)
Definition decimal_literal (s : string) : option (Z * Z) :=
  let '(ip, r1) := take_digits s in
  let '(fp, r2) :=
    match r1 with
    | String "." r => take_digits r
    | _ => (EmptyString, r1)
    end in
  match ip, fp with
  | EmptyString, EmptyString => None
  | _, _ =>
      match exponent_part r2 with
      | Some (e, EmptyString) =>
          Some (digits_value (ip ++ fp), e - Z.of_nat (String.length fp))
      | _ => None
      end
  end.

Definition radix_digit (radix : Z) (c : ascii) : option Z :=
  let n := Z.of_nat (nat_of_ascii c) in
  let v := if (48 <=? n) && (n <=? 57) then Some (n - 48)
           else if (97 <=? n) && (n <=? 102) then Some (n - 87)
           else if (65 <=? n) && (n <=? 70) then Some (n - 55)
           else None in
  match v with
  | Some d => if d <? radix then Some d else None
  | None => None
  end.

Fixpoint radix_value (radix acc : Z) (s : string) : option Z :=
  match s with
  | String c r =>
      match radix_digit radix c with
      | Some d => radix_value radix (radix * acc + d) r
      | None => None
      end
  | EmptyString => Some acc
  end.

(** [0x..], [0o..] and [0b..] literals. *)
Definition prefixed_literal (s : string) : option Z :=
  match s with
  | String "0" (String c (String d r)) =>
      let body := String d r in
      if (Ascii.eqb c "x" || Ascii.eqb c "X")%bool then radix_value 16 0 body
      else if (Ascii.eqb c "o" || Ascii.eqb c "O")%bool then radix_value 8 0 body
      else if (Ascii.eqb c "b" || Ascii.eqb c "B")%bool then radix_value 2 0 body
      else None
  | _ => None
  end.

(** [isFinite(s)] for a string [s]: [Number(s)] is neither [NaN] nor an
    infinity. *)
Definition isFinite_string (s : string) : bool :=
  let t := trim s in
  match t with
  | EmptyString => true
  | _ =>
      match prefixed_literal t with
      | Some v => v <? overflow_threshold
      | None =>
          let '(_, body) := strip_sign t in
          match decimal_literal body with
          | Some (m, e) => decimal_finite m e
          | None => false
          end
      end
  end.

(** [parseInt(s, 10)]: leading white space, a sign, then the longest run
    of decimal digits; [NaN] when there is none. *)
Definition parseInt10 (s : string) : number :=
  let '(neg, body) := strip_sign (trim_start s) in
  let '(d, _) := take_digits body in
  match d with
  | EmptyString => NaN
  | _ => round_double (if neg then - digits_value d else digits_value d)
  end.

(** Decimal numeral of a whole number, [String(z)] for magnitudes below
    [10^21]. *)
Fixpoint pos_digits (fuel : nat) (z : Z) (acc : string) : string :=
  match fuel with
  | O => acc
  | S f =>
      let c := ascii_of_nat (Z.to_nat (48 + z mod 10)) in
      if z <? 10 then String c acc else pos_digits f (z / 10) (String c acc)
  end.

Definition whole_to_string (z : Z) : string :=
  let a := Z.abs z in
  let d := pos_digits (S (Z.to_nat (Z.log2 a))) a EmptyString in
  if z <? 0 then String "-" d else d.

(** The longest prefix that is an unsigned decimal literal, as mantissa
    and exponent; an [e] without digits is not part of it. *)
Definition decimal_prefix (s : string) : option (Z * Z) :=
  let '(ip, r1) := take_digits s in
  let '(fp, r2) :=
    match r1 with
    | String "." r => take_digits r
    | _ => (EmptyString, r1)
    end in
  match ip, fp with
  | EmptyString, EmptyString => None
  | _, _ =>
      let e := match exponent_part r2 with Some (e, _) => e | None => 0 end in
      Some (digits_value (ip ++ fp), e - Z.of_nat (String.length fp))
  end.

(** The number [m * 10^e] with sign; a fraction is kept exact, since only
    its kind is inspected. *)
Definition decimal_number (neg : bool) (m e : Z) : number :=
  let sgn (z : Z) := if neg then - z else z in
  if 0 <=? e then round_double (sgn (m * 10 ^ e))
  else
    let d := 10 ^ (- e) in
    if m mod d =? 0 then round_double (sgn (m / d))
    else Frac (sgn m) (Z.to_pos d).

Definition starts_with (p s : string) : bool := String.prefix p s.

(** [parseFloat(s)]. *)
Definition parseFloat (s : string) : number :=
  let '(neg, body) := strip_sign (trim_start s) in
  if starts_with "Infinity" body then Infinity neg
  else
    match decimal_prefix body with
    | Some (m, e) => decimal_number neg m e
    | None => NaN
    end.

(** The value of the longest prefix of digits in the radix, if any. *)
Fixpoint radix_prefix (radix : Z) (acc : option Z) (s : string) : option Z :=
  match s with
  | String c r =>
      match radix_digit radix c with
      | Some d => radix_prefix radix (Some (radix * default 0 acc + d)) r
      | None => acc
      end
  | EmptyString => acc
  end.

(** [parseInt(s)] without a radix: hexadecimal after [0x], else decimal. *)
Definition parseInt (s : string) : number :=
  let '(neg, body) := strip_sign (trim_start s) in
  let v :=
    match body with
    | String "0" (String c r) =>
        if (Ascii.eqb c "x" || Ascii.eqb c "X")%bool then radix_prefix 16 None r
        else radix_prefix 10 None body
    | _ => radix_prefix 10 None body
    end in
  match v with
  | Some z => round_double (if neg then - z else z)
  | None => NaN
  end.

(** The regular expression of the datetime check,
    [/\d{4}-\d{2}-\d{2}([ ,T])?(\d{2}:\d{2}:\d{2})?(\.\d{1,3})?/]: unanchored
    and with every later group optional, it matches when a date
    [dddd-dd-dd] occurs somewhere. *)
Definition date_at (s : string) : bool :=
  match s with
  | String a (String b (String c (String d (String "-"
      (String e (String f (String "-" (String g (String h _))))))))) =>
      is_digit a && is_digit b && is_digit c && is_digit d
      && is_digit e && is_digit f && is_digit g && is_digit h
  | _ => false
  end.

Fixpoint date_pattern_matches (s : string) : bool :=
  date_at s ||
  match s with
  | String _ r => date_pattern_matches r
  | EmptyString => false
  end.

(** A run of decimal digits. *)
Fixpoint all_digits (s : string) : bool :=
  match s with
  | String c r => is_digit c && all_digits r
  | EmptyString => true
  end.

(** *** [String(n)]: [Number::toString] in radix 10 *)

(** The double nearest to the positive fraction [n / d], as a pair
    [(m, e)] that stands for [m * 2^e]: [m] has at most 53 bits, [e] is
    at least [-1074], and a tie goes to the even [m]. *)
Definition nearest_double (n d : Z) : Z * Z :=
  let e0 := Z.log2 n - Z.log2 d - 52 in
  let scaled := if 0 <=? e0 then n / (d * 2 ^ e0) else (n * 2 ^ (- e0)) / d in
  let e1 := if scaled <? 2 ^ 52 then e0 - 1 else e0 in
  let e := Z.max e1 (-1074) in
  let num := if 0 <=? e then n else n * 2 ^ (- e) in
  let den := if 0 <=? e then d * 2 ^ e else d in
  let q := num / den in
  let r := num mod den in
  (if (den <? 2 * r) || ((2 * r =? den) && Z.odd q) then q + 1 else q, e).

Definition same_double (x y : Z * Z) : bool :=
  let e := Z.min x.2 y.2 in
  x.1 * 2 ^ (x.2 - e) =? y.1 * 2 ^ (y.2 - e).

(** The number of decimal digits of a positive whole number. *)
Fixpoint count_digits (fuel : nat) (z : Z) : Z :=
  match fuel with
  | O => 1
  | S f => if z <? 10 then 1 else 1 + count_digits f (z / 10)
  end.

(** The least [j] from which [m * 10^j] reaches [d]. *)
Fixpoint first_digit_at (fuel : nat) (m d j : Z) : Z :=
  match fuel with
  | O => j
  | S f => if d <=? m * 10 ^ j then j else first_digit_at f m d (j + 1)
  end.

(** The decimal exponent [n] of the positive fraction [m / d]:
    [10^(n-1) <= m / d < 10^n]. *)
Definition decimal_exponent (m d : Z) : Z :=
  if d <=? m then count_digits (S (Z.to_nat (Z.log2 (m / d)))) (m / d)
  else 1 - first_digit_at 400 m d 1.

(** The [k]-digit decimal [s * 10^(n-k)] that the number value of
    [m / d] is printed as, if there is one: of the two decimals of that
    shape around [m / d], one whose nearest double is that of [m / d],
    the closer one when both are, and the even one when they are equally
    close. *)
Definition shortest_at (x : Z * Z) (m d n k : Z) : option Z :=
  let num := if 0 <=? k - n then m * 10 ^ (k - n) else m in
  let den := if 0 <=? k - n then d else d * 10 ^ (n - k) in
  let lo := num / den in
  let r := num mod den in
  let reads (s : Z) :=
    (0 <? s) &&
    same_double x (if 0 <=? n - k then nearest_double (s * 10 ^ (n - k)) 1
                   else nearest_double s (10 ^ (k - n))) in
  if r =? 0 then (if reads lo then Some lo else None)
  else
    match reads lo, reads (lo + 1) with
    | true, true =>
        if 2 * r <? den then Some lo
        else if den <? 2 * r then Some (lo + 1)
        else if Z.even lo then Some lo else Some (lo + 1)
    | true, false => Some lo
    | false, true => Some (lo + 1)
    | false, false => None
    end.

Fixpoint shortest_from (fuel : nat) (x : Z * Z) (m d n k : Z) : Z * Z :=
  match fuel with
  | O => (m * 10 ^ (k - n) / d, k)
  | S f =>
      match shortest_at x m d n k with
      | Some s => (s, k)
      | None => shortest_from f x m d n (k + 1)
      end
  end.

Fixpoint strip_zeros_rev (s : string) : string :=
  match s with
  | String "0" r => strip_zeros_rev r
  | _ => s
  end.

Fixpoint rev_string (s acc : string) : string :=
  match s with
  | String c r => rev_string r (String c acc)
  | EmptyString => acc
  end.

Definition strip_trailing_zeros (s : string) : string :=
  rev_string (strip_zeros_rev (rev_string s "")) "".

Fixpoint zeros (n : nat) : string :=
  match n with
  | O => ""
  | S k => String "0" (zeros k)
  end.

Fixpoint split_at (n : nat) (s : string) : string * string :=
  match n, s with
  | S k, String c r => let '(a, b) := split_at k r in (String c a, b)
  | _, _ => ("", s)
  end.

(** The text of the number with the digits [ds] and the decimal
    exponent [n]: plain up to 21 digits before the point and 6 zeros
    after it, with an exponent beyond. *)
Definition layout (ds : string) (n : Z) : string :=
  let k := Z.of_nat (String.length ds) in
  if (k <=? n) && (n <=? 21) then ds ++ zeros (Z.to_nat (n - k))
  else if (0 <? n) && (n <=? 21) then
    let '(a, b) := split_at (Z.to_nat n) ds in a ++ "." ++ b
  else if (-6 <? n) && (n <=? 0) then "0." ++ zeros (Z.to_nat (- n)) ++ ds
  else
    let e := n - 1 in
    let mantissa :=
      match ds with
      | String c EmptyString => ds
      | String c r => String c ("." ++ r)
      | EmptyString => ds
      end in
    mantissa ++ "e" ++ (if e <? 0 then "-" else "+") ++ whole_to_string (Z.abs e).

(** The text of the double nearest to the positive fraction [n / d]. *)
Definition positive_to_string (n d : Z) : string :=
  let x := nearest_double n d in
  if x.1 =? 0 then "0"
  else if (0 <=? x.2) && (2 ^ 1024 <=? x.1 * 2 ^ x.2) then "Infinity"
  else
    let m := if 0 <=? x.2 then x.1 * 2 ^ x.2 else x.1 in
    let d' := if 0 <=? x.2 then 1 else 2 ^ (- x.2) in
    let e := decimal_exponent m d' in
    let '(s, k) := shortest_from 17 x m d' e 1 in
    let ds := whole_to_string s in
    layout (strip_trailing_zeros ds) (e + (Z.of_nat (String.length ds) - k)).

Definition number_to_string (n : number) : string :=
  match n with
  | Whole z =>
      if z =? 0 then "0"
      else if z <? 0 then "-" ++ positive_to_string (- z) 1
      else positive_to_string z 1
  | Frac n d =>
      if n =? 0 then "0"
      else if n <? 0 then
        let t := positive_to_string (- n) (Z.pos d) in
        if String.eqb t "0" then t else "-" ++ t
      else positive_to_string n (Z.pos d)
  | NaN => "NaN"
  | Infinity false => "Infinity"
  | Infinity true => "-Infinity"
  end.

End JS.

(** ** The datastore client, as far as the library relies on it *)

Module Datastore.
Import JS.

(** An identifier as callers pass it: absent, a string, or a number.
    Numeric identifiers are whole numbers; [parseInt] can also produce
    [NaN] and, for very long digit runs, an infinity. *)
Inductive ident : Type :=
| IdUndefined
| IdNull
| IdStr (s : string)
| IdNum (n : number).

(** A key as [ds.key(path)] or [ds.key({namespace, path})] builds it: the
    path alternates kinds and identifiers and may end in a kind alone. *)
Record Key : Type := mkKey {
  key_namespace : option string;
  key_path : list ident
}.

(** [ds.key] called with the bare path, and with the options object. *)
Definition ds_key (path : list ident) : Key := mkKey None path.
Definition ds_key_ns (ns : string) (path : list ident) : Key := mkKey (Some ns) path.

(** The client's accessors of a key: [key.id] is the last path element
    when it is a number and the path is complete, [key.name] when it is a
    string; both are undefined on a partial key. *)
Definition key_complete (k : Key) : bool := Nat.even (length (key_path k)).

Definition key_id (k : Key) : option number :=
  if key_complete k then
    match last (key_path k) with
    | Some (IdNum n) => Some n
    | _ => None
    end
  else None.

Definition key_name (k : Key) : option string :=
  if key_complete k then
    match last (key_path k) with
    | Some (IdStr s) => Some s
    | _ => None
    end
  else None.

End Datastore.

(** ** Values and the object store *)

Module Heap.
Import JS Datastore.

Definition loc := positive.

Inductive value : Type :=
| VUndefined
| VNull
| VBool (b : bool)
| VNum (n : number)
| VStr (s : string)
| VRef (l : loc).

(** What [Object.prototype.toString], [Array.isArray], [instanceof Buffer]
    and [typeof] tell apart. *)
Inductive oclass : Type :=
| CObject
| CArray
| CDate (time : Z)
| CBuffer
| CFunction.

(** An object: its class, its [constructor.name], its own enumerable
    string-keyed properties in enumeration order (array elements under
    their indices), and the key the datastore client attaches under the
    [ds.KEY] symbol. *)
Record object : Type := mkObject {
  o_class : oclass;
  o_ctor : string;
  o_props : list (string * value);
  o_key : option Key
}.

Abbreviation store := (gmap loc object).

(** *** Own properties *)

(** Property tables serve objects of values and the error table of
    validation alike.  The table of an object is kept in enumeration
    order; the error table is kept in the order in which its keys were
    created, and what reads it in enumeration order says so. *)
Section Props.
Context {V : Type}.

Fixpoint get_prop (k : string) (ps : list (string * V)) : option V :=
  match ps with
  | [] => None
  | (k', v) :: r => if String.eqb k' k then Some v else get_prop k r
  end.

Definition has_own (k : string) (ps : list (string * V)) : bool :=
  match get_prop k ps with Some _ => true | None => false end.

(** [o[k] = v]: overwrite in place, or append a new property. *)
Fixpoint set_prop (k : string) (v : V) (ps : list (string * V))
  : list (string * V) :=
  match ps with
  | [] => [(k, v)]
  | (k', v') :: r =>
      if String.eqb k' k then (k', v) :: r else (k', v') :: set_prop k v r
  end.

(** [delete o[k]]. *)
Fixpoint delete_prop (k : string) (ps : list (string * V))
  : list (string * V) :=
  match ps with
  | [] => []
  | (k', v') :: r =>
      if String.eqb k' k then delete_prop k r else (k', v') :: delete_prop k r
  end.

(** [Object.keys(o)]. *)
Definition keys (ps : list (string * V)) : list string := map fst ps.
End Props.

(** *** Operators *)

(** [a === b]: primitives by value ([NaN] equals nothing), objects by
    identity. *)
Definition strict_eq (a b : value) : bool :=
  match a, b with
  | VUndefined, VUndefined => true
  | VNull, VNull => true
  | VBool x, VBool y => Bool.eqb x y
  | VNum x, VNum y => number_eqb x y
  | VStr x, VStr y => String.eqb x y
  | VRef x, VRef y => Pos.eqb x y
  | _, _ => false
  end.

Definition truthy (v : value) : bool :=
  match v with
  | VUndefined | VNull => false
  | VBool b => b
  | VNum (Whole z) => negb (z =? 0)
  | VNum NaN => false
  | VNum _ => true
  | VStr s => negb (String.eqb s "")
  | VRef _ => true
  end.

(** [typeof v]. *)
Definition typeof (st : store) (v : value) : string :=
  match v with
  | VUndefined => "undefined"
  | VNull => "object"
  | VBool _ => "boolean"
  | VNum _ => "number"
  | VStr _ => "string"
  | VRef l =>
      match st !! l with
      | Some o => match o_class o with CFunction => "function" | _ => "object" end
      | None => "object"
      end
  end.

(** [v.constructor.name], for a value that is neither [null] nor
    [undefined]. *)
Definition ctor_name (st : store) (v : value) : string :=
  match v with
  | VBool _ => "Boolean"
  | VNum _ => "Number"
  | VStr _ => "String"
  | VRef l => match st !! l with Some o => o_ctor o | None => "Object" end
  | _ => ""
  end.

Definition class_of (st : store) (v : value) : option oclass :=
  match v with
  | VRef l => o_class <$> st !! l
  | _ => None
  end.

(** [is.array(v)] of the [is] package. *)
Definition is_array (st : store) (v : value) : bool :=
  match class_of st v with Some CArray => true | _ => false end.

(** [is.object(v)]: [Object.prototype.toString] gives [[object Object]]. *)
Definition is_object (st : store) (v : value) : bool :=
  match class_of st v with Some CObject => true | _ => false end.

(** [indexOf] of an array given by its elements: the first position whose
    element is strictly equal, [-1] when there is none. *)
Fixpoint indexOf_from (i : Z) (x : value) (xs : list value) : Z :=
  match xs with
  | [] => -1
  | y :: r => if strict_eq y x then i else indexOf_from (i + 1) x r
  end.

Definition indexOf (xs : list value) (x : value) : Z := indexOf_from 0 x xs.

(** Allocation of a new object. *)
Definition alloc (o : object) (st : store) : loc * store :=
  let l := fresh (dom st) in (l, <[l := o]> st).

End Heap.

(** ** lib/schema.js *)

Module Schema.
Import JS Datastore Heap.

(** A field descriptor; a field of the record is [None] when the
    descriptor object does not own that property. *)
Record descriptor : Type := mkDescriptor {
  d_type : option string;
  d_required : option value;
  d_default : option value;
  d_values : option (list value);
  d_validate : option string;
  d_excludeFromIndexes : option value;
  d_read : option value;
  d_write : option value;
  d_optional : option value
}.

Definition empty_descriptor : descriptor :=
  mkDescriptor None None None None None None None None None.

(** Middleware: the validation middleware every schema registers, or a
    function of the caller. *)
Inductive middleware : Type :=
| ValidateBeforeSave
| UserFn (id : nat).

Record hookQueue : Type := mkQueue {
  pres : list middleware;
  post : list middleware
}.

Record callQueues : Type := mkCallQueues {
  cq_model : gmap string hookQueue;
  cq_entity : gmap string hookQueue
}.

Record options : Type := mkOptions {
  validateBeforeSave : bool;
  explicitOnly : option bool;
  queries_readAll : bool
}.

Record schema : Type := mkSchema {
  paths : gmap string descriptor;
  virtuals : gmap string loc;
  methods : gmap string nat;
  statics : gmap string nat;
  shortcutQueries : gmap string (list (string * value));
  callQueue : callQueues;
  s_options : options
}.

(** The own properties of the [reserved] table. *)
Definition reserved_names : list string :=
  [ "ds"; "entityKey"; "emit"; "on"; "once"; "listeners"; "removeListener";
    "errors"; "init"; "isModified"; "isNew"; "get"; "modelName"; "save";
    "schema"; "set"; "toObject"; "validate"; "pre"; "post"; "_pre"; "_post" ].

(** [reserved] is an object literal, so a lookup that misses its own
    properties continues on [Object.prototype], whose members are all
    truthy. *)
Definition Object_prototype_names : list string :=
  [ "constructor"; "__defineGetter__"; "__defineSetter__"; "hasOwnProperty";
    "__lookupGetter__"; "__lookupSetter__"; "isPrototypeOf";
    "propertyIsEnumerable"; "toString"; "valueOf"; "__proto__";
    "toLocaleString" ].

Definition mem_string (k : string) (l : list string) : bool :=
  existsb (String.eqb k) l.

(** The truth value of [reserved[k]]. *)
Definition reserved (k : string) : bool :=
  mem_string k reserved_names || mem_string k Object_prototype_names.

(** [IS_ENTITY_HOOK[hook]], looked up the same way. *)
Definition IS_ENTITY_HOOK (hook : string) : bool :=
  String.eqb hook "save" || mem_string hook Object_prototype_names.

Inductive result (A : Type) : Type :=
| Ok (a : A)
| Throw (msg : string).
Arguments Ok {A} a.
Arguments Throw {A} msg.

Definition pathname_error (k : string) : string :=
  "`" ++ k ++ "` may not be used as a schema pathname".

Definition empty_queue : hookQueue := mkQueue [] [].

Definition set_callQueue (s : schema) (cq : callQueues) : schema :=
  mkSchema (paths s) (virtuals s) (methods s) (statics s)
           (shortcutQueries s) cq (s_options s).

Definition set_paths (s : schema) (p : gmap string descriptor) : schema :=
  mkSchema p (virtuals s) (methods s) (statics s)
           (shortcutQueries s) (callQueue s) (s_options s).

Definition set_virtuals (s : schema) (v : gmap string loc) : schema :=
  mkSchema (paths s) v (methods s) (statics s)
           (shortcutQueries s) (callQueue s) (s_options s).

Definition queue_push_pre (fn : middleware) (q : hookQueue) : hookQueue :=
  mkQueue (pres q ++ [fn]) (post q).

Definition queue_push_post (fn : middleware) (q : hookQueue) : hookQueue :=
  mkQueue (pres q) (post q ++ [fn]).

(** The tables of a schema ([virtuals], [methods], the two call queues)
    are plain objects, kept here by their own properties.  The key
    [__proto__] is never one of them: a read under it gives the prototype
    of the table, and an assignment [table[k] = v] of an object (a
    function is one) under it replaces the prototype and creates no
    property. *)
Definition own {A : Type} (m : gmap string A) (k : string) : option A :=
  if String.eqb k "__proto__" then None else m !! k.

Definition assign {A : Type} (k : string) (v : A) (m : gmap string A) : gmap string A :=
  if String.eqb k "__proto__" then m else <[k := v]> m.

(** [table.hasOwnProperty] is looked up on the table itself: once the
    table owns an entry of that name, which is an object and no
    function, the call [table.hasOwnProperty(k)] throws a [TypeError]. *)
Definition shadowed {A : Type} (m : gmap string A) : bool :=
  bool_decide (is_Some (m !! "hasOwnProperty")).

Definition vivify (hook : string) (m : gmap string hookQueue) : hookQueue :=
  match own m hook with Some q => q | None => empty_queue end.

(** [schema.pre(hook, fn)] and [schema.post(hook, fn)].  Under the hook
    name [__proto__] the new queue becomes the prototype of the table,
    in place of the one an earlier call put there, and the function is
    pushed to it: the table itself does not change. *)
Definition pre (hook : string) (fn : middleware) (s : schema) : result schema :=
  let cq := callQueue s in
  if IS_ENTITY_HOOK hook then
    if shadowed (cq_entity cq) then Throw "TypeError"
    else
      Ok (set_callQueue s (mkCallQueues (cq_model cq)
            (assign hook (queue_push_pre fn (vivify hook (cq_entity cq))) (cq_entity cq))))
  else
    if shadowed (cq_model cq) then Throw "TypeError"
    else
      Ok (set_callQueue s (mkCallQueues
            (assign hook (queue_push_pre fn (vivify hook (cq_model cq))) (cq_model cq))
            (cq_entity cq))).

Definition post_ (hook : string) (fn : middleware) (s : schema) : result schema :=
  let cq := callQueue s in
  if IS_ENTITY_HOOK hook then
    if shadowed (cq_entity cq) then Throw "TypeError"
    else
      Ok (set_callQueue s (mkCallQueues (cq_model cq)
            (assign hook (queue_push_post fn (vivify hook (cq_entity cq))) (cq_entity cq))))
  else
    if shadowed (cq_model cq) then Throw "TypeError"
    else
      Ok (set_callQueue s (mkCallQueues
            (assign hook (queue_push_post fn (vivify hook (cq_model cq))) (cq_model cq))
            (cq_entity cq))).

(** The loop of the constructor over [Object.keys(obj)]: the first
    reserved name throws, every other descriptor is stored. *)
Fixpoint declare_paths (obj : list (string * descriptor))
    (acc : gmap string descriptor) : result (gmap string descriptor) :=
  match obj with
  | [] => Ok acc
  | (k, d) :: r =>
      if reserved k then Throw (pathname_error k)
      else declare_paths r (<[k := d]> acc)
  end.

(** [defaultOptions(options)], for the options the library reads. *)
Definition defaultOptions (o : option options) : options :=
  match o with
  | Some o => o
  | None => mkOptions true None false
  end.

(** [new Schema(obj, options)]. *)
Definition constructor (obj : list (string * descriptor))
    (opts : option options) : result schema :=
  match declare_paths obj ∅ with
  | Throw m => Throw m
  | Ok p =>
      let s := mkSchema p ∅ ∅ ∅ ∅ (mkCallQueues ∅ ∅) (defaultOptions opts) in
      pre "save" ValidateBeforeSave s
  end.

(** What [schema.path(name)] returns when used as a getter. *)
Inductive path_read : Type :=
| PathDescriptor (d : descriptor)
| PathInherited (name : string)
| PathUndefined.

Definition path_get (name : string) (s : schema) : path_read :=
  match paths s !! name with
  | Some d => PathDescriptor d
  | None =>
      if mem_string name Object_prototype_names then PathInherited name
      else PathUndefined
  end.

(** [schema.path(name, obj)] with a descriptor: the setter. *)
Definition path_set (name : string) (d : descriptor) (s : schema) : result schema :=
  if reserved name then Throw (pathname_error name)
  else Ok (set_paths s (<[name := d]> (paths s))).

(** Modelled from the spec: [lib/virtualType.js] is not among the sources;
    a handle is a new object of class [VirtualType] to which a getter and
    a setter are attached later. *)
Definition VirtualType (name : string) : object :=
  mkObject CObject "VirtualType" [("name", VStr name)] None.

(** [schema.virtual(name)]: the handle, the schema and the store after
    the call, or the error thrown.  What is returned is
    [this.virtuals[name]]: the own property, or under the name
    [__proto__] the prototype the assignment has just installed. *)
Definition virtual (name : string) (s : schema) (st : store)
  : result (loc * schema * store) :=
  if shadowed (virtuals s) then Throw "TypeError"
  else
    match own (virtuals s) name with
    | Some h => Ok (h, s, st)
    | None =>
        let '(h, st') := alloc (VirtualType name) st in
        Ok (h, set_virtuals s (assign name h (virtuals s)), st')
    end.

(** A value that is a function, or anything else. *)
Inductive member : Type :=
| Fn (id : nat)
| NotFn.

(** The [name] argument of [schema.method]: a string, an object given by
    its own enumerable properties, [null] (whose [typeof] is ['object']
    too, and on which [Object.keys] throws), or any other value. *)
Inductive method_arg : Type :=
| MethodName (name : string)
| MethodTable (entries : list (string * member))
| MethodNull
| MethodOther.

Definition set_methods (s : schema) (m : gmap string nat) : schema :=
  mkSchema (paths s) (virtuals s) m (statics s)
           (shortcutQueries s) (callQueue s) (s_options s).

(** The loop of [method] over the keys of a table of functions. *)
Definition method_entry (m : gmap string nat) (e : string * member) : gmap string nat :=
  match e with
  | (k, Fn f) => assign k f m
  | (_, NotFn) => m
  end.

(** [schema.method(name, fn)]. *)
Definition method (name : method_arg) (fn : member) (s : schema) : result schema :=
  match name with
  | MethodName n =>
      match fn with
      | Fn f => Ok (set_methods s (assign n f (methods s)))
      | NotFn => Ok s
      end
  | MethodTable entries =>
      Ok (set_methods s (fold_left method_entry entries (methods s)))
  | MethodNull => Throw "TypeError"
  | MethodOther => Ok s
  end.

(** One call of [schema.pre] or [schema.post], and a run of such calls. *)
Inductive registration : Type :=
| RegPre (hook : string) (fn : middleware)
| RegPost (hook : string) (fn : middleware).

Definition register (s : schema) (r : registration) : result schema :=
  match r with
  | RegPre hook fn => pre hook fn s
  | RegPost hook fn => post_ hook fn s
  end.

Fixpoint register_all (rs : list registration) (s : schema) : result schema :=
  match rs with
  | [] => Ok s
  | r :: rest =>
      match register s r with
      | Ok s' => register_all rest s'
      | Throw m => Throw m
      end
  end.

(** The queue a table owns for a hook name, as [Object.keys] and
    [hasOwnProperty] see it; empty when it owns none. *)
Definition queue_of (s : schema) (hook : string) : hookQueue :=
  vivify hook (if IS_ENTITY_HOOK hook then cq_entity (callQueue s)
               else cq_model (callQueue s)).

(** The functions a run of calls registers before, and after, a hook. *)
Definition registered_pre (hook : string) (rs : list registration) : list middleware :=
  omap (fun r => match r with
                 | RegPre h fn => if String.eqb h hook then Some fn else None
                 | RegPost _ _ => None
                 end) rs.

Definition registered_post (hook : string) (rs : list registration) : list middleware :=
  omap (fun r => match r with
                 | RegPost h fn => if String.eqb h hook then Some fn else None
                 | RegPre _ _ => None
                 end) rs.

End Schema.

(** ** lib/model.js *)

Module Model.
Import JS Datastore Heap Schema.

(** *** Identifiers and keys *)

Section Identifiers.

(** [String(n)] for a number, as the language defines it. *)
Variable Number_toString : number -> string.

(** The [id] argument: one identifier, or an array of them. *)
Inductive idarg : Type :=
| One (i : ident)
| Many (ids : list ident).

Definition String_of_ident (i : ident) : string :=
  match i with
  | IdUndefined => "undefined"
  | IdNull => "null"
  | IdStr s => s
  | IdNum n => Number_toString n
  end.

(** [Array.prototype.join]: [null] and [undefined] elements print as the
    empty string. *)
Definition join_element (i : ident) : string :=
  match i with
  | IdUndefined | IdNull => ""
  | _ => String_of_ident i
  end.

Fixpoint join (ids : list ident) : string :=
  match ids with
  | [] => ""
  | [i] => join_element i
  | i :: r => join_element i ++ "," ++ join r
  end.

(** [String(x)] of an argument; an array prints as its elements joined
    by commas. *)
Definition String_of_idarg (a : idarg) : string :=
  match a with
  | One i => String_of_ident i
  | Many ids => join ids
  end.

Definition number_finite (n : number) : bool :=
  match n with
  | Whole _ | Frac _ _ => true
  | NaN | Infinity _ => false
  end.

(** The global [isFinite(x)], which converts with [Number(x)] first. *)
Definition isFinite (a : idarg) : bool :=
  match a with
  | One IdUndefined => false
  | One IdNull => true
  | One (IdStr s) => isFinite_string s
  | One (IdNum n) => number_finite n
  | Many ids => isFinite_string (join ids)
  end.

(** [parseId(id)]: [isFinite(id) ? parseInt(id, 10) : id]. *)
Definition parseId (a : idarg) : idarg :=
  if isFinite a then One (IdNum (parseInt10 (String_of_idarg a))) else a.

Definition parseId_ident (i : ident) : ident :=
  match parseId (One i) with
  | One j => j
  | Many _ => i
  end.

(** The result of [Model.key]: one key, or an array of keys. *)
Inductive keyres : Type :=
| OneKey (k : Key)
| ManyKeys (ks : list Key).

Definition absent (i : ident) : bool :=
  match i with
  | IdUndefined | IdNull => true
  | _ => false
  end.

(** [getPath(id, ancestors)]; [ancestors] is [Some] for an array. *)
Definition getPath (entityKind : string) (id : ident)
    (ancestors : option (list ident)) : list ident :=
  let path :=
    if absent id then [IdStr entityKind]
    else [IdStr entityKind; parseId_ident id] in
  match ancestors with
  | Some anc => (anc ++ path)%list
  | None => path
  end.

(** [getKey(id, ancestors, namespace)]; [namespace] is [None] when
    undefined or null. *)
Definition getKey (entityKind : string) (id : ident)
    (ancestors : option (list ident)) (namespace : option string) : Key :=
  let path := getPath entityKind id ancestors in
  match namespace with
  | Some ns => ds_key_ns ns path
  | None => ds_key path
  end.

(** [Model.key(ids, ancestors, namespace)]. *)
Definition key (entityKind : string) (ids : idarg)
    (ancestors : option (list ident)) (namespace : option string) : keyres :=
  match ids with
  | One i =>
      if absent i then OneKey (getKey entityKind IdNull ancestors namespace)
      else OneKey (getKey entityKind i ancestors namespace)
  | Many l =>
      ManyKeys (map (fun i => getKey entityKind i ancestors namespace) l)
  end.

End Identifiers.

(** *** Shared vocabulary of the asynchronous operations *)

(** A promise that has settled. *)
Inductive promise (A : Type) : Type :=
| Resolved (a : A)
| Rejected (e : value).
Arguments Resolved {A} a.
Arguments Rejected {A} e.

(** What reaches the error position of a callback: an error object the
    library builds, or whatever value a collaborator supplied. *)
Inductive errv : Type :=
| NotFound (message : string)
| BadRequest (message : string)
| Foreign (v : value).

Definition errv_truthy (e : errv) : bool :=
  match e with
  | Foreign v => truthy v
  | _ => true
  end.

(** How an operation ends: its callback is called with an error or with
    a payload, it throws synchronously, or a promise handler throws or a
    promise nobody handles rejects. *)
Inductive outcome (A : Type) : Type :=
| CbError (e : errv)
| CbOk (a : A)
| Thrown (msg : string)
| Unhandled (e : errv).
Arguments CbError {A} e.
Arguments CbOk {A} a.
Arguments Thrown {A} msg.
Arguments Unhandled {A} e.

Definition TypeError : errv := Foreign (VStr "TypeError").

Definition transaction_type_error : string :=
  "Transaction needs to be a gcloud Transaction".

(** A transaction of the datastore client: its [constructor.name] and
    what its promises settle to. *)
Record Transaction : Type := mkTransaction {
  t_ctor : string;
  t_run : promise value;
  t_get : promise (list value);
  t_commit : promise value;
  t_rollback : promise value
}.

(** An entity instance.  With a key supplied to the constructor that key
    is the [entityKey] (lib/entity.js is not among the sources; its test
    expects [entity.entityKey] to equal the key passed); [None] stands for
    the key the constructor builds when it is given none, which has no
    id. *)
Record instance : Type := mkInstance {
  entityKey : option Key;
  entityData : value
}.

(** *** Model.get *)

Section Get.

Variable Number_toString : number -> string.
Variable entityKind : string.

Definition value_of_ident (i : ident) : value :=
  match i with
  | IdUndefined => VUndefined
  | IdNull => VNull
  | IdStr s => VStr s
  | IdNum n => VNum n
  end.

(** [a.entityKey.id] as a value. *)
Definition entityKey_id (a : instance) : value :=
  match entityKey a with
  | Some k => match key_id k with Some n => VNum n | None => VUndefined end
  | None => VUndefined
  end.

(** [Array.prototype.sort] with a comparator, as a stable insertion
    sort: an element moves before those that compare greater. *)
Section Sort.
Context {A : Type} (cmp : A -> A -> Z).

Fixpoint insert_sorted (x : A) (l : list A) : list A :=
  match l with
  | [] => [x]
  | y :: r => if 0 <? cmp y x then x :: y :: r else y :: insert_sorted x r
  end.

Definition sort (l : list A) : list A :=
  fold_left (fun acc x => insert_sorted x acc) l [].
End Sort.

(** The comparator of the [preserveOrder] sort. *)
Definition order_cmp (ids : list ident) (a b : instance) : Z :=
  indexOf (map value_of_ident ids) (entityKey_id a)
  - indexOf (map value_of_ident ids) (entityKey_id b).

(** [_this.__model(e, null, null, null, e[ds.KEY])] for a fetched [e];
    reading [e[ds.KEY]] throws on [undefined] and [null]. *)
Definition model_of_fetched (st : store) (e : value) : option instance :=
  match e with
  | VUndefined | VNull => None
  | VRef l => Some (mkInstance (st !! l ≫= o_key) e)
  | _ => Some (mkInstance None e)
  end.

Fixpoint models_of_fetched (st : store) (es : list value) : option (list instance) :=
  match es with
  | [] => Some []
  | e :: r =>
      match model_of_fetched st e, models_of_fetched st r with
      | Some i, Some rest => Some (i :: rest)
      | _, _ => None
      end
  end.

(** What the callback of [get] receives on success. *)
Inductive get_response : Type :=
| Single (e : instance)
| Multiple (es : list instance).

Definition not_found_message (id : idarg) : option string :=
  match id with
  | One IdUndefined | One IdNull => None
  | _ => Some (entityKind ++ " {" ++ String_of_idarg Number_toString id ++ "} not found")
  end.

(** The elements of an array in the store. *)
Definition array_items (st : store) (v : value) : option (list value) :=
  match v with
  | VRef l =>
      match st !! l with
      | Some o => match o_class o with
                  | CArray => Some (map snd (o_props o))
                  | _ => None
                  end
      | None => None
      end
  | _ => None
  end.

(** [onEntity(data)] of [get]; [id] is the identifier after [parseId].
    When [parseId] has turned the array into a number, the comparator,
    which is called once there are two elements, finds no [indexOf]. *)
Definition get_onEntity (st : store) (id : idarg) (multiple preserveOrder : bool)
    (data : list value) : outcome get_response :=
  match data with
  | [] =>
      match not_found_message id with
      | Some m => CbError (NotFound m)
      | None => Unhandled TypeError
      end
  | entity :: _ =>
      let items := if multiple then array_items st entity else Some [entity] in
      match items ≫= models_of_fetched st with
      | None => Unhandled TypeError
      | Some es =>
          if multiple && preserveOrder then
            match id, es with
            | Many ids, _ => CbOk (Multiple (sort (order_cmp ids) es))
            | One _, _ :: _ :: _ => Unhandled TypeError
            | One _, _ => CbOk (Multiple es)
            end
          else
            match multiple, es with
            | true, _ => CbOk (Multiple es)
            | false, e :: _ => CbOk (Single e)
            | false, [] => Unhandled TypeError
            end
      end
  end.

(** [Model.get(id, ancestors, namespace, transaction, options, cb)];
    [backend] is what [ds.get(key)] settles to outside a transaction. *)
Definition get (st : store) (id : idarg) (ancestors : option (list ident))
    (namespace : option string) (transaction : option Transaction)
    (preserveOrder : bool) (backend : promise (list value))
  : outcome get_response :=
  let multiple := match id with Many _ => true | One _ => false end in
  let id' := parseId Number_toString id in
  let handle (p : promise (list value)) :=
    match p with
    | Resolved data => get_onEntity st id' multiple preserveOrder data
    | Rejected e => CbError (Foreign e)
    end in
  match transaction with
  | Some t =>
      if negb (String.eqb (t_ctor t) "Transaction")
      then Thrown transaction_type_error
      else handle (t_get t)
  | None => handle backend
  end.

(** The keys [get] asks the backend for. *)
Definition get_requested (id : idarg) (ancestors : option (list ident))
    (namespace : option string) : keyres :=
  key Number_toString entityKind (parseId Number_toString id) ancestors namespace.

End Get.

(** *** Model.update *)

(** Calls that leave [update], in the order they are issued. *)
Inductive event : Type :=
| EvRun
| EvGet (k : keyres)
| EvRollback
| EvCommit
| EvModelSave (k : option keyres) (data : value) (props : option (list (string * value)))
    (in_transaction : bool)
| EvEmit (name : string).

(** [extend(false, target, source)] of the [extend] package, for a target
    object; the source is given by its enumerable properties.  A property
    whose value is the target itself or [undefined] is skipped. *)
Definition extend_step (target : loc) (ps : list (string * value))
    (p : string * value) : list (string * value) :=
  let '(name, copy) := p in
  if strict_eq (VRef target) copy then ps
  else match copy with
       | VUndefined => ps
       | _ => set_prop name copy ps
       end.

Definition extend_props (target : loc) (source : list (string * value))
    (ps : list (string * value)) : list (string * value) :=
  fold_left (extend_step target) source ps.

Definition set_props (o : object) (ps : list (string * value)) : object :=
  mkObject (o_class o) (o_ctor o) ps (o_key o).

Definition extend (target : loc) (source : list (string * value)) (st : store) : store :=
  match st !! target with
  | Some o => <[target := set_props o (extend_props target source (o_props o))]> st
  | None => st
  end.

(** The enumerable properties of an array with the given elements. *)
Fixpoint array_props_from (i : Z) (xs : list value) : list (string * value) :=
  match xs with
  | [] => []
  | x :: r => (whole_to_string i, x) :: array_props_from (i + 1) r
  end.

Definition array_props (xs : list value) : list (string * value) :=
  array_props_from 0 xs.

Section Update.

Variable Number_toString : number -> string.
Variable entityKind : string.

(** [_this.__model(data, null, null, null, key).save(transaction, {op:'update'})]:
    the promise of the entity's hooked [save], resolving to the saved
    entity and the operation info. *)
Variable model_save :
  option keyres -> value -> option Transaction -> store -> promise (value * value).

Definition update_not_found_message (id : idarg) : option string :=
  match id with
  | One IdUndefined | One IdNull => None
  | _ => Some ("Entity {" ++ String_of_idarg Number_toString id ++ "} to update not found")
  end.

(** The closure state an update run shares: the [error] variable and
    the entity a successful save reported. *)
Record closure : Type := mkClosure {
  error : option errv;
  entityUpdated : value
}.

Definition some_truthy (e : option errv) : bool :=
  match e with Some e => errv_truthy e | None => false end.

(** [onTransaction(transactionError, apiResponse)]. *)
Definition onTransaction (c : closure) (transactionError : option errv)
  : list event * outcome value :=
  if some_truthy transactionError then
    match transactionError with
    | Some e => ([], CbError e)
    | None => ([], CbOk VUndefined)
    end
  else if some_truthy (error c) then
    match error c with
    | Some e => ([], CbError e)
    | None => ([], CbOk VUndefined)
    end
  else ([EvEmit "update"], CbOk (entityUpdated c)).

(** The continuation [done] handed to [getInTransaction]: [onTransaction]
    itself under a caller's transaction; under the transaction [update]
    opened, the function that commits when it is given no error. *)
Definition done (internal : bool) (t : Transaction) (c : closure)
    (err : option errv) : list event * outcome value :=
  if internal then
    if some_truthy err then onTransaction c err
    else
      match t_commit t with
      | Resolved v =>
          let '(ev, o) := onTransaction c (Some (Foreign v)) in (EvCommit :: ev, o)
      | Rejected e => ([EvCommit], Unhandled (Foreign e))
      end
  else onTransaction c err.

(** [transaction.rollback().then(done)]. *)
Definition rollback_then_done (internal : bool) (t : Transaction) (c : closure)
  : list event * outcome value :=
  match t_rollback t with
  | Resolved v =>
      let '(ev, o) := done internal t c (Some (Foreign v)) in (EvRollback :: ev, o)
  | Rejected e => ([EvRollback], Unhandled (Foreign e))
  end.

(** The inner [save(key, data, transaction, done)] when called from
    [getInTransaction]; the transaction, an object with properties of
    its own, is rolled back when the save fails. *)
Definition save_in_transaction (internal : bool) (t : Transaction) (st : store)
    (k : option keyres) (data : value) : list event * outcome value :=
  let props := match data with VRef l => o_props <$> st !! l | _ => None end in
  let ev := EvModelSave k data props true in
  match model_save k data (Some t) st with
  | Resolved (ent, info) =>
      let '(ev', o) := done internal t (mkClosure None ent) None in (ev :: ev', o)
  | Rejected e =>
      let '(ev', o) :=
        rollback_then_done internal t (mkClosure (Some (Foreign e)) VUndefined) in
      (ev :: ev', o)
  end.

(** [getInTransaction(transaction, done)]. *)
Definition getInTransaction (internal : bool) (t : Transaction) (st : store)
    (id : idarg) (k : keyres) : list event * outcome value :=
  match t_get t with
  | Rejected e =>
      let '(ev, o) :=
        done internal t (mkClosure (Some (Foreign e)) VUndefined) (Some (Foreign e)) in
      (EvGet k :: ev, o)
  | Resolved [] =>
      match update_not_found_message id with
      | None => ([EvGet k], Unhandled TypeError)
      | Some m =>
          let '(ev, o) :=
            rollback_then_done internal t (mkClosure (Some (NotFound m)) VUndefined) in
          (EvGet k :: ev, o)
      end
  | Resolved ((entity :: _) as data) =>
      match entity with
      | VUndefined | VNull => ([EvGet k], Unhandled TypeError)
      | VRef l =>
          let st' := extend l (array_props data) st in
          let '(ev, o) :=
            save_in_transaction internal t st'
              (OneKey <$> (st' !! l ≫= o_key)) entity in
          (EvGet k :: ev, o)
      | _ =>
          let '(ev, o) := save_in_transaction internal t st None entity in
          (EvGet k :: ev, o)
      end
  end.

(** The inner [save(key, data, null, cb)] of the replace path. *)
Definition save_replace (st : store) (k : keyres) (data : value)
  : list event * outcome value :=
  let props := match data with VRef l => o_props <$> st !! l | _ => None end in
  let ev := EvModelSave (Some k) data props false in
  match model_save (Some k) data None st with
  | Resolved (ent, info) => ([ev], CbOk ent)
  | Rejected e => ([ev], CbError (Foreign e))
  end.

(** [Model.update(id, data, ancestors, namespace, transaction, options, cb)];
    [fresh_transaction] is what [ds.transaction()] returns. *)
Definition update (st : store) (id : idarg) (data : value)
    (ancestors : option (list ident)) (namespace : option string)
    (transaction : option Transaction) (replace : bool)
    (fresh_transaction : Transaction) : list event * outcome value :=
  let id' := parseId Number_toString id in
  let k := key Number_toString entityKind id' ancestors namespace in
  if replace then save_replace st k data
  else
    match transaction with
    | None =>
        let t := fresh_transaction in
        match t_run t with
        | Resolved _ =>
            let '(ev, o) := getInTransaction true t st id' k in (EvRun :: ev, o)
        | Rejected e =>
            let '(ev, o) := onTransaction (mkClosure None VUndefined) (Some (Foreign e)) in
            (EvRun :: ev, o)
        end
    | Some t =>
        if negb (String.eqb (t_ctor t) "Transaction")
        then ([], Thrown transaction_type_error)
        else getInTransaction false t st id' k
    end.

End Update.

(** *** Model.delete and Model.deleteAll *)

(** Modelled from the spec: the registry behind [Model.hooks] is not among
    the sources.  It keeps, per operation name, the pre functions and the
    post functions in registration order; a name owns an entry in [_pres]
    (or [_posts]) once a function is registered for it. *)
Record hooks : Type := mkHooks {
  _pres : gmap string (list nat);
  _posts : gmap string (list nat)
}.

(** What a delete leaves behind, in order: hook invocations and calls of
    the backend. *)
Inductive del_event : Type :=
| DPre (fn : nat) (context : option keyres)
| DPost (fn : nat) (k : keyres)
| DDelete (k : keyres)
| DTransactionDelete (k : keyres).

(** The response of [ds.delete], with the derived flag. *)
Record delete_response : Type := mkDeleteResponse {
  indexUpdates : Z;
  success : bool
}.

(** An entity of a query result, with the key the client attaches to it. *)
Record fetched : Type := mkFetched {
  fe_key : Key;
  fe_entity : value
}.

Section Delete.

Variable Number_toString : number -> string.
Variable entityKind : string.
Variable model_hooks : hooks.

(** How a registered function ends when it runs as a pre function with
    the given context, or as a post function with the given key: [None]
    when it succeeds. *)
Variable run_pre : nat -> option keyres -> option errv.
Variable run_post : nat -> keyres -> option errv.

(** [ds.delete(key, callback)]: the error, or the response with its
    count of index updates when there is one. *)
Variable ds_delete : keyres -> errv + option Z.

(** Modelled from the spec: [hooks.execPre(name, context, callback)] runs
    the pre functions in registration order and stops at the first
    failure. *)
Fixpoint execPre_list (fns : list nat) (context : option keyres)
  : list del_event * option errv :=
  match fns with
  | [] => ([], None)
  | f :: r =>
      match run_pre f context with
      | Some e => ([DPre f context], Some e)
      | None => let '(ev, res) := execPre_list r context in (DPre f context :: ev, res)
      end
  end.

Definition execPre (name : string) (context : option keyres) :=
  execPre_list (default [] (_pres model_hooks !! name)) context.

(** Modelled from the spec: [hooks.execPost(name, context, args, callback)],
    likewise for the post functions. *)
Fixpoint execPost_list (fns : list nat) (k : keyres)
  : list del_event * option errv :=
  match fns with
  | [] => ([], None)
  | f :: r =>
      match run_post f k with
      | Some e => ([DPost f k], Some e)
      | None => let '(ev, res) := execPost_list r k in (DPost f k :: ev, res)
      end
  end.

Definition execPost (name : string) (k : keyres) :=
  execPost_list (default [] (_posts model_hooks !! name)) k.

Definition is_many (k : keyres) : bool :=
  match k with ManyKeys _ => true | OneKey _ => false end.

(** [Model.delete(id, ancestors, namespace, transaction, key, cb)]. *)
Definition delete (id : idarg) (ancestors : option (list ident))
    (namespace : option string) (transaction : option Transaction)
    (k : option keyres) : list del_event * outcome (option delete_response) :=
  let id' := parseId Number_toString id in
  let '(k', multiple) :=
    match k with
    | None => (key Number_toString entityKind id' ancestors namespace,
               match id with Many _ => true | One _ => false end)
    | Some k0 => (k0, is_many k0)
    end in
  match transaction with
  | Some t =>
      if negb (String.eqb (t_ctor t) "Transaction")
      then ([], Thrown transaction_type_error)
      else
        let '(ev, res) := execPre "delete" (if multiple then None else Some k') in
        match res with
        | Some e => (ev, CbError e)
        | None => ((ev ++ [DTransactionDelete k'])%list, CbOk None)
        end
  | None =>
      let '(ev, res) := execPre "delete" (if multiple then None else Some k') in
      match res with
      | Some e => (ev, CbError e)
      | None =>
          match ds_delete k' with
          | inl e => ((ev ++ [DDelete k'])%list, CbError e)
          | inr apiRes =>
              let response :=
                (fun n => mkDeleteResponse n (0 <? n)) <$> apiRes in
              let '(ev', res') := execPost "delete" k' in
              match res' with
              | Some e => ((ev ++ DDelete k' :: ev')%list, CbError e)
              | None => ((ev ++ DDelete k' :: ev')%list, CbOk response)
              end
          end
      end
  end.

(** [async.eachSeries] over the entities of [deleteAll]: one [delete] per
    entity, in order, up to the first that reports an error. *)
Fixpoint delete_each (entities : list fetched) : list del_event * option errv :=
  match entities with
  | [] => ([], None)
  | e :: r =>
      match delete (One IdNull) None None None (Some (OneKey (fe_key e))) with
      | (ev, CbOk _) => let '(ev', res) := delete_each r in ((ev ++ ev')%list, res)
      | (ev, CbError err) => (ev, Some err)
      | (ev, Thrown m) => (ev, Some (Foreign (VStr m)))
      | (ev, Unhandled err) => (ev, Some err)
      end
  end.

Definition has_delete_hooks : bool :=
  bool_decide (is_Some (_pres model_hooks !! "delete"))
  || bool_decide (is_Some (_posts model_hooks !! "delete")).

Definition deleted_message : string :=
  "All " ++ entityKind ++ " deleted successfully.".

(** [Model.deleteAll(ancestors, namespace, cb)]; [query] is what
    [ds.runQuery] calls back with. *)
Definition deleteAll (query : errv + list fetched)
  : list del_event * outcome (bool * string) :=
  match query with
  | inl err => ([], CbError err)
  | inr entities =>
      if has_delete_hooks then
        match delete_each entities with
        | (ev, Some err) => (ev, CbError err)
        | (ev, None) => (ev, CbOk (true, deleted_message))
        end
      else
        match delete (One IdNull) None None None
                (Some (ManyKeys (map fe_key entities))) with
        | (ev, CbOk _) => (ev, CbOk (true, deleted_message))
        | (ev, CbError err) => (ev, CbError err)
        | (ev, Thrown m) => (ev, Thrown m)
        | (ev, Unhandled err) => (ev, Unhandled err)
        end
  end.

End Delete.

(** *** Model.findOne and Model.findAround *)

(** Calls that leave the two finders, in the order they are issued: the
    calls that build and run the query, and the runs of the functions
    registered before and after [findOne]. *)
Inductive find_event : Type :=
| FCreateQuery (namespace : option value) (kind : string)
| FLimit (n : value)
| FFilter (property : value) (op : option string) (v : value)
| FOrder (property : value) (descending : bool)
| FHasAncestor (path : list ident)
| FRunQuery
| FPre (fn : nat)
| FPost (fn : nat).

Section Find.

Variable entityKind : string.
Variable model_hooks : hooks.

(** How a registered function ends when it runs around [findOne]:
    [None] when it succeeds. *)
Variable run_hook : nat -> option errv.

(** The result type of the serializer, and
    [datastoreSerializer.fromDatastore.call(_this, entity, readAll)]. *)
Variable plain : Type.
Variable fromDatastore : value -> value -> plain.

(** [initQuery(self, namespace)] without a transaction: the namespace is
    passed on only when it is truthy. *)
Definition initQuery (namespace : value) : find_event :=
  FCreateQuery (if truthy namespace then Some namespace else None) entityKind.

(** Modelled from the spec: [hooks.execPre] and [hooks.execPost] run the
    registered functions in registration order and stop at the first
    failure.  The callbacks [findOne] hands to them take no argument, so
    that how the run ended is ignored. *)
Fixpoint run_hooks (mk : nat -> find_event) (fns : list nat) : list find_event :=
  match fns with
  | [] => []
  | f :: r =>
      match run_hook f with
      | Some _ => [mk f]
      | None => mk f :: run_hooks mk r
      end
  end.

Definition own_props (st : store) (v : value) : list (string * value) :=
  match v with
  | VRef l => match st !! l with Some o => o_props o | None => [] end
  | _ => []
  end.

Definition params_message : string := "Params have to be passed as object".

(** [Model.findOne(params, ancestors, namespace, cb)]; [query] is what
    [ds.runQuery] calls back with. *)
Definition findOne (st : store) (params : value) (ancestors : option (list ident))
    (namespace : value) (query : errv + list value)
  : list find_event * outcome instance :=
  if negb (is_object st params) then ([], CbError (BadRequest params_message))
  else
    let built :=
      (initQuery namespace :: FLimit (VNum (Whole 1))
       :: map (fun p => FFilter (VStr p.1) None p.2) (own_props st params)
       ++ match ancestors with Some a => [FHasAncestor a] | None => [] end)%list in
    let before :=
      (built ++ run_hooks FPre (default [] (_pres model_hooks !! "findOne"))
             ++ [FRunQuery])%list in
    let not_found := CbError (NotFound (entityKind ++ " not found")) in
    match query with
    | inl err => (before, CbError err)
    | inr [] => (before, not_found)
    | inr (entity :: _) =>
        if truthy entity then
          match model_of_fetched st entity with
          | Some m =>
              ((before ++ run_hooks FPost (default [] (_posts model_hooks !! "findOne")))%list,
               CbOk m)
          | None => (before, not_found)
          end
        else (before, not_found)
    end.

Definition quote : string := String (ascii_of_nat 34) "".

Definition direction_missing : string :=
  "You must set " ++ quote ++ "after" ++ quote ++ " or " ++ quote ++ "before" ++ quote
  ++ " in options".

(** [Model.findAround(property, value, options, namespace, cb)]; [args]
    are the arguments before the callback. *)
Definition findAround (st : store) (args : list value) (query : errv + list value)
  : list find_event * outcome (list plain) :=
  match args with
  | property :: v :: opts :: rest =>
      let namespace := match rest with ns :: _ => ns | [] => VUndefined end in
      if negb (is_object st opts)
      then ([], CbError (BadRequest "Options pased has to be an object"))
      else
        let ps := own_props st opts in
        match get_prop "after" ps, get_prop "before" ps with
        | None, None => ([], CbError (BadRequest direction_missing))
        | Some _, Some _ =>
            ([], CbError (BadRequest "You must chose between after or before"))
        | after, before =>
            let a := default VUndefined after in
            let b := default VUndefined before in
            let calls :=
              [initQuery namespace;
               FFilter property (Some (if truthy a then ">" else "<")) v;
               FOrder property (negb (truthy a));
               FLimit (if truthy a then a else b);
               FRunQuery] in
            match query with
            | inl err => (calls, CbError err)
            | inr entities =>
                (calls,
                 CbOk (map (fun e => fromDatastore e
                                       (default VUndefined (get_prop "readAll" ps)))
                           entities))
            end
        end
  | _ => ([], CbError (BadRequest "Argument missing"))
  end.

End Find.

(** *** Model.sanitize *)

Definition update_object (l : loc) (f : object -> object) (st : store) : store :=
  match st !! l with
  | Some o => <[l := f o]> st
  | None => st
  end.

(** [this.schema.paths.hasOwnProperty(k)] fails or [paths[k].write === false]. *)
Definition not_writable (s : schema) (k : string) : bool :=
  match paths s !! k with
  | None => true
  | Some d =>
      match d_write d with
      | Some (VBool false) => true
      | _ => false
      end
  end.

(** One round of the loop over [Object.keys(data)]. *)
Definition sanitize_step (s : schema) (ps : list (string * value)) (k : string)
  : list (string * value) :=
  if not_writable s k then delete_prop k ps
  else
    match get_prop k ps with
    | Some v => if strict_eq v (VStr "null") then set_prop k VNull ps else ps
    | None => ps
    end.

Definition sanitize_props (s : schema) (ps : list (string * value))
  : list (string * value) :=
  fold_left (sanitize_step s) (keys ps) ps.

(** [Model.sanitize(data)]: the value returned and the store after the
    call. *)
Definition sanitize (s : schema) (st : store) (data : value) : value * store :=
  if is_object st data then
    match data with
    | VRef l => (data, update_object l (fun o => set_props o (sanitize_props s (o_props o))) st)
    | _ => (VNull, st)
    end
  else (VNull, st).

(** *** Entity instances: save and validate *)

(** The receiver of [save] and [validate]: its schema, the object that
    is its [entityData], its key and the names it excludes from
    indexes. *)
Record entity : Type := mkEntity {
  e_schema : schema;
  e_data : loc;
  e_key : option Key;
  e_excludeFromIndexes : list string
}.

(** Calls that leave [save]. *)
Inductive save_event (S : Type) : Type :=
| SvDsSave (k : option Key) (data : S)
| SvTransactionSave (k : option Key) (data : S)
| SvEmitSave.
Arguments SvDsSave {S} k data.
Arguments SvTransactionSave {S} k data.
Arguments SvEmitSave {S}.

(** The [transaction] argument of [save]: absent ([undefined], [null] or
    the empty object that [update] passes), or an object. *)
Inductive txarg : Type :=
| TxAbsent
| TxObject (t : Transaction).

Section Save.

(** The serialized form of an entity's data, and the serializer
    [datastoreSerializer.toDatastore(entityData, excludeFromIndexes)]. *)
Variable serialized : Type.
Variable toDatastore : store -> list (string * value) -> list string -> serialized.

(** [new Date()] at time [now]. *)
Definition new_Date (now : Z) : object := mkObject (CDate now) "Date" [] None.

(** The assignment [this.entityData.modifiedOn = new Date()] that [save]
    makes when the schema declares that path. *)
Definition touch_modifiedOn (this : entity) (now : Z) (st : store) : store :=
  match paths (e_schema this) !! "modifiedOn" with
  | Some _ =>
      let '(d, st1) := alloc (new_Date now) st in
      update_object (e_data this)
        (fun o => set_props o (set_prop "modifiedOn" (VRef d) (o_props o))) st1
  | None => st
  end.

Definition data_props (this : entity) (st : store) : list (string * value) :=
  match st !! e_data this with
  | Some o => o_props o
  | None => []
  end.

(** The body of [save(transaction, options, cb)] at time [now];
    [backend] is what [ds.save(entity)] settles to.  The result is the
    store after the call, the calls issued and how the call ends (the
    payload of the callback is the operation name). *)
Definition save (this : entity) (st : store) (now : Z) (transaction : txarg)
    (op : option string) (backend : promise value)
  : store * list (save_event serialized) * outcome string :=
  let st' := touch_modifiedOn this now st in
  let data := toDatastore st' (data_props this st') (e_excludeFromIndexes this) in
  let info := default "save" op in
  match transaction with
  | TxAbsent =>
      match backend with
      | Resolved _ => (st', [SvDsSave (e_key this) data; SvEmitSave], CbOk info)
      | Rejected e => (st', [SvDsSave (e_key this) data], CbError (Foreign e))
      end
  | TxObject t =>
      if negb (String.eqb (t_ctor t) "Transaction")
      then (st', [], Thrown transaction_type_error)
      else (st', [SvTransactionSave (e_key this) data], CbOk info)
  end.

End Save.

(** *** validate *)

(** The entries of the [errors] object. *)
Inductive verror : Type :=
| PropertyNotAllowed (message : string)
| WrongDateFormat (message : string)
| ValidationError (message : string)
| ValidatorError (errorName : option string) (message : string)
| ValueNotAllowed (property : string) (allowed : list value).

(** The result of [validate]: [{success: true}], or [{success: false,
    errors}]. *)
Inductive validation : Type :=
| Valid
| Invalid (errors : list (string * verror)).

Record vstate : Type := mkVstate {
  vs_data : list (string * value);
  vs_errors : list (string * verror)
}.

(** [valueIsEmpty(v)]. *)
Definition valueIsEmpty (v : value) : bool :=
  match v with
  | VNull | VUndefined => true
  | VStr s => all_ws s
  | _ => false
  end.

(** [isInt(n)] and [isFloat(n)]: [Number(n) === n] and the remainder of
    [n % 1]; the remainder of an infinity is [NaN], which differs from 0. *)
Definition isInt (v : value) : bool :=
  match v with
  | VNum (Whole _) => true
  | _ => false
  end.

Definition isFloat (v : value) : bool :=
  match v with
  | VNum (Frac _ _) | VNum (Infinity _) => true
  | _ => false
  end.

Definition isNaN (n : number) : bool :=
  match n with NaN => true | _ => false end.

Section Validate.

Variable entityKind : string.

(** [String(v)] for any value, as the language defines it. *)
Variable Value_toString : store -> value -> string.
(** [moment(s).isValid()]. *)
Variable moment_isValid : string -> bool.
(** [validator[name](v)] of the validator package. *)
Variable validator : string -> value -> bool.

(** [v.value] for a value that is not [null] or [undefined]. *)
Definition value_property (st : store) (v : value) : value :=
  match v with
  | VRef l =>
      match st !! l with
      | Some o => default VUndefined (get_prop "value" (o_props o))
      | None => VUndefined
      end
  | _ => VUndefined
  end.

(** [validateDateTime(value, k)] reports an error. *)
Definition datetime_invalid (st : store) (v : value) : bool :=
  negb (String.eqb (ctor_name st v) "Date") &&
  match v with
  | VStr s => negb (date_pattern_matches s) || negb (moment_isValid s)
  | _ => true
  end.

(** The [typeValid] flag for a declared type other than [datetime]. *)
Definition typeValid (st : store) (ty : string) (v : value) : bool :=
  if String.eqb ty "array" then is_array st v
  else if String.eqb ty "int" then
    if String.eqb (ctor_name st v) "Int"
    then negb (isNaN (parseInt (Value_toString st (value_property st v))))
    else isInt v
  else if String.eqb ty "double" then
    if String.eqb (ctor_name st v) "Double"
    then
      let n := VNum (parseFloat (Value_toString st (value_property st v))) in
      isFloat n || isInt n
    else isFloat v || isInt v
  else if String.eqb ty "buffer" then
    match class_of st v with Some CBuffer => true | _ => false end
  else if String.eqb ty "geoPoint" then String.eqb (ctor_name st v) "GeoPoint"
  else String.eqb (typeof st v) ty.

Definition required_error (k : string) : verror :=
  ValidatorError (Some "Required") ("Property {" ++ k ++ "} is required").

Definition is_required (d : option descriptor) : bool :=
  match d with
  | Some d => match d_required d with Some (VBool true) => true | _ => false end
  | None => false
  end.

(** The type step: the [errors] after it. *)
Definition check_type (st : store) (k : string) (d : option descriptor)
    (skip isValueEmpty : bool) (propertyValue : value)
    (errors : list (string * verror)) : list (string * verror) :=
  match d with
  | Some d =>
      match d_type d with
      | Some ty =>
          if negb skip && negb isValueEmpty then
            if String.eqb ty "datetime" then
              if datetime_invalid st propertyValue
              then set_prop "datetime" (WrongDateFormat ("Wrong date format for " ++ k)) errors
              else errors
            else if typeValid st ty propertyValue then errors
            else set_prop k (ValidationError ("Data type error for " ++ k)) errors
          else errors
      | None => errors
      end
  | None => errors
  end.

(** The format step; [current] is [self.entityData[k]] read again. *)
Definition check_format (k : string) (d : option descriptor) (skip : bool)
    (current : value) (errors : list (string * verror)) : list (string * verror) :=
  match d with
  | Some d =>
      match d_validate d with
      | Some rule =>
          if negb skip && truthy current
             && negb (strict_eq current (VStr "")) && negb (strict_eq current VNull)
          then
            if validator rule current then errors
            else set_prop k (ValidatorError None ("Wrong format for property {" ++ k ++ "}")) errors
          else errors
      | None => errors
      end
  | None => errors
  end.

(** The preset values step. *)
Definition check_values (k : string) (d : option descriptor) (skip : bool)
    (current : value) (errors : list (string * verror)) : list (string * verror) :=
  match d with
  | Some d =>
      match d_values d with
      | Some allowed =>
          if negb skip && negb (strict_eq current (VStr "")) then
            if indexOf allowed current <? 0
            then set_prop k (ValueNotAllowed k allowed) errors
            else errors
          else errors
      | None => errors
      end
  | None => errors
  end.

(** One round of the loop over [Object.keys(this.entityData)]. *)
Definition validate_key (s : schema) (st : store) (vs : vstate) (k : string) : vstate :=
  let d := paths s !! k in
  let schemaHasProperty := bool_decide (is_Some d) in
  let raw := default VUndefined (get_prop k (vs_data vs)) in
  let isValueEmpty := valueIsEmpty raw in
  let propertyValue := match raw with VStr x => VStr (trim x) | _ => raw end in
  let is_virtual := bool_decide (is_Some (virtuals s !! k)) in
  let data := if is_virtual then delete_prop k (vs_data vs) else vs_data vs in
  let open_schema :=
    match explicitOnly (s_options s) with Some false => true | _ => false end in
  let skip := is_virtual || (negb schemaHasProperty && open_schema) in
  let e1 :=
    if negb skip && negb schemaHasProperty
    then set_prop "properties"
           (PropertyNotAllowed
              ("Property not allowed {" ++ k ++ "} for " ++ entityKind ++ " Entity"))
           (vs_errors vs)
    else vs_errors vs in
  let e2 := check_type st k d skip isValueEmpty propertyValue e1 in
  let e3 :=
    if negb skip && is_required d && isValueEmpty
    then set_prop k (required_error k) e2 else e2 in
  let current := default VUndefined (get_prop k data) in
  let e4 := check_format k d skip current e3 in
  let e5 := check_values k d skip current e4 in
  mkVstate data e5.

Definition validate_loop (s : schema) (st : store) (ps : list (string * value)) : vstate :=
  fold_left (validate_key s st) (keys ps) (mkVstate ps []).

(** [validate(cb)]: the payload, and the store after the call (virtual
    properties are removed from [entityData]). *)
Definition validate (this : entity) (st : store) : validation * store :=
  let vs := validate_loop (e_schema this) st (data_props this st) in
  let st' := update_object (e_data this) (fun o => set_props o (vs_data vs)) st in
  match vs_errors vs with
  | [] => (Valid, st')
  | errors => (Invalid errors, st')
  end.

End Validate.

(** *** The validation middleware of lib/schema.js *)

(** The errors table is kept in the order in which its keys were
    created.  [Object.keys] lists the keys that are array indices first,
    in ascending order, and the other keys after them in the order of
    their creation.  An array index is the canonical numeral of a whole
    number up to [2^32 - 2]. *)
Definition array_index (k : string) : option Z :=
  match k with
  | EmptyString => None
  | String c r =>
      if all_digits k
         && (negb (Ascii.eqb c "0") || String.eqb r "")
         && (digits_value k <=? 4294967294)
      then Some (digits_value k)
      else None
  end.

Definition indexed_entries {V : Type} (ps : list (string * V))
  : list (Z * (string * V)) :=
  omap (fun p => (fun n => (n, p)) <$> array_index p.1) ps.

Definition lower {V : Type} (best y : Z * (string * V)) : Z * (string * V) :=
  if y.1 <? best.1 then y else best.

(** The entry under [Object.keys(o)[0]]. *)
Definition first_entry {V : Type} (ps : list (string * V)) : option (string * V) :=
  match indexed_entries ps with
  | [] => head ps
  | x :: r => Some (fold_left lower r x).2
  end.

(** How the promise of the middleware settles: it resolves, or rejects
    with [errors[Object.keys(errors)[0]]], which is [undefined] for a
    table without keys. *)
Inductive settled : Type :=
| Passes
| Rejects (e : option verror).

(** The function the schema registers before [save], called on an
    entity: the way it settles, and the store afterwards. *)
Definition validation_middleware (entityKind : string)
    (Value_toString : store -> value -> string) (moment_isValid : string -> bool)
    (validator : string -> value -> bool) (this : entity) (st : store)
  : settled * store :=
  if validateBeforeSave (s_options (e_schema this)) then
    match validate entityKind Value_toString moment_isValid validator this st with
    | (Valid, st') => (Passes, st')
    | (Invalid errors, st') => (Rejects (snd <$> first_entry errors), st')
    end
  else (Passes, st).

(** *** Model.excludeFromIndexes *)

(** The descriptor of a path declared by [excludeFromIndexes], and the
    assignment [paths[p].excludeFromIndexes = true] on an existing one. *)
Definition excluded_descriptor : descriptor :=
  mkDescriptor None None None None None (Some (VBool true)) None None (Some (VBool true)).

Definition mark_excluded (d : descriptor) : descriptor :=
  mkDescriptor (d_type d) (d_required d) (d_default d) (d_values d) (d_validate d)
               (Some (VBool true)) (d_read d) (d_write d) (d_optional d).

(** The schema holds the descriptor objects the caller passed, by
    reference, so that two paths may hold one object.  [alias] gives the
    paths that hold an object of the caller the identity of that object;
    a path without an entry holds an object of its own. *)
Definition shares (alias : gmap string loc) (p q : string) : bool :=
  String.eqb p q ||
  match (alias !! p : option loc), (alias !! q : option loc) with
  | Some a, Some b => Pos.eqb a b
  | _, _ => false
  end.

(** The assignment changes the object in place: every path that holds
    it shows the change. *)
Definition mark_in_place (alias : gmap string loc) (p : string)
    (m : gmap string descriptor) : gmap string descriptor :=
  map_imap (fun q d => Some (if shares alias p q then mark_excluded d else d)) m.

(** One round of the loop: the schema and the sharing afterwards; the
    object a new path gets is shared with no other path. *)
Definition exclude_one (alias : gmap string loc) (s : schema) (p : string)
  : result (schema * gmap string loc) :=
  match paths s !! p with
  | None =>
      match path_set p excluded_descriptor s with
      | Ok s' => Ok (s', base.delete p alias)
      | Throw m => Throw m
      end
  | Some _ => Ok (set_paths s (mark_in_place alias p (paths s)), alias)
  end.

(** [Model.excludeFromIndexes(properties)], for the array that [arrify]
    makes of the argument: the schema and the sharing after the call,
    and the message of the error thrown, if any; what was marked before
    the throw stays. *)
Fixpoint excludeFromIndexes (alias : gmap string loc) (properties : list string)
    (s : schema) : schema * gmap string loc * option string :=
  match properties with
  | [] => (s, alias, None)
  | p :: r =>
      match exclude_one alias s p with
      | Ok (s', alias') => excludeFromIndexes alias' r s'
      | Throw m => (s, alias, Some m)
      end
  end.

(** *** Reference notions used to state the properties *)

(** What a path listed in a call of [excludeFromIndexes] holds after it. *)
Definition marked (s : schema) (p : string) : descriptor :=
  match paths s !! p with
  | Some d => mark_excluded d
  | None => excluded_descriptor
  end.

(** The numeral of a whole number: decimal digits after an optional
    sign; and the number it denotes. *)
Definition whole_numeral (s : string) : bool :=
  match take_digits (snd (strip_sign s)) with
  | (String _ _, EmptyString) => true
  | _ => false
  end.

Definition numeral_value (s : string) : Z :=
  let '(neg, body) := strip_sign s in
  if neg then - digits_value body else digits_value body.

(** [String(n)], the printer the scenarios pass for the parameter
    [Number_toString]. *)
Definition Number_toString_int (n : number) : string := number_to_string n.

#[global] Instance number_eq_dec : EqDecision number.
Proof. solve_decision. Defined.

#[global] Instance ident_eq_dec : EqDecision ident.
Proof. solve_decision. Defined.

#[global] Instance Key_eq_dec : EqDecision Key.
Proof. solve_decision. Defined.

(** The position of a key among the requested keys (their number when
    it is not among them). *)
Fixpoint request_position (requested : list Key) (k : option Key) : nat :=
  match requested with
  | [] => O
  | r :: rest =>
      if bool_decide (k = Some r) then O else S (request_position rest k)
  end.

(** The entities appear in the order in which their keys were
    requested. *)
Fixpoint in_request_order (requested : list Key) (es : list instance) : bool :=
  match es with
  | [] => true
  | a :: rest =>
      forallb (fun b => (request_position requested (entityKey a)
                         <=? request_position requested (entityKey b))%nat) rest
      && in_request_order requested rest
  end.

(** The calls of the backend's delete in a trace, and the number of
    times a function ran as a hook. *)
Definition backend_deletes (tr : list del_event) : list keyres :=
  omap (fun e => match e with DDelete k => Some k | _ => None end) tr.

Definition hook_runs (fn : nat) (tr : list del_event) : nat :=
  length (List.filter (fun e => match e with
                                | DPre f _ | DPost f _ => Nat.eqb f fn
                                | _ => false
                                end) tr).

(** The deletes handed to a transaction, and the events that are runs of
    a pre or of a post function. *)
Definition transaction_deletes (tr : list del_event) : list keyres :=
  omap (fun e => match e with DTransactionDelete k => Some k | _ => None end) tr.

Definition is_pre (e : del_event) : bool :=
  match e with DPre _ _ => true | _ => false end.

Definition is_post (e : del_event) : bool :=
  match e with DPost _ _ => true | _ => false end.

Definition occurrences (fn : nat) (fns : list nat) : nat :=
  length (List.filter (fun f => Nat.eqb f fn) fns).

(** The trace of one hooked delete that nothing stops: the pre functions,
    the backend call, the post functions. *)
Definition hooked_delete_trace (pre_fns post_fns : list nat) (k : Key) : list del_event :=
  (map (fun f => DPre f (Some (OneKey k))) pre_fns
   ++ DDelete (OneKey k) :: map (fun f => DPost f (OneKey k)) post_fns)%list.

(** The rank of an entity in a request: where [entityKey.id] stands in
    the array of identifiers, or -1. *)
Definition id_rank (ids : list ident) (a : instance) : Z :=
  indexOf (map value_of_ident ids) (entityKey_id a).

(** What the loop makes of the entry of one key. *)
Definition sanitized_entry (s : schema) (k : string) (e : option value) : option value :=
  match e with
  | Some v =>
      if not_writable s k then None
      else Some (if strict_eq v (VStr "null") then VNull else v)
  | None => None
  end.

(** An entry that is not a [Required] error. *)
Definition not_required (o : option verror) : Prop :=
  forall msg, o <> Some (ValidatorError (Some "Required") msg).

(** The entries [sanitize] keeps, in their order. *)
Definition sanitized (s : schema) (ps : list (string * value)) : list (string * value) :=
  omap (fun p => if not_writable s p.1 then None
                 else Some (p.1, if strict_eq p.2 (VStr "null") then VNull else p.2)) ps.

(** A value conforms to a descriptor: it is there when required, of the
    declared type unless empty, passes the named validator unless falsy,
    and is among the preset values unless it is the empty string. *)
Definition conforms (Value_toString : store -> value -> string)
    (moment_isValid : string -> bool) (validator : string -> value -> bool)
    (st : store) (d : descriptor) (v : value) : Prop :=
  let trimmed := match v with VStr x => VStr (trim x) | _ => v end in
  (d_required d = Some (VBool true) -> valueIsEmpty v = false)
  /\ (forall ty, d_type d = Some ty -> valueIsEmpty v = false ->
        if String.eqb ty "datetime"
        then datetime_invalid moment_isValid st trimmed = false
        else typeValid Value_toString st ty trimmed = true)
  /\ (forall rule, d_validate d = Some rule -> truthy v = true -> validator rule v = true)
  /\ (forall allowed, d_values d = Some allowed -> strict_eq v (VStr "") = false ->
        0 <= indexOf allowed v).

(** An entry of the entity data is accepted: its key is a virtual, or a
    declared path to whose descriptor the value conforms, or undeclared
    in a schema that is explicitly open. *)
Definition entry_accepted (Value_toString : store -> value -> string)
    (moment_isValid : string -> bool) (validator : string -> value -> bool)
    (s : schema) (st : store) (k : string) (v : value) : Prop :=
  is_Some (virtuals s !! k)
  \/ match paths s !! k with
     | Some d => conforms Value_toString moment_isValid validator st d v
     | None => explicitOnly (s_options s) = Some false
     end.

(** The calls of a finder that build and run its query. *)
Definition is_hook_run (e : find_event) : bool :=
  match e with FPre _ | FPost _ => true | _ => false end.

Definition is_post_run (e : find_event) : bool :=
  match e with FPost _ => true | _ => false end.

Definition query_calls (tr : list find_event) : list find_event :=
  List.filter (fun e => negb (is_hook_run e)) tr.

(** The key [k] is the first that [Object.keys] lists for a table: the
    least array index among its keys, or, when no key is an array index,
    the key created first. *)
Definition leads {V : Type} (k : string) (ps : list (string * V)) : Prop :=
  match array_index k with
  | Some n => forall k' n', k' ∈ keys ps -> array_index k' = Some n' -> n <= n'
  | None => (forall k', k' ∈ keys ps -> array_index k' = None) /\ head (keys ps) = Some k
  end.

(** Events of [update] told apart. *)
Definition is_rollback (e : event) : bool :=
  match e with EvRollback => true | _ => false end.

Definition is_save (e : event) : bool :=
  match e with EvModelSave _ _ _ _ => true | _ => false end.

Definition is_run (e : event) : bool :=
  match e with EvRun => true | _ => false end.

Definition is_commit (e : event) : bool :=
  match e with EvCommit => true | _ => false end.

End Model.

(** ** Scenarios *)

Module Scenarios.
Import JS Datastore Heap Schema Model.

(** Two entities of kind [User] with the key names [a] and [b], and the
    array in which the backend returns them, [a] first. *)
Definition key_a : Key := ds_key [IdStr "User"; IdStr "a"].
Definition key_b : Key := ds_key [IdStr "User"; IdStr "b"].

Definition user_a : object :=
  mkObject CObject "Object" [("name", VStr "Ann")] (Some key_a).
Definition user_b : object :=
  mkObject CObject "Object" [("name", VStr "Bob")] (Some key_b).

Definition users_array : object :=
  mkObject CArray "Array" [("0", VRef 2%positive); ("1", VRef 3%positive)] None.

Definition users_store : store :=
  <[1%positive := users_array]> (<[2%positive := user_a]> (<[3%positive := user_b]> ∅)).

(** The same two entities under the numeric identifiers 1 and 2. *)
Definition key_1 : Key := ds_key [IdStr "User"; IdNum (Whole 1)].
Definition key_2 : Key := ds_key [IdStr "User"; IdNum (Whole 2)].

Definition numbered_store : store :=
  <[1%positive := users_array]>
    (<[2%positive := mkObject CObject "Object" [("name", VStr "Ann")] (Some key_1)]>
       (<[3%positive := mkObject CObject "Object" [("name", VStr "Bob")] (Some key_2)]> ∅)).

(** An update of the entity under the identifier 5: the store holds the
    fetched entity [{y: 2}] and the caller's new data [{x: 1}]. *)
Definition key_5 : Key := ds_key [IdStr "User"; IdNum (Whole 5)].

Definition fetched_5 : object :=
  mkObject CObject "Object" [("y", VNum (Whole 2))] (Some key_5).

Definition new_data : object :=
  mkObject CObject "Object" [("x", VNum (Whole 1))] None.

Definition update_store : store :=
  <[2%positive := fetched_5]>
    (<[4%positive := new_data]>
       (<[9%positive := mkObject CArray "Array" [] None]> ∅)).

(** A transaction that finds the entity, and one that finds nothing;
    [settled] is what [commit()] and [rollback()] resolve to. *)
Definition transaction_found (settled : value) : Transaction :=
  mkTransaction "Transaction" (Resolved VUndefined) (Resolved [VRef 2%positive])
    (Resolved settled) (Resolved settled).

Definition transaction_missing (settled : value) : Transaction :=
  mkTransaction "Transaction" (Resolved VUndefined) (Resolved [])
    (Resolved settled) (Resolved settled).

(** The array a client resolves the promises of its calls with, here
    the empty one of the store. *)
Definition api_response : value := VRef 9%positive.

(** A transaction whose lookup fails with [reason], and one that finds
    the entity while the save under it is to fail. *)
Definition transaction_failing (reason : value) : Transaction :=
  mkTransaction "Transaction" (Resolved VUndefined) (Rejected reason)
    (Resolved VUndefined) (Resolved VUndefined).

Definition save_fails (k : option keyres) (data : value)
    (t : option Transaction) (st : store) : promise (value * value) :=
  Rejected (VStr "invalid").

(** An entity save that succeeds, resolving to the entity and no info. *)
Definition save_succeeds (k : option keyres) (data : value)
    (t : option Transaction) (st : store) : promise (value * value) :=
  Resolved (data, VUndefined).

(** A model with one pre function for [delete], which vetoes every
    deletion, and a backend that would delete whatever it is asked to. *)
Definition veto_hooks : hooks := mkHooks {["delete" := [O]]} ∅.

Definition veto (fn : nat) (context : option keyres) : option errv :=
  Some (Foreign (VStr "veto")).

Definition post_ok (fn : nat) (k : keyres) : option errv := None.

Definition ds_delete_ok (k : keyres) : errv + option Z := inr (Some 1).

(** A model with a pre and a post function for [delete] that both
    succeed. *)
Definition audit_hooks : hooks := mkHooks {["delete" := [O]]} {["delete" := [1%nat]]}.

Definition pre_ok (fn : nat) (context : option keyres) : option errv := None.

Definition two_users : list fetched :=
  [mkFetched key_a (VRef 2%positive); mkFetched key_b (VRef 3%positive)].

(** A schema with the one path [name], required; an entity whose [name]
    is blank; and the same with a set of allowed values and a [name]
    that is [null]. *)
Definition schema_with (d : descriptor) : schema :=
  mkSchema {["name" := d]} ∅ ∅ ∅ ∅ (mkCallQueues ∅ ∅) (mkOptions true None false).

Definition required_name : descriptor :=
  mkDescriptor (Some "string") (Some (VBool true)) None None None None None None None.

Definition required_name_of (allowed : list value) : descriptor :=
  mkDescriptor (Some "string") (Some (VBool true)) None (Some allowed) None None None None None.

Definition entity_of (d : descriptor) : entity :=
  mkEntity (schema_with d) 1%positive None [].

Definition data_store (v : value) : store :=
  {[1%positive := mkObject CObject "Object" [("name", v)] None]}.

(** Stand-ins for the packages the validation calls. *)
Definition no_text (st : store) (v : value) : string := "".
Definition any_date (s : string) : bool := true.
Definition accepts_all (rule : string) (v : value) : bool := true.

(** A schema with the paths [name] and [email], and hooks registered
    on it after its construction. *)
Definition two_paths : list (string * descriptor) :=
  [("name", required_name); ("email", empty_descriptor)].

Definition indexed_schema : schema :=
  mkSchema {["name" := required_name; "email" := empty_descriptor]} ∅ ∅ ∅ ∅
           (mkCallQueues ∅ ∅) (mkOptions true None false).

(** A model with two functions registered before [findOne], the first
    of which fails, and one after it. *)
Definition find_hooks : hooks :=
  mkHooks {["findOne" := [O; 1%nat]]} {["findOne" := [2%nat]]}.

Definition first_fails (fn : nat) : option errv :=
  match fn with O => Some (Foreign (VStr "failed")) | _ => None end.

(** An object as a caller hands it to [sanitize]. *)
Definition raw_user : object :=
  mkObject CObject "Object"
    [("admin", VBool true); ("name", VStr "null"); ("email", VStr "ann@example.org")] None.

Definition raw_store : store := {[1%positive := raw_user]}.

(** A schema whose paths [first] and [last] were declared with one and
    the same descriptor object. *)
Definition shared_schema : schema :=
  mkSchema {["first" := required_name; "last" := required_name;
             "email" := empty_descriptor]} ∅ ∅ ∅ ∅
           (mkCallQueues ∅ ∅) (mkOptions true None false).

Definition shared_alias : gmap string loc :=
  {["first" := 1%positive; "last" := 1%positive]}.

(** A schema whose paths are named by numbers: [1] is a date and [2] is
    required; and an entity whose [1] is no date and whose [2] is
    missing. *)
Definition numbered_schema : schema :=
  mkSchema {["1" := mkDescriptor (Some "datetime") None None None None None None None None;
             "2" := required_name]} ∅ ∅ ∅ ∅
           (mkCallQueues ∅ ∅) (mkOptions true None false).

Definition numbered_entity : entity := mkEntity numbered_schema 1%positive None [].

Definition numbered_data : store :=
  {[1%positive := mkObject CObject "Object" [("1", VStr "soon"); ("2", VNull)] None]}.

Definition some_registrations : list registration :=
  [RegPre "save" (UserFn 1); RegPost "delete" (UserFn 2); RegPre "save" (UserFn 3)].

End Scenarios.

(** * Properties *)

(** ** The schema registry *)

Module SchemaFacts.
Import JS Datastore Heap Schema.

Lemma mem_string_elem k l : mem_string k l = true <-> k ∈ l.
Proof.
  unfold mem_string. rewrite existsb_exists. split.
  - intros (x & Hx & Heq). apply String.eqb_eq in Heq. subst x.
    by apply list_elem_of_In.
  - intros H. exists k. split; [by apply list_elem_of_In | apply String.eqb_refl].
Qed.

Lemma reserved_iff k :
  reserved k = true <-> k ∈ reserved_names \/ k ∈ Object_prototype_names.
Proof.
  unfold reserved. rewrite orb_true_iff, !mem_string_elem. tauto.
Qed.

Lemma reserved_false_iff k :
  reserved k = false <-> ~ (k ∈ reserved_names \/ k ∈ Object_prototype_names).
Proof.
  rewrite <- reserved_iff. destruct (reserved k); naive_solver.
Qed.

(** The loop throws exactly when it meets a reserved name. *)
Lemma declare_paths_throws obj acc :
  (exists m, declare_paths obj acc = Throw m)
  <-> exists k, k ∈ obj.*1 /\ reserved k = true.
Proof.
  revert acc. induction obj as [| [k d] r IH]; intros acc; simpl.
  - split; [intros [m Hm]; discriminate | intros (k & Hk & _); inversion Hk].
  - destruct (reserved k) eqn:Hr.
    + split; [intros _; exists k; split; [left | done] | intros _; eauto].
    + rewrite IH. split.
      * intros (k' & Hk' & Hr'). exists k'. split; [by right | done].
      * intros (k' & Hk' & Hr'). apply elem_of_cons in Hk' as [-> | Hk'].
        -- congruence.
        -- eauto.
Qed.

(** When the loop ends normally, the table holds what was declared. *)
Lemma declare_paths_ok obj acc p :
  declare_paths obj acc = Ok p ->
  forall k,
    (k ∉ obj.*1 -> p !! k = acc !! k)
    /\ (forall d, (k, d) ∈ obj -> (forall d', (k, d') ∈ obj -> d' = d) -> p !! k = Some d).
Proof.
  revert acc. induction obj as [| [k0 d0] r IH]; intros acc Hp k; simpl in *.
  - injection Hp as <-. split; [done | intros d Hd; inversion Hd].
  - destruct (reserved k0); [discriminate |].
    specialize (IH _ Hp k) as [IHnot IHin]. split.
    + intros Hk. rewrite IHnot by (intros ?; apply Hk; by right).
      apply lookup_insert_ne. intros ->. apply Hk. by left.
    + intros d Hd Huniq.
      destruct (decide (k ∈ r.*1)) as [Hin | Hnin].
      * apply list_elem_of_fmap in Hin as ([k' d'] & Hk' & Hin). simpl in Hk'. subst k'.
        assert (d' = d) as -> by (apply Huniq; by right).
        apply IHin; [done |]. intros d'' Hd''. apply Huniq. by right.
      * rewrite IHnot by done.
        apply elem_of_cons in Hd as [Heq | Hd].
        -- injection Heq as -> ->. apply lookup_insert_eq.
        -- exfalso. apply Hnin. apply list_elem_of_fmap. by exists (k, d).
Qed.

Lemma paths_pre hook fn s s' : pre hook fn s = Ok s' -> paths s' = paths s.
Proof.
  unfold pre. destruct (IS_ENTITY_HOOK hook).
  - destruct (shadowed _); [done |]. by intros [= <-].
  - destruct (shadowed _); [done |]. by intros [= <-].
Qed.

(** The registration of the default middleware on the new schema. *)
Lemma pre_save_new p o :
  pre "save" ValidateBeforeSave (mkSchema p ∅ ∅ ∅ ∅ (mkCallQueues ∅ ∅) o)
  = Ok (mkSchema p ∅ ∅ ∅ ∅
          (mkCallQueues ∅ {["save" := mkQueue [ValidateBeforeSave] []]}) o).
Proof. reflexivity. Qed.

Lemma constructor_throws obj opts :
  (exists m, constructor obj opts = Throw m)
  <-> exists k, k ∈ obj.*1 /\ reserved k = true.
Proof.
  rewrite <- (declare_paths_throws obj ∅). unfold constructor.
  destruct (declare_paths obj ∅) as [p | m]; cbv zeta; rewrite ?pre_save_new;
    split; intros [m' H]; try discriminate; eauto.
Qed.

(** C7, as the claim states it, fails: a field named [toString] is not in
    the reserved table, and the constructor throws on it all the same. *)
Lemma reserved_set_only_fails :
  (exists m, constructor [("toString", empty_descriptor)] None = Throw m)
  /\ ~ (exists k, k ∈ [("toString", empty_descriptor)].*1 /\ k ∈ reserved_names).
Proof.
  split; [eexists; reflexivity |].
  intros (k & Hk & Hres).
  apply list_elem_of_singleton in Hk. simpl in Hk. subst k.
  apply mem_string_elem in Hres. vm_compute in Hres. discriminate.
Qed.

(** C7 (amended): construction throws exactly when some declared field
    name is rejected by the lookup in the reserved table, that is, when
    it is listed there or is a member of [Object.prototype]; otherwise the
    schema is built and every descriptor is stored verbatim under its
    name.  Setting a single path rejects the same names and otherwise
    stores the descriptor. *)
Theorem schema_rejects_reserved_names (obj : list (string * descriptor))
    (opts : option options) :
  ((exists m, constructor obj opts = Throw m)
   <-> exists k, k ∈ obj.*1 /\ (k ∈ reserved_names \/ k ∈ Object_prototype_names))
  /\ ((forall k, k ∈ obj.*1 -> ~ (k ∈ reserved_names \/ k ∈ Object_prototype_names)) ->
      exists s, constructor obj opts = Ok s
        /\ forall k,
             (k ∉ obj.*1 -> paths s !! k = None)
             /\ (forall d, (k, d) ∈ obj -> (forall d', (k, d') ∈ obj -> d' = d) ->
                 paths s !! k = Some d))
  /\ (forall s name d,
        ((exists m, path_set name d s = Throw m)
         <-> (name ∈ reserved_names \/ name ∈ Object_prototype_names))
        /\ (~ (name ∈ reserved_names \/ name ∈ Object_prototype_names) ->
            exists s', path_set name d s = Ok s'
              /\ paths s' = <[name := d]> (paths s)
              /\ virtuals s' = virtuals s)).
Proof.
  split; [| split].
  - rewrite constructor_throws. split; intros (k & Hk & Hr); exists k; split; try done;
      by apply reserved_iff.
  - intros Hnone. unfold constructor.
    destruct (declare_paths obj ∅) as [p | m] eqn:Hd.
    + cbv zeta. rewrite pre_save_new.
      eexists. split; [reflexivity |]. intros k. simpl.
      destruct (declare_paths_ok _ _ _ Hd k) as [Hnot Hin]. split; [| done].
      intros Hk. rewrite Hnot by done. apply lookup_empty.
    + exfalso. destruct (proj1 (declare_paths_throws obj ∅)) as (k & Hk & Hr); [eauto |].
      apply (Hnone k Hk). by apply reserved_iff.
  - intros s name d. unfold path_set. destruct (reserved name) eqn:Hr.
    + apply reserved_iff in Hr. split; [split; eauto | intros Hn; by destruct Hn].
    + apply reserved_false_iff in Hr. split.
      * split; [intros [m Hm]; discriminate | intros Hn; by destruct Hr].
      * intros _. eexists. split; [reflexivity | done].
Qed.

Lemma virtual_declared name s st h :
  shadowed (virtuals s) = false -> own (virtuals s) name = Some h ->
  virtual name s st = Ok (h, s, st).
Proof. intros Hs Ho. unfold virtual. by rewrite Hs, Ho. Qed.

Lemma virtual_new name s st :
  shadowed (virtuals s) = false -> own (virtuals s) name = None ->
  virtual name s st
  = Ok (fresh (dom st), set_virtuals s (assign name (fresh (dom st)) (virtuals s)),
        <[fresh (dom st) := VirtualType name]> st).
Proof. intros Hs Ho. unfold virtual, alloc. by rewrite Hs, Ho. Qed.

Lemma shadowed_false {A : Type} (m : gmap string A) :
  shadowed m = false <-> m !! "hasOwnProperty" = None.
Proof.
  unfold shadowed. rewrite bool_decide_eq_false. by rewrite eq_None_not_Some.
Qed.

Lemma own_ordinary {A : Type} (m : gmap string A) k : k <> "__proto__" -> own m k = m !! k.
Proof.
  intros Hk. unfold own. by destruct (String.eqb_spec k "__proto__").
Qed.

Lemma assign_ordinary {A : Type} (m : gmap string A) k v :
  k <> "__proto__" -> assign k v m = <[k := v]> m.
Proof.
  intros Hk. unfold assign. by destruct (String.eqb_spec k "__proto__").
Qed.

Lemma fresh_absent (st : store) : st !! fresh (dom st) = None.
Proof. apply not_elem_of_dom, is_fresh. Qed.

(** C8 fails on the code.  The table of virtuals is a plain object
    tested with its own [hasOwnProperty]: under the name [__proto__] the
    assignment replaces the prototype of the table and creates no
    property, so that every declaration allocates a new handle and two
    declarations return two different objects; and once a virtual named
    [hasOwnProperty] is declared, every later declaration, of whatever
    name, throws.  For every other name, on a schema without a virtual
    named [hasOwnProperty], the declaration is idempotent as claimed:
    the same handle, nothing changed the second time, and one object
    allocated by the first declaration of a name not yet declared. *)
Theorem virtual_not_idempotent_under_inherited_names :
  (forall s st, virtuals s !! "hasOwnProperty" = None ->
     exists h1 s1 st1 h2 s2 st2,
       virtual "__proto__" s st = Ok (h1, s1, st1)
       /\ virtual "__proto__" s1 st1 = Ok (h2, s2, st2)
       /\ h1 <> h2
       /\ size st2 = S (S (size st)))
  /\ (forall s st name, virtuals s !! "hasOwnProperty" = None ->
        exists h s1 st1,
          virtual "hasOwnProperty" s st = Ok (h, s1, st1)
          /\ virtual name s1 st1 = Throw "TypeError")
  /\ (forall name s st,
        virtuals s !! "hasOwnProperty" = None ->
        name <> "__proto__" -> name <> "hasOwnProperty" ->
        exists h s1 st1,
          virtual name s st = Ok (h, s1, st1)
          /\ virtual name s1 st1 = Ok (h, s1, st1)
          /\ virtuals s1 !! name = Some h
          /\ (virtuals s !! name = None ->
              st !! h = None
              /\ st1 = <[h := VirtualType name]> st
              /\ virtuals s1 = <[name := h]> (virtuals s)
              /\ size st1 = S (size st))
          /\ (is_Some (virtuals s !! name) -> s1 = s /\ st1 = st)).
Proof.
  split; [| split].
  - intros s st Hs. apply shadowed_false in Hs.
    rewrite (virtual_new "__proto__" s st Hs eq_refl).
    do 6 eexists. split; [reflexivity |].
    rewrite virtual_new by done. split; [reflexivity |].
    pose proof (fresh_absent st) as H1.
    pose proof (fresh_absent (<[fresh (dom st) := VirtualType "__proto__"]> st)) as H2.
    split.
    + intros Heq. rewrite <- Heq, lookup_insert_eq in H2. discriminate.
    + by rewrite !map_size_insert_None.
  - intros s st name Hs. pose proof Hs as Hs'. apply shadowed_false in Hs'.
    rewrite (virtual_new "hasOwnProperty" s st Hs') by (by rewrite own_ordinary).
    do 3 eexists. split; [reflexivity |].
    unfold virtual, shadowed. simpl. rewrite assign_ordinary by done.
    rewrite lookup_insert_eq. by rewrite bool_decide_eq_true_2.
  - intros name s st Hs Hp Hh. pose proof Hs as Hs'. apply shadowed_false in Hs'.
    destruct (virtuals s !! name) as [h |] eqn:Hv.
    + rewrite (virtual_declared name s st h) by (by rewrite ?own_ordinary).
      do 3 eexists. split; [reflexivity |].
      rewrite (virtual_declared name s st h) by (by rewrite ?own_ordinary).
      repeat split; done.
    + rewrite (virtual_new name s st) by (by rewrite ?own_ordinary).
      rewrite assign_ordinary by done.
      do 3 eexists. split; [reflexivity |].
      rewrite (virtual_declared name _ _ (fresh (dom st))).
      * split; [reflexivity |].
        pose proof (fresh_absent st) as Hf. simpl. rewrite lookup_insert_eq.
        repeat split; try done.
        by apply map_size_insert_None.
      * apply shadowed_false. simpl. by rewrite lookup_insert_ne.
      * rewrite own_ordinary by done. simpl. apply lookup_insert_eq.
Qed.

End SchemaFacts.

(** ** Numerals *)

Module JSFacts.
Import JS.

Ltac by_ascii c :=
  destruct c as [[|] [|] [|] [|] [|] [|] [|] [|]];
  try (vm_compute in *; congruence); try reflexivity.

Lemma append_empty_r (s : string) : (s ++ "")%string = s.
Proof. induction s as [| c r IH]; [reflexivity |]. change (String c (r ++ "") = String c r). by rewrite IH. Qed.

Lemma digit_not_ws c : is_digit c = true -> is_ws c = false.
Proof. intros H. by_ascii c. Qed.

Lemma take_digits_spec s d t :
  take_digits s = (d, t) -> s = (d ++ t)%string /\ all_digits d = true.
Proof.
  revert d t. induction s as [| c r IH]; intros d t H; simpl in H.
  - injection H as <- <-. done.
  - destruct (is_digit c) eqn:Hc.
    + destruct (take_digits r) as [d' t'] eqn:Hr. injection H as <- <-.
      destruct (IH _ _ eq_refl) as [-> Hd]. simpl. by rewrite Hc, Hd.
    + injection H as <- <-. done.
Qed.

Lemma take_digits_all s : all_digits s = true -> take_digits s = (s, EmptyString).
Proof.
  induction s as [| c r IH]; simpl; [done |].
  intros [Hc Hr]%andb_true_iff. by rewrite Hc, (IH Hr).
Qed.

Lemma digit_val_range c : is_digit c = true -> 0 <= digit_val c <= 9.
Proof. intros H. by_ascii c; vm_compute; split; discriminate. Qed.

Lemma digits_value_from_nonneg s acc :
  all_digits s = true -> 0 <= acc -> 0 <= digits_value_from acc s.
Proof.
  revert acc. induction s as [| c r IH]; intros acc Hs Hacc; simpl; [done |].
  simpl in Hs. apply andb_true_iff in Hs as [Hc Hr].
  apply IH; [done |]. pose proof (digit_val_range c Hc). lia.
Qed.

Lemma digits_value_nonneg s : all_digits s = true -> 0 <= digits_value s.
Proof. intros H. by apply digits_value_from_nonneg. Qed.

Lemma trim_start_digit c r : is_ws c = false -> trim_start (String c r) = String c r.
Proof. intros H. simpl. by rewrite H. Qed.

Lemma trim_end_digits s : all_digits s = true -> trim_end s = s.
Proof.
  induction s as [| c r IH]; simpl; [done |].
  intros [Hc Hr]%andb_true_iff. rewrite (digit_not_ws c Hc). simpl. by rewrite IH.
Qed.

Lemma round_double_small z : Z.abs z < 2 ^ 53 -> round_double z = Whole z.
Proof.
  intros H. unfold round_double.
  destruct (Z.ltb_spec (Z.abs z) (2 ^ 53)); [done | lia].
Qed.

Lemma small_below_threshold z : z < 2 ^ 53 -> (z <? overflow_threshold) = true.
Proof.
  intros H. apply Z.ltb_lt. eapply Z.lt_trans; [exact H |]. vm_compute. reflexivity.
Qed.

Lemma strip_sign_digit c r : is_digit c = true -> strip_sign (String c r) = (false, String c r).
Proof. intros H. by_ascii c. Qed.

Lemma prefixed_literal_digits s : all_digits s = true -> prefixed_literal s = None.
Proof.
  intros H. destruct s as [| a [| c [| d r]]];
    [reflexivity | by_ascii a | by_ascii a |].
  simpl in H. apply andb_true_iff in H as [_ H]. apply andb_true_iff in H as [Hc _].
  unfold prefixed_literal.
  by_ascii c; by_ascii a.
Qed.

(** A run of digits is a decimal literal with exponent zero. *)
Lemma decimal_literal_digits c r :
  all_digits (String c r) = true ->
  decimal_literal (String c r) = Some (digits_value (String c r), 0).
Proof.
  intros H. unfold decimal_literal. rewrite (take_digits_all _ H).
  simpl exponent_part. cbv iota beta. rewrite append_empty_r. reflexivity.
Qed.

(** [String(n)] on the forms of its output: plain numerals, the digits
    a double of magnitude above [2^53] is printed with, the exponent
    notation from [10^21] on and below [10^-6], and fractions; and
    [parseInt] reading a numeral with an exponent up to the [e]. *)
Lemma number_to_string_forms :
  number_to_string (Whole 5) = "5"
  /\ number_to_string (Whole (-42)) = "-42"
  /\ number_to_string (Whole (2 ^ 60)) = "1152921504606847000"
  /\ number_to_string (Whole (10 ^ 21)) = "1e+21"
  /\ number_to_string (Whole (15 * 10 ^ 20)) = "1.5e+21"
  /\ number_to_string (Frac 3 2) = "1.5"
  /\ number_to_string (Frac 1 10) = "0.1"
  /\ number_to_string (Frac 1 10000000) = "1e-7"
  /\ number_to_string (Frac (-123456) 1000) = "-123.456"
  /\ parseInt10 (number_to_string (Whole (10 ^ 21))) = Whole 1.
Proof. repeat split; vm_compute; reflexivity. Qed.

End JSFacts.

(** ** The model *)

Module ModelFacts.
Import JS Datastore Heap Schema Model JSFacts.

(** *** Identifiers and keys *)

Lemma whole_numeral_body s :
  whole_numeral s = true ->
  exists c r, snd (strip_sign s) = String c r /\ all_digits (String c r) = true.
Proof.
  unfold whole_numeral. destruct (take_digits (snd (strip_sign s))) as [d t] eqn:Ht.
  destruct d as [| c r]; [discriminate |]. destruct t; [| discriminate]. intros _.
  apply take_digits_spec in Ht as [Hs Hd]. rewrite append_empty_r in Hs. eauto.
Qed.

Lemma strip_sign_cases s :
  (exists r, s = String "-" r /\ strip_sign s = (true, r))
  \/ (exists r, s = String "+" r /\ strip_sign s = (false, r))
  \/ strip_sign s = (false, s).
Proof.
  destruct s as [| c r]; [by right; right |].
  destruct c as [[|] [|] [|] [|] [|] [|] [|] [|]];
    first [ by right; right | by left; eexists | by right; left; eexists ].
Qed.

Lemma digits_finite c r :
  all_digits (String c r) = true -> digits_value (String c r) < 2 ^ 53 ->
  decimal_finite (digits_value (String c r)) 0 = true.
Proof.
  intros Hd Hv. unfold decimal_finite. simpl (0 <=? 0).
  cbv iota. rewrite Z.pow_0_r, Z.mul_1_r. by apply small_below_threshold.
Qed.

(** A whole numeral below [2^53] in magnitude is numeric-looking, and
    [parseInt] reads the number it denotes. *)
Lemma whole_numeral_finite s :
  whole_numeral s = true -> Z.abs (numeral_value s) < 2 ^ 53 ->
  isFinite_string s = true /\ parseInt10 s = Whole (numeral_value s).
Proof.
  intros Hw Hv. destruct (whole_numeral_body s Hw) as (c & r & Hbody & Hd).
  pose proof (digits_value_nonneg _ Hd) as Hnn.
  assert (is_digit c = true) as Hc by (simpl in Hd; by apply andb_true_iff in Hd as [? _]).
  unfold numeral_value in Hv |- *.
  destruct (strip_sign_cases s) as [(b & -> & Hs) | [(b & -> & Hs) | Hs]];
    rewrite Hs in Hbody, Hv |- *; simpl in Hbody; subst.
  - assert (trim (String "-" (String c r)) = String "-" (String c r)) as Ht.
    { unfold trim. simpl trim_start. simpl. rewrite (digit_not_ws c Hc). simpl.
      f_equal. f_equal. simpl in Hd. apply andb_true_iff in Hd as [_ Hr].
      by apply trim_end_digits. }
    split.
    + unfold isFinite_string. rewrite Ht. simpl prefixed_literal. cbv iota beta.
      simpl strip_sign. cbv iota beta.
      rewrite (decimal_literal_digits c r Hd). apply digits_finite; [done | lia].
    + unfold parseInt10. simpl trim_start. simpl strip_sign. cbv iota beta.
      rewrite (take_digits_all _ Hd). apply round_double_small. lia.
  - assert (trim (String "+" (String c r)) = String "+" (String c r)) as Ht.
    { unfold trim. simpl trim_start. simpl. rewrite (digit_not_ws c Hc). simpl.
      f_equal. f_equal. simpl in Hd. apply andb_true_iff in Hd as [_ Hr].
      by apply trim_end_digits. }
    split.
    + unfold isFinite_string. rewrite Ht. simpl prefixed_literal. cbv iota beta.
      simpl strip_sign. cbv iota beta.
      rewrite (decimal_literal_digits c r Hd). apply digits_finite; [done | lia].
    + unfold parseInt10. simpl trim_start. simpl strip_sign. cbv iota beta.
      rewrite (take_digits_all _ Hd). apply round_double_small. lia.
  - assert (trim (String c r) = String c r) as Ht.
    { unfold trim. rewrite (trim_start_digit c r (digit_not_ws c Hc)).
      by apply trim_end_digits. }
    split.
    + unfold isFinite_string. rewrite Ht, (prefixed_literal_digits _ Hd), Hs.
      rewrite (decimal_literal_digits c r Hd). apply digits_finite; [done | lia].
    + unfold parseInt10. rewrite (trim_start_digit c r (digit_not_ws c Hc)), Hs.
      rewrite (take_digits_all _ Hd). apply round_double_small. lia.
Qed.

(** C4, as the claim states it, fails: ["1.5"] is not the numeral of a
    whole number, yet it is not kept as a string identifier; the key gets
    the number 1. *)
Lemma other_strings_kept_fails :
  whole_numeral "1.5" = false
  /\ key Number_toString_int "Kind" (One (IdStr "1.5")) None None
     <> OneKey (ds_key [IdStr "Kind"; IdStr "1.5"])
  /\ key Number_toString_int "Kind" (One (IdStr "1.5")) None None
     = OneKey (ds_key [IdStr "Kind"; IdNum (Whole 1)]).
Proof. repeat split. vm_compute. discriminate. Qed.

(** C4 (amended): a string identifier is replaced by [parseInt(s, 10)]
    exactly when [isFinite] accepts it; for the numeral of a whole number
    of magnitude below [2^53] that is the equal numeric identifier, and a
    string [isFinite] rejects is kept verbatim.  An absent identifier
    ([undefined] or [null]) yields a partial key whose path is the
    ancestors' path followed by the kind alone. *)
Theorem key_identifier_coercion (toS : number -> string) (kind s : string)
    (ancestors : option (list ident)) (namespace : option string) :
  key toS kind (One (IdStr s)) ancestors namespace
  = OneKey (mkKey namespace
      (default [] ancestors
       ++ [IdStr kind; if isFinite_string s then IdNum (parseInt10 s) else IdStr s])%list)
  /\ (whole_numeral s = true -> Z.abs (numeral_value s) < 2 ^ 53 ->
      key toS kind (One (IdStr s)) ancestors namespace
      = OneKey (mkKey namespace
          (default [] ancestors ++ [IdStr kind; IdNum (Whole (numeral_value s))])%list))
  /\ (isFinite_string s = false ->
      key toS kind (One (IdStr s)) ancestors namespace
      = OneKey (mkKey namespace (default [] ancestors ++ [IdStr kind; IdStr s])%list))
  /\ key toS kind (One IdUndefined) ancestors namespace
     = OneKey (mkKey namespace (default [] ancestors ++ [IdStr kind])%list)
  /\ key toS kind (One IdNull) ancestors namespace
     = OneKey (mkKey namespace (default [] ancestors ++ [IdStr kind])%list).
Proof.
  assert (key toS kind (One (IdStr s)) ancestors namespace
          = OneKey (mkKey namespace
              (default [] ancestors
               ++ [IdStr kind; if isFinite_string s then IdNum (parseInt10 s) else IdStr s])%list))
    as Hgen.
  { unfold key, getKey, getPath, parseId_ident, parseId. simpl.
    destruct (isFinite_string s); destruct ancestors, namespace; reflexivity. }
  split; [exact Hgen |]. split; [| split; [| split]].
  - intros Hw Hv. rewrite Hgen.
    destruct (whole_numeral_finite s Hw Hv) as [-> ->]. reflexivity.
  - intros Hf. rewrite Hgen, Hf. reflexivity.
  - destruct ancestors, namespace; reflexivity.
  - destruct ancestors, namespace; reflexivity.
Qed.

(** *** Model.get *)

Section SortFacts.
Context {A : Type} (rank : A -> Z).

Local Abbreviation by_rank := (fun a b : A => rank a - rank b).
Local Abbreviation ranked := (fun a b : A => rank a <= rank b).

Lemma insert_sorted_perm x l : insert_sorted by_rank x l ≡ₚ x :: l.
Proof.
  induction l as [| y r IH]; simpl; [done |].
  destruct (0 <? rank y - rank x); [done |].
  rewrite IH. apply Permutation_swap.
Qed.

Lemma insert_sorted_sorted x l :
  StronglySorted ranked l -> StronglySorted ranked (insert_sorted by_rank x l).
Proof.
  induction l as [| y r IH]; intros Hs; simpl.
  - by repeat constructor.
  - apply StronglySorted_cons in Hs as [Hy Hr].
    destruct (Z.ltb_spec 0 (rank y - rank x)).
    + apply StronglySorted_cons. split; [| by apply StronglySorted_cons].
      constructor; [lia |]. eapply Forall_impl; [exact Hy |]. simpl. intros; lia.
    + apply StronglySorted_cons. split; [| by apply IH].
      rewrite insert_sorted_perm. constructor; [lia | done].
Qed.

Lemma sort_from_perm l acc :
  fold_left (fun acc x => insert_sorted by_rank x acc) l acc ≡ₚ acc ++ l.
Proof.
  revert acc. induction l as [| x r IH]; intros acc; simpl.
  - by rewrite app_nil_r.
  - rewrite IH, insert_sorted_perm. simpl. apply Permutation_middle.
Qed.

Lemma sort_from_sorted l acc :
  StronglySorted ranked acc ->
  StronglySorted ranked (fold_left (fun acc x => insert_sorted by_rank x acc) l acc).
Proof.
  revert acc. induction l as [| x r IH]; intros acc H; simpl; [done |].
  by apply IH, insert_sorted_sorted.
Qed.

(** The sort rearranges the array and leaves it in the order of the
    comparator. *)
Lemma sort_perm l : sort by_rank l ≡ₚ l.
Proof. unfold sort. by rewrite sort_from_perm. Qed.

Lemma sort_sorted l : StronglySorted ranked (sort by_rank l).
Proof. unfold sort. apply sort_from_sorted. constructor. Qed.

End SortFacts.

(** With [preserveOrder], a batch request that [parseId] leaves an array
    returns the fetched entities rearranged in the order of their ranks:
    entities whose numeric id is in the list, in the order of the list. *)
Lemma get_preserveOrder_sorted toS kind st ids anc ns arr rest items es :
  isFinite toS (Many ids) = false ->
  array_items st arr = Some items -> models_of_fetched st items = Some es ->
  exists out,
    get toS kind st (Many ids) anc ns None true (Resolved (arr :: rest))
    = CbOk (Multiple out)
    /\ out ≡ₚ es
    /\ StronglySorted (fun a b => id_rank ids a <= id_rank ids b) out.
Proof.
  intros Hf Hitems Hes. exists (sort (order_cmp ids) es).
  split; [| split].
  - unfold get, parseId. rewrite Hf. simpl. rewrite Hitems. simpl. by rewrite Hes.
  - apply (sort_perm (id_rank ids)).
  - apply (sort_sorted (id_rank ids)).
Qed.

(** Requested as the numbers [2, 1] and fetched as [1, 2], the two
    entities come back as [2, 1]. *)
Lemma get_preserveOrder_sorted_witness :
  isFinite Number_toString_int (Many [IdNum (Whole 2); IdNum (Whole 1)]) = false
  /\ get Number_toString_int "User" Scenarios.numbered_store
       (Many [IdNum (Whole 2); IdNum (Whole 1)]) None None None true
       (Resolved [VRef 1%positive])
     = CbOk (Multiple [mkInstance (Some Scenarios.key_2) (VRef 3%positive);
                       mkInstance (Some Scenarios.key_1) (VRef 2%positive)]).
Proof.
  split; [reflexivity |].
  destruct (get_preserveOrder_sorted Number_toString_int "User" Scenarios.numbered_store
              [IdNum (Whole 2); IdNum (Whole 1)] None None (VRef 1%positive) []
              [VRef 2%positive; VRef 3%positive]
              [mkInstance (Some Scenarios.key_1) (VRef 2%positive);
               mkInstance (Some Scenarios.key_2) (VRef 3%positive)]
              eq_refl eq_refl eq_refl) as (out & Hout & _ & _).
  rewrite Hout. vm_compute in Hout. injection Hout as <-. reflexivity.
Defined.

(** C6 fails on the code: with key names, [entityKey.id] is undefined for
    every entity, the comparator is constantly zero and the backend's
    order is returned.  Requested [b, a], returned by the backend as
    [a, b], the entities come back as [a, b]; the same happens when
    numeric identifiers are passed as strings, and a request for a single
    numeric identifier ends in a [TypeError]. *)
Theorem get_preserveOrder_by_name :
  get Number_toString_int "User" Scenarios.users_store
      (Many [IdStr "b"; IdStr "a"]) None None None true (Resolved [VRef 1%positive])
  = CbOk (Multiple [mkInstance (Some Scenarios.key_a) (VRef 2%positive);
                    mkInstance (Some Scenarios.key_b) (VRef 3%positive)])
  /\ get_requested Number_toString_int "User" (Many [IdStr "b"; IdStr "a"]) None None
     = ManyKeys [Scenarios.key_b; Scenarios.key_a]
  /\ in_request_order [Scenarios.key_b; Scenarios.key_a]
       [mkInstance (Some Scenarios.key_a) (VRef 2%positive);
        mkInstance (Some Scenarios.key_b) (VRef 3%positive)] = false
  /\ get Number_toString_int "User" Scenarios.numbered_store
       (Many [IdStr "2"; IdStr "1"]) None None None true (Resolved [VRef 1%positive])
     = CbOk (Multiple [mkInstance (Some Scenarios.key_1) (VRef 2%positive);
                       mkInstance (Some Scenarios.key_2) (VRef 3%positive)])
  /\ get Number_toString_int "User" Scenarios.numbered_store
       (Many [IdNum (Whole 2)]) None None None true (Resolved [VRef 3%positive])
     = Unhandled TypeError.
Proof. repeat split; vm_compute; reflexivity. Qed.

(** *** Model.update *)

(** Without [replace], nothing of [update] reads the caller's data: inside
    [getInTransaction] the name [data] is the parameter of [onEntity], the
    array the transaction fetched. *)
Lemma update_ignores_data toS kind model_save st id data1 data2 anc ns tx fresh :
  update toS kind model_save st id data1 anc ns tx false fresh
  = update toS kind model_save st id data2 anc ns tx false fresh.
Proof. reflexivity. Qed.

(** Extending the fetched entity with the array that holds just that
    entity changes nothing: its only element is the target itself. *)
Lemma extend_self l st :
  is_Some (st !! l) -> extend l (array_props [VRef l]) st = st.
Proof.
  intros [o Ho]. unfold extend. rewrite Ho. simpl.
  unfold extend_props. simpl. rewrite Pos.eqb_refl.
  destruct o. by apply insert_id.
Qed.

(** Whatever the caller's data, the entity handed to the save is the
    fetched entity with the properties it was fetched with. *)
Lemma update_saves_what_it_fetched toS kind model_save st id data anc ns t fresh l o :
  t_ctor t = "Transaction" -> t_get t = Resolved [VRef l] -> st !! l = Some o ->
  exists rest,
    fst (update toS kind model_save st id data anc ns (Some t) false fresh)
    = EvGet (key toS kind (parseId toS id) anc ns)
      :: EvModelSave (OneKey <$> o_key o) (VRef l) (Some (o_props o)) true :: rest.
Proof.
  intros Hc Hg Ho. unfold update, getInTransaction. rewrite Hc, Hg. simpl.
  rewrite extend_self by done. unfold save_in_transaction. rewrite Ho. simpl.
  destruct (model_save _ _ _ _) as [[ent info] | e]; [simpl; eauto |].
  destruct (rollback_then_done false t _) as [ev out]. simpl. eauto.
Qed.

(** The update of [{y: 2}] with [{x: 1}] hands [{y: 2}] to the save. *)
Lemma update_saves_what_it_fetched_witness :
  Scenarios.update_store !! 2%positive = Some Scenarios.fetched_5
  /\ exists rest,
       fst (update Number_toString_int "User" Scenarios.save_succeeds Scenarios.update_store
              (One (IdNum (Whole 5))) (VRef 4%positive) None None
              (Some (Scenarios.transaction_found VUndefined)) false
              (Scenarios.transaction_found VUndefined))
       = EvGet (OneKey Scenarios.key_5)
         :: EvModelSave (Some (OneKey Scenarios.key_5)) (VRef 2%positive)
              (Some [("y", VNum (Whole 2))]) true :: rest.
Proof.
  split; [reflexivity |].
  exact (update_saves_what_it_fetched Number_toString_int "User" Scenarios.save_succeeds
           Scenarios.update_store (One (IdNum (Whole 5))) (VRef 4%positive) None None
           (Scenarios.transaction_found VUndefined) (Scenarios.transaction_found VUndefined)
           2%positive Scenarios.fetched_5 eq_refl eq_refl eq_refl).
Defined.

(** C1 fails on the code: updating the entity [{y: 2}] with [{x: 1}]
    hands the fetched entity to the save as it was read, without [x]. *)
Theorem update_saves_fetched_entity_unmerged :
  update Number_toString_int "User" Scenarios.save_succeeds Scenarios.update_store
    (One (IdNum (Whole 5))) (VRef 4%positive) None None
    (Some (Scenarios.transaction_found VUndefined)) false
    (Scenarios.transaction_found VUndefined)
  = ([EvGet (OneKey Scenarios.key_5);
      EvModelSave (Some (OneKey Scenarios.key_5)) (VRef 2%positive)
        (Some [("y", VNum (Whole 2))]) true;
      EvEmit "update"],
     CbOk (VRef 2%positive))
  /\ get_prop "x" [("y", VNum (Whole 2))] = (None : option value)
  /\ get_prop "x" (o_props Scenarios.new_data) = Some (VNum (Whole 1)).
Proof. repeat split; vm_compute; reflexivity. Qed.

(** What [update] does when the transaction finds nothing, under a
    transaction of the caller and under one it opened itself. *)
Lemma update_missing_supplied toS kind model_save st id data anc ns t fresh m rv :
  t_ctor t = "Transaction" -> t_get t = Resolved [] -> t_rollback t = Resolved rv ->
  update_not_found_message toS (parseId toS id) = Some m ->
  update toS kind model_save st id data anc ns (Some t) false fresh
  = ([EvGet (key toS kind (parseId toS id) anc ns); EvRollback],
     CbError (if truthy rv then Foreign rv else NotFound m)).
Proof.
  intros Hc Hg Hr Hm. unfold update, getInTransaction, rollback_then_done, done.
  rewrite Hc, Hg, Hm, Hr. simpl. unfold onTransaction. simpl.
  destruct (truthy rv); reflexivity.
Qed.

Lemma update_missing_internal toS kind model_save st id data anc ns t m rv cv r :
  t_run t = Resolved r -> t_get t = Resolved [] ->
  t_rollback t = Resolved rv -> t_commit t = Resolved cv ->
  update_not_found_message toS (parseId toS id) = Some m ->
  update toS kind model_save st id data anc ns None false t
  = if truthy rv then
      ([EvRun; EvGet (key toS kind (parseId toS id) anc ns); EvRollback],
       CbError (Foreign rv))
    else
      ([EvRun; EvGet (key toS kind (parseId toS id) anc ns); EvRollback; EvCommit],
       CbError (if truthy cv then Foreign cv else NotFound m)).
Proof.
  intros Hrun Hg Hr Hcm Hm. unfold update, getInTransaction, rollback_then_done, done.
  rewrite Hrun, Hg, Hm, Hr. simpl. unfold onTransaction. simpl.
  destruct (truthy rv); simpl; [reflexivity |].
  rewrite Hcm. simpl. destruct (truthy cv); reflexivity.
Qed.

(** When the transaction finds nothing, a rollback is issued and no save
    is made, however the rollback settles.  If the rollback rejects, the
    callback is never called.  If it resolves to a truthy value, that
    value reaches the callback as the error.  If it resolves to a falsy
    value, the callback receives the 404 error under the caller's
    transaction; under a transaction [update] opened a commit follows,
    and the callback receives what the commit resolves to when that is
    truthy, the 404 error when it is falsy, and is never called when the
    commit rejects. *)
Lemma update_missing_rolls_back toS kind model_save st id data anc ns tx fresh m r :
  let t := default fresh tx in
  t_ctor t = "Transaction" -> t_run t = Resolved r -> t_get t = Resolved [] ->
  update_not_found_message toS (parseId toS id) = Some m ->
  let res := update toS kind model_save st id data anc ns tx false fresh in
  existsb is_rollback (fst res) = true
  /\ existsb is_save (fst res) = false
  /\ snd res
     = match t_rollback t with
       | Rejected e => Unhandled (Foreign e)
       | Resolved rv =>
           if truthy rv then CbError (Foreign rv)
           else
             match tx with
             | Some _ => CbError (NotFound m)
             | None =>
                 match t_commit t with
                 | Rejected e => Unhandled (Foreign e)
                 | Resolved cv => CbError (if truthy cv then Foreign cv else NotFound m)
                 end
             end
       end
  /\ (forall rv cv, t_rollback t = Resolved rv -> t_commit t = Resolved cv ->
        (exists e, snd res = CbError e /\ errv_truthy e = true)
        /\ (truthy rv = false -> truthy cv = false -> snd res = CbError (NotFound m))).
Proof.
  cbv zeta. intros Hc Hrun Hg Hm.
  destruct tx as [t |]; cbv [default from_option Datatypes.id] in Hc, Hrun, Hg |- *.
  - destruct (t_rollback t) as [rv | e] eqn:Hr.
    + rewrite (update_missing_supplied toS kind model_save st id data anc ns t fresh m rv
                 Hc Hg Hr Hm).
      simpl. split; [done |]. split; [done |]. split; [by destruct (truthy rv) |].
      intros rv' cv [= <-] _. split.
      * destruct (truthy rv) eqn:E; eauto.
      * by intros ->.
    + unfold update, getInTransaction, rollback_then_done. rewrite Hc, Hg, Hm, Hr. simpl.
      repeat split; done.
  - destruct (t_rollback fresh) as [rv | e] eqn:Hr.
    + destruct (t_commit fresh) as [cv | e] eqn:Hcm.
      * rewrite (update_missing_internal toS kind model_save st id data anc ns fresh m rv cv r
                   Hrun Hg Hr Hcm Hm).
        destruct (truthy rv) eqn:E; simpl.
        -- split; [done |]. split; [done |]. split; [done |].
           intros rv' cv' [= <-] [= <-]. split; [eauto |]. by rewrite E.
        -- split; [done |]. split; [done |]. split; [done |].
           intros rv' cv' [= <-] [= <-]. split.
           ++ destruct (truthy cv) eqn:E'; eauto.
           ++ by intros _ ->.
      * unfold update, getInTransaction, rollback_then_done, done, onTransaction.
        rewrite Hrun, Hg, Hm, Hr. simpl.
        destruct (truthy rv) eqn:E; simpl; rewrite ?Hcm; simpl; repeat split; done.
    + unfold update, getInTransaction, rollback_then_done. rewrite Hrun, Hg, Hm, Hr. simpl.
      repeat split; done.
Qed.

(** The update of the missing entity 5 under a transaction whose promises
    resolve to nothing: a rollback, and the 404 error. *)
Lemma update_missing_rolls_back_witness :
  existsb is_rollback
    (fst (update Number_toString_int "User" Scenarios.save_succeeds Scenarios.update_store
            (One (IdNum (Whole 5))) (VRef 4%positive) None None None false
            (Scenarios.transaction_missing VUndefined))) = true
  /\ snd (update Number_toString_int "User" Scenarios.save_succeeds Scenarios.update_store
            (One (IdNum (Whole 5))) (VRef 4%positive) None None None false
            (Scenarios.transaction_missing VUndefined))
     = CbError (NotFound "Entity {5} to update not found").
Proof.
  destruct (update_missing_rolls_back Number_toString_int "User" Scenarios.save_succeeds
              Scenarios.update_store (One (IdNum (Whole 5))) (VRef 4%positive) None None None
              (Scenarios.transaction_missing VUndefined)
              "Entity {5} to update not found" VUndefined
              eq_refl eq_refl eq_refl eq_refl) as (H1 & _ & H3 & _).
  split; [exact H1 | exact H3].
Defined.

(** With [replace], [update] fetches nothing and opens no transaction:
    its one call is the save of the caller's data under the computed
    key. *)
Lemma update_replace_saves_directly toS kind model_save st id data anc ns tx fresh :
  fst (update toS kind model_save st id data anc ns tx true fresh)
  = [EvModelSave (Some (key toS kind (parseId toS id) anc ns)) data
       (match data with VRef l => o_props <$> st !! l | _ => None end) false].
Proof.
  unfold update, save_replace. simpl.
  by destruct (model_save _ _ _ _) as [[ent info] | e].
Qed.

(** C2 fails on the code: the rollback is issued and nothing is saved,
    but the value the rollback resolves to is passed on as the error.
    With a client whose promises resolve to a response array the callback
    receives that array, not the 404 error, under the caller's
    transaction and under one that [update] opened. *)
Theorem update_missing_reports_rollback_value :
  update Number_toString_int "User" Scenarios.save_succeeds Scenarios.update_store
    (One (IdNum (Whole 5))) (VRef 4%positive) None None
    (Some (Scenarios.transaction_missing Scenarios.api_response)) false
    (Scenarios.transaction_missing Scenarios.api_response)
  = ([EvGet (OneKey Scenarios.key_5); EvRollback],
     CbError (Foreign Scenarios.api_response))
  /\ update Number_toString_int "User" Scenarios.save_succeeds Scenarios.update_store
       (One (IdNum (Whole 5))) (VRef 4%positive) None None None false
       (Scenarios.transaction_missing Scenarios.api_response)
     = ([EvRun; EvGet (OneKey Scenarios.key_5); EvRollback],
        CbError (Foreign Scenarios.api_response))
  /\ update Number_toString_int "User" Scenarios.save_succeeds Scenarios.update_store
       (One (IdNum (Whole 5))) (VRef 4%positive) None None None false
       (Scenarios.transaction_missing VUndefined)
     = ([EvRun; EvGet (OneKey Scenarios.key_5); EvRollback; EvCommit],
        CbError (NotFound "Entity {5} to update not found")).
Proof. repeat split; vm_compute; reflexivity. Qed.

(** *** Model.delete and Model.deleteAll *)

Section DeleteFacts.

Variable toS : number -> string.
Variable kind : string.
Variable hk : hooks.
Variable run_pre : nat -> option keyres -> option errv.
Variable run_post : nat -> keyres -> option errv.
Variable ds_delete : keyres -> errv + option Z.

Local Abbreviation delete_ := (Model.delete toS kind hk run_pre run_post ds_delete).
Local Abbreviation delete_each_ := (delete_each toS kind hk run_pre run_post ds_delete).
Local Abbreviation deleteAll_ := (deleteAll toS kind hk run_pre run_post ds_delete).

Lemma backend_deletes_app t1 t2 :
  backend_deletes (t1 ++ t2) = (backend_deletes t1 ++ backend_deletes t2)%list.
Proof. unfold backend_deletes. apply omap_app. Qed.

Lemma hook_runs_app fn t1 t2 : hook_runs fn (t1 ++ t2) = (hook_runs fn t1 + hook_runs fn t2)%nat.
Proof. unfold hook_runs. by rewrite List.filter_app, length_app. Qed.

Lemma execPre_list_no_delete fns c :
  backend_deletes (fst (execPre_list run_pre fns c)) = [].
Proof.
  induction fns as [| f r IH]; simpl; [done |].
  destruct (run_pre f c); [done |].
  destruct (execPre_list run_pre r c) as [ev res]. simpl in *. done.
Qed.

Lemma execPost_list_no_delete fns k :
  backend_deletes (fst (execPost_list run_post fns k)) = [].
Proof.
  induction fns as [| f r IH]; simpl; [done |].
  destruct (run_post f k); [done |].
  destruct (execPost_list run_post r k) as [ev res]. simpl in *. done.
Qed.

Lemma execPre_list_ok fns c :
  (forall f x, run_pre f x = None) ->
  execPre_list run_pre fns c = (map (fun f => DPre f c) fns, None).
Proof.
  intros H. induction fns as [| f r IH]; simpl; [done |]. by rewrite H, IH.
Qed.

Lemma execPost_list_ok fns k :
  (forall f x, run_post f x = None) ->
  execPost_list run_post fns k = (map (fun f => DPost f k) fns, None).
Proof.
  intros H. induction fns as [| f r IH]; simpl; [done |]. by rewrite H, IH.
Qed.

Lemma execPre_list_passed fns c ev :
  execPre_list run_pre fns c = (ev, None) -> ev = map (fun f => DPre f c) fns.
Proof.
  revert ev. induction fns as [| f r IH]; simpl; intros ev H.
  - by injection H as <-.
  - destruct (run_pre f c); [done |].
    destruct (execPre_list run_pre r c) as [ev' res]. injection H as <- ->.
    by rewrite (IH ev').
Qed.

Lemma execPost_list_passed fns k ev :
  execPost_list run_post fns k = (ev, None) -> ev = map (fun f => DPost f k) fns.
Proof.
  revert ev. induction fns as [| f r IH]; simpl; intros ev H.
  - by injection H as <-.
  - destruct (run_post f k); [done |].
    destruct (execPost_list run_post r k) as [ev' res]. injection H as <- ->.
    by rewrite (IH ev').
Qed.

Lemma execPre_list_prefix fns c :
  fst (execPre_list run_pre fns c) `prefix_of` map (fun f => DPre f c) fns.
Proof.
  induction fns as [| f r IH]; simpl; [done |].
  destruct (run_pre f c).
  - simpl. apply prefix_cons, prefix_nil.
  - destruct (execPre_list run_pre r c) as [ev res]. simpl in *. by apply prefix_cons.
Qed.

Lemma execPost_list_prefix fns k :
  fst (execPost_list run_post fns k) `prefix_of` map (fun f => DPost f k) fns.
Proof.
  induction fns as [| f r IH]; simpl; [done |].
  destruct (run_post f k).
  - simpl. apply prefix_cons, prefix_nil.
  - destruct (execPost_list run_post r k) as [ev res]. simpl in *. by apply prefix_cons.
Qed.

(** One delete by key outside a transaction calls the backend at most
    once, with that key, and reports success only if it did. *)
Lemma delete_single_calls k :
  let d := delete_ (One IdNull) None None None (Some (OneKey k)) in
  (backend_deletes (fst d) = [] /\ (forall r, snd d <> CbOk r))
  \/ backend_deletes (fst d) = [OneKey k].
Proof.
  unfold Model.delete. simpl. unfold execPre, execPost.
  pose proof (execPre_list_no_delete (default [] (_pres hk !! "delete")) (Some (OneKey k))) as Hpre.
  destruct (execPre_list run_pre _ _) as [ev res]. simpl in Hpre.
  destruct res as [e |]; simpl.
  - left. split; [done | intros r; discriminate].
  - destruct (ds_delete (OneKey k)) as [e | apiRes]; simpl.
    + right. rewrite backend_deletes_app, Hpre. done.
    + pose proof (execPost_list_no_delete (default [] (_posts hk !! "delete")) (OneKey k)) as Hpost.
      destruct (execPost_list run_post _ _) as [ev' res']. simpl in Hpost.
      right. destruct res'; simpl; rewrite backend_deletes_app, Hpre; simpl;
        unfold backend_deletes in *; simpl; by rewrite Hpost.
Qed.

(** The deletes of the series are those of the first entities, one call
    for each, in the order of the query result. *)
Lemma delete_each_prefix es :
  exists n, backend_deletes (fst (delete_each_ es)) = map OneKey (take n (map fe_key es)).
Proof.
  induction es as [| e r [n IH]]; [by exists O |].
  simpl. pose proof (delete_single_calls (fe_key e)) as H. simpl in H.
  destruct (delete_ (One IdNull) None None None (Some (OneKey (fe_key e)))) as [ev out].
  simpl in H. destruct out as [err | resp | m | err]; simpl.
  1, 3, 4: destruct H as [[-> _] | ->]; [by exists O | by exists 1%nat].
  destruct (delete_each_ r) as [ev' res]. simpl in *.
  rewrite backend_deletes_app, IH.
  destruct H as [[_ Hno] | ->]; [by destruct (Hno resp) |].
  by exists (S n).
Qed.

Lemma backend_deletes_hooked pre_fns post_fns k :
  backend_deletes (hooked_delete_trace pre_fns post_fns k) = [OneKey k].
Proof.
  unfold hooked_delete_trace. rewrite backend_deletes_app.
  assert (forall c, backend_deletes (map (fun f => DPre f c) pre_fns) = []) as ->
    by (intros c; induction pre_fns; [done | by simpl]).
  simpl. unfold backend_deletes. simpl. f_equal.
  induction post_fns; [done | by simpl].
Qed.

Lemma hook_runs_hooked fn pre_fns post_fns k :
  hook_runs fn (hooked_delete_trace pre_fns post_fns k)
  = (occurrences fn pre_fns + occurrences fn post_fns)%nat.
Proof.
  unfold hooked_delete_trace. rewrite hook_runs_app. f_equal.
  - unfold hook_runs, occurrences. induction pre_fns as [| f r IH]; [done |].
    simpl. destruct (Nat.eqb f fn); simpl; by rewrite IH.
  - unfold hook_runs, occurrences. simpl. induction post_fns as [| f r IH]; [done |].
    simpl. destruct (Nat.eqb f fn); simpl; by rewrite IH.
Qed.

(** When no hook and no backend call fails, the series runs every
    entity's hooks around its own delete. *)
Lemma delete_each_ok es :
  (forall f x, run_pre f x = None) -> (forall f x, run_post f x = None) ->
  (forall k, exists r, ds_delete k = inr r) ->
  delete_each_ es
  = (concat (map (fun e => hooked_delete_trace (default [] (_pres hk !! "delete"))
                             (default [] (_posts hk !! "delete")) (fe_key e)) es),
     None).
Proof.
  intros Hpre Hpost Hdel. induction es as [| e r IH]; [done |].
  simpl. unfold Model.delete. simpl. unfold execPre, execPost.
  rewrite (execPre_list_ok _ _ Hpre).
  destruct (Hdel (OneKey (fe_key e))) as [res ->].
  rewrite (execPost_list_ok _ _ Hpost). simpl. by rewrite IH.
Qed.

(** The delete of one entity by its key, as the series issues it. *)
Local Abbreviation one :=
  (fun e : fetched => delete_ (One IdNull) None None None (Some (OneKey (fe_key e)))).

(** It ends with a payload or with an error; when it succeeds, every
    function ran around the backend's delete; when it fails, what ran is
    the beginning of that. *)
Lemma delete_one_cases e :
  ((exists r, snd (one e) = CbOk r)
   /\ fst (one e) = hooked_delete_trace (default [] (_pres hk !! "delete"))
                      (default [] (_posts hk !! "delete")) (fe_key e))
  \/ ((exists err, snd (one e) = CbError err)
      /\ fst (one e) `prefix_of` hooked_delete_trace (default [] (_pres hk !! "delete"))
                                   (default [] (_posts hk !! "delete")) (fe_key e)).
Proof.
  unfold Model.delete, hooked_delete_trace. simpl. unfold execPre, execPost.
  pose proof (execPre_list_passed (default [] (_pres hk !! "delete"))
                (Some (OneKey (fe_key e)))) as Hpre.
  pose proof (execPre_list_prefix (default [] (_pres hk !! "delete"))
                (Some (OneKey (fe_key e)))) as Hpre'.
  destruct (execPre_list run_pre _ _) as [ev [err |]]; simpl in *.
  - right. split; [eauto |]. by apply prefix_app_r.
  - rewrite (Hpre ev eq_refl).
    destruct (ds_delete (OneKey (fe_key e))) as [err | apiRes]; simpl.
    + right. split; [eauto |]. apply prefix_app, prefix_cons, prefix_nil.
    + pose proof (execPost_list_passed (default [] (_posts hk !! "delete"))
                    (OneKey (fe_key e))) as Hpost.
      pose proof (execPost_list_prefix (default [] (_posts hk !! "delete"))
                    (OneKey (fe_key e))) as Hpost'.
      destruct (execPost_list run_post _ _) as [ev' [err |]]; simpl in *.
      * right. split; [eauto |]. by apply prefix_app, prefix_cons.
      * left. split; [eauto |]. by rewrite (Hpost ev' eq_refl).
Qed.

(** The series deletes the entities before the first whose delete fails,
    each between its pre and post functions, runs the delete of that
    entity as far as it gets, and stops with its error. *)
Lemma delete_each_series es :
  exists finished rest,
    es = (finished ++ rest)%list
    /\ Forall (fun e => exists r, snd (one e) = CbOk r) finished
    /\ match rest with
       | [] =>
           delete_each_ es
           = (concat (map (fun e => hooked_delete_trace (default [] (_pres hk !! "delete"))
                                      (default [] (_posts hk !! "delete")) (fe_key e))
                          finished),
              None)
       | e :: _ =>
           exists err,
             snd (one e) = CbError err
             /\ delete_each_ es
                = ((concat (map (fun e => hooked_delete_trace
                                            (default [] (_pres hk !! "delete"))
                                            (default [] (_posts hk !! "delete")) (fe_key e))
                                finished)
                    ++ fst (one e))%list,
                   Some err)
       end.
Proof.
  induction es as [| e r IH].
  - exists [], []. by repeat split.
  - destruct (delete_one_cases e) as [[[resp Hok] Htr] | [[err Herr] _]].
    + destruct IH as (finished & rest & -> & Hall & Hrest).
      exists (e :: finished), rest. split; [done |].
      split; [constructor; eauto |].
      simpl. destruct (one e) as [ev out] eqn:He. simpl in *. subst out ev.
      destruct rest as [| e' rest'].
      * by rewrite Hrest.
      * destruct Hrest as (err & Herr & ->). exists err. split; [done |].
        by rewrite <- app_assoc.
    + exists [], (e :: r). split; [done |]. split; [constructor |].
      exists err. split; [done |]. simpl.
      destruct (one e) as [ev out]. simpl in *. by subst out.
Qed.

Lemma backend_deletes_concat pre_fns post_fns (es : list fetched) :
  backend_deletes (concat (map (fun e => hooked_delete_trace pre_fns post_fns (fe_key e)) es))
  = map OneKey (map fe_key es).
Proof.
  induction es as [| e r IH]; [done |].
  simpl. by rewrite backend_deletes_app, backend_deletes_hooked, IH.
Qed.

Lemma hook_runs_concat fn pre_fns post_fns (es : list fetched) :
  hook_runs fn (concat (map (fun e => hooked_delete_trace pre_fns post_fns (fe_key e)) es))
  = (length es * (occurrences fn pre_fns + occurrences fn post_fns))%nat.
Proof.
  induction es as [| e r IH]; [done |].
  simpl. by rewrite hook_runs_app, hook_runs_hooked, IH.
Qed.

Lemma has_delete_hooks_false :
  has_delete_hooks hk = false
  <-> _pres hk !! "delete" = None /\ _posts hk !! "delete" = None.
Proof.
  unfold has_delete_hooks. rewrite orb_false_iff, !bool_decide_eq_false.
  rewrite <- !eq_None_not_Some. done.
Qed.

Lemma has_delete_hooks_true :
  has_delete_hooks hk = true
  <-> is_Some (_pres hk !! "delete") \/ is_Some (_posts hk !! "delete").
Proof.
  unfold has_delete_hooks. by rewrite orb_true_iff, !bool_decide_eq_true.
Qed.

(** Without delete hooks there is one call of the backend, for all keys. *)
Lemma deleteAll_batch es :
  has_delete_hooks hk = false ->
  fst (deleteAll_ (inr es)) = [DDelete (ManyKeys (map fe_key es))].
Proof.
  intros Hno. unfold deleteAll. rewrite Hno.
  apply has_delete_hooks_false in Hno as [Hp Hq].
  unfold Model.delete. simpl. unfold execPre, execPost. rewrite Hp, Hq. simpl.
  by destruct (ds_delete (ManyKeys (map fe_key es))).
Qed.

End DeleteFacts.



(** *** Property tables *)

Section PropFacts.
Context {V : Type}.
Implicit Types (ps : list (string * V)) (k : string).

Lemma get_delete_eq k ps : get_prop k (delete_prop k ps) = None.
Proof.
  induction ps as [| [k' v] r IH]; simpl; [done |].
  destruct (String.eqb k' k) eqn:E; [done |]. simpl. by rewrite E.
Qed.

Lemma get_delete_ne k k' ps : k' <> k -> get_prop k' (delete_prop k ps) = get_prop k' ps.
Proof.
  intros Hne. induction ps as [| [k0 v] r IH]; simpl; [done |].
  destruct (String.eqb k0 k) eqn:E.
  - apply String.eqb_eq in E. subst k0.
    destruct (String.eqb k k') eqn:E'; [| done].
    apply String.eqb_eq in E'. congruence.
  - simpl. by rewrite IH.
Qed.

Lemma get_set_eq k v ps : get_prop k (set_prop k v ps) = Some v.
Proof.
  induction ps as [| [k' v'] r IH]; simpl.
  - by rewrite String.eqb_refl.
  - destruct (String.eqb k' k) eqn:E; simpl; by rewrite E.
Qed.

Lemma get_set_ne k k' v ps : k' <> k -> get_prop k' (set_prop k v ps) = get_prop k' ps.
Proof.
  intros Hne. induction ps as [| [k0 v0] r IH]; simpl.
  - destruct (String.eqb k k') eqn:E; [| done].
    apply String.eqb_eq in E. congruence.
  - destruct (String.eqb k0 k) eqn:E; simpl; [| by rewrite IH].
    apply String.eqb_eq in E. subst k0.
    destruct (String.eqb k k') eqn:E'; [| done].
    apply String.eqb_eq in E'. congruence.
Qed.

Lemma get_prop_keys k v ps : get_prop k ps = Some v -> k ∈ keys ps.
Proof.
  induction ps as [| [k' v'] r IH]; simpl; [done |].
  destruct (String.eqb k' k) eqn:E.
  - apply String.eqb_eq in E. subst k'. intros _. by left.
  - intros H. right. by apply IH.
Qed.

End PropFacts.

(** *** Model.sanitize *)

Lemma sanitized_entry_idem s k e :
  sanitized_entry s k (sanitized_entry s k e) = sanitized_entry s k e.
Proof.
  destruct e as [v |]; simpl; [| done].
  destruct (not_writable s k) eqn:E; simpl; [done |]. rewrite E.
  destruct (strict_eq v (VStr "null")) eqn:Ev; simpl; [done | by rewrite Ev].
Qed.

Lemma sanitize_step_get s ps k k' :
  get_prop k' (sanitize_step s ps k)
  = if decide (k' = k) then sanitized_entry s k (get_prop k ps) else get_prop k' ps.
Proof.
  unfold sanitize_step, sanitized_entry. destruct (decide (k' = k)) as [-> | Hne].
  - destruct (not_writable s k).
    + rewrite get_delete_eq. by destruct (get_prop k ps).
    + destruct (get_prop k ps) as [v |] eqn:Hg; [| by rewrite Hg].
      destruct (strict_eq v (VStr "null")); [apply get_set_eq | by rewrite Hg].
  - destruct (not_writable s k); [by apply get_delete_ne |].
    destruct (get_prop k ps) as [v |]; [| done].
    destruct (strict_eq v (VStr "null")); [by apply get_set_ne | done].
Qed.

Lemma sanitize_fold_get s ks ps k :
  get_prop k (fold_left (sanitize_step s) ks ps)
  = if decide (k ∈ ks) then sanitized_entry s k (get_prop k ps) else get_prop k ps.
Proof.
  revert ps. induction ks as [| k0 r IH]; intros ps.
  - simpl. destruct (decide (k ∈ [])) as [Hin | _]; [by apply elem_of_nil in Hin | done].
  - change (fold_left (sanitize_step s) (k0 :: r) ps)
      with (fold_left (sanitize_step s) r (sanitize_step s ps k0)).
    rewrite IH, sanitize_step_get.
    destruct (decide (k = k0)) as [-> | Hne].
    + destruct (decide (k0 ∈ k0 :: r)) as [_ | Hn]; [| exfalso; apply Hn; by left].
      destruct (decide (k0 ∈ r)); [apply sanitized_entry_idem | done].
    + destruct (decide (k ∈ r)) as [Hin | Hnin];
        destruct (decide (k ∈ k0 :: r)) as [Hin' | Hnin']; try done.
      * exfalso. apply Hnin'. by right.
      * apply elem_of_cons in Hin' as [? | ?]; done.
Qed.

Lemma sanitize_props_get s ps k :
  get_prop k (sanitize_props s ps) = sanitized_entry s k (get_prop k ps).
Proof.
  unfold sanitize_props. rewrite sanitize_fold_get.
  destruct (decide (k ∈ keys ps)) as [Hin | Hnin]; [done |].
  destruct (get_prop k ps) as [v |] eqn:Hg; [| done].
  exfalso. apply Hnin. by eapply get_prop_keys.
Qed.

(** C10: [sanitize] returns [null] for whatever is not a plain object and
    leaves the store alone; for an object it returns that same object,
    changed in place and nothing else in the store with it: a key
    survives exactly when the schema declares its path and does not
    declare it with [write === false], a surviving value that is the
    string ['null'] becomes [null], and every other surviving value is
    unchanged. *)
Theorem sanitize_spec (s : schema) (st : store) (data : value) :
  (is_object st data = false -> sanitize s st data = (VNull, st))
  /\ (forall l o, data = VRef l -> st !! l = Some o -> o_class o = CObject ->
      exists ps',
        sanitize s st data = (VRef l, <[l := set_props o ps']> st)
        /\ forall k,
             get_prop k ps' =
             match get_prop k (o_props o), paths s !! k with
             | Some v, Some d =>
                 match d_write d with
                 | Some (VBool false) => None
                 | _ => Some (if strict_eq v (VStr "null") then VNull else v)
                 end
             | _, _ => None
             end).
Proof.
  split.
  - intros H. unfold sanitize. by rewrite H.
  - intros l o -> Ho Hc. exists (sanitize_props s (o_props o)). split.
    + unfold sanitize, is_object, class_of, update_object. rewrite Ho. simpl.
      by rewrite Hc.
    + intros k. rewrite sanitize_props_get. unfold sanitized_entry, not_writable.
      destruct (get_prop k (o_props o)) as [v |]; [| done].
      destruct (paths s !! k) as [d |]; [| done].
      destruct (d_write d) as [[| | [|] | | |] |]; done.
Qed.

(** *** save *)

(** C9: when the schema declares the path [modifiedOn], [save] stores a
    new date holding the current time under [entityData.modifiedOn],
    whatever was there, changes no other property, and what it hands to
    the backend is the serialization of the data so updated; when the
    schema has no such path, [save] leaves the store as it was.  Without
    a transaction the data goes to [ds.save], with a datastore
    transaction to [transaction.save]. *)
Theorem save_sets_modifiedOn (serialized : Type)
    (toDatastore : store -> list (string * value) -> list string -> serialized)
    (this : entity) (st : store) (now : Z) (transaction : txarg)
    (op : option string) (backend : promise value) :
  let r := save serialized toDatastore this st now transaction op backend in
  let st' := fst (fst r) in
  let tr := snd (fst r) in
  let sent := toDatastore st' (data_props this st') (e_excludeFromIndexes this) in
  (forall o, is_Some (paths (e_schema this) !! "modifiedOn") ->
     st !! e_data this = Some o ->
     exists d,
       st !! d = None
       /\ st' = <[e_data this := set_props o (set_prop "modifiedOn" (VRef d) (o_props o))]>
                  (<[d := new_Date now]> st)
       /\ st' !! d = Some (new_Date now)
       /\ get_prop "modifiedOn" (data_props this st') = Some (VRef d)
       /\ forall k, k <> "modifiedOn" ->
            get_prop k (data_props this st') = get_prop k (o_props o))
  /\ (paths (e_schema this) !! "modifiedOn" = None -> st' = st)
  /\ (transaction = TxAbsent ->
      exists rest, tr = SvDsSave (e_key this) sent :: rest)
  /\ (forall t, transaction = TxObject t -> t_ctor t = "Transaction" ->
      tr = [SvTransactionSave (e_key this) sent])
  /\ (forall ev, ev ∈ tr ->
      ev = SvDsSave (e_key this) sent \/ ev = SvTransactionSave (e_key this) sent
      \/ ev = SvEmitSave).
Proof.
  cbv zeta.
  assert (fst (fst (save serialized toDatastore this st now transaction op backend))
          = touch_modifiedOn this now st) as Hst.
  { unfold save. destruct transaction as [| t]; [by destruct backend |].
    by destruct (negb (String.eqb (t_ctor t) "Transaction")). }
  rewrite Hst. split; [| split; [| split; [| split]]].
  - intros o [p Hp] Ho. unfold touch_modifiedOn, alloc. rewrite Hp.
    cbv beta iota zeta. set (d := fresh (dom st)).
    assert (st !! d = None) as Hd by (apply not_elem_of_dom, is_fresh).
    assert (d <> e_data this) as Hne by (intros E; rewrite E in Hd; congruence).
    exists d. unfold update_object. rewrite lookup_insert_ne, Ho by done.
    split; [done |]. split; [done |]. split.
    { by rewrite lookup_insert_ne, lookup_insert_eq by done. }
    unfold data_props. rewrite lookup_insert_eq. simpl. split.
    + apply get_set_eq.
    + intros k Hk. by apply get_set_ne.
  - intros Hn. unfold touch_modifiedOn. by rewrite Hn.
  - intros ->. unfold save. destruct backend; simpl; eauto.
  - intros t -> Ht. unfold save. rewrite Ht. simpl. done.
  - intros ev Hev. unfold save in Hev.
    destruct transaction as [| t].
    + destruct backend; simpl in Hev.
      * apply elem_of_cons in Hev as [-> | Hev]; [by left |].
        apply list_elem_of_singleton in Hev as ->. by right; right.
      * apply list_elem_of_singleton in Hev as ->. by left.
    + destruct (negb (String.eqb (t_ctor t) "Transaction")); simpl in Hev.
      * by apply elem_of_nil in Hev.
      * apply list_elem_of_singleton in Hev as ->. by right; left.
Qed.

(** *** validate *)

Lemma get_set k k0 {V : Type} (v : V) (ps : list (string * V)) :
  get_prop k (set_prop k0 v ps) = if decide (k = k0) then Some v else get_prop k ps.
Proof.
  destruct (decide (k = k0)) as [-> | Hne]; [apply get_set_eq | by apply get_set_ne].
Qed.

Lemma not_required_set k k0 e errors :
  (forall msg, e <> ValidatorError (Some "Required") msg) ->
  not_required (get_prop k errors) ->
  not_required (get_prop k (set_prop k0 e errors)).
Proof.
  intros He Hn msg. rewrite get_set. destruct (decide (k = k0)); [| apply Hn].
  intros [= E]. by apply (He msg).
Qed.

Section ValidateFacts.

Variable entityKind : string.
Variable toS : store -> value -> string.
Variable moment : string -> bool.
Variable validator : string -> value -> bool.
Variable s : schema.
Variable st : store.

Local Abbreviation step := (validate_key entityKind toS moment validator s st).

Lemma check_type_other k' d skip e pv errors k :
  k <> k' -> k <> "datetime" ->
  get_prop k (check_type toS moment st k' d skip e pv errors) = get_prop k errors.
Proof.
  intros H1 H2. unfold check_type.
  destruct d as [d |]; [| done]. destruct (d_type d) as [ty |]; [| done].
  destruct (negb skip && negb e); [| done].
  destruct (String.eqb ty "datetime").
  - destruct (datetime_invalid moment st pv); [by apply get_set_ne | done].
  - destruct (typeValid toS st ty pv); [done | by apply get_set_ne].
Qed.

Lemma check_format_other k' d skip cur errors k :
  k <> k' -> get_prop k (check_format validator k' d skip cur errors) = get_prop k errors.
Proof.
  intros H1. unfold check_format.
  destruct d as [d |]; [| done]. destruct (d_validate d) as [rule |]; [| done].
  destruct (_ && _); [| done].
  destruct (validator rule cur); [done | by apply get_set_ne].
Qed.

Lemma check_values_other k' d skip cur errors k :
  k <> k' -> get_prop k (check_values k' d skip cur errors) = get_prop k errors.
Proof.
  intros H1. unfold check_values.
  destruct d as [d |]; [| done]. destruct (d_values d) as [allowed |]; [| done].
  destruct (_ && _); [| done].
  destruct (indexOf allowed cur <? 0); [by apply get_set_ne | done].
Qed.

Lemma check_type_not_required k' d skip e pv errors k :
  not_required (get_prop k errors) ->
  not_required (get_prop k (check_type toS moment st k' d skip e pv errors)).
Proof.
  intros H. unfold check_type.
  destruct d as [d |]; [| done]. destruct (d_type d) as [ty |]; [| done].
  destruct (negb skip && negb e); [| done].
  destruct (String.eqb ty "datetime").
  - destruct (datetime_invalid moment st pv); [by apply not_required_set | done].
  - destruct (typeValid toS st ty pv); [done | by apply not_required_set].
Qed.

Lemma check_format_not_required k' d skip cur errors k :
  not_required (get_prop k errors) ->
  not_required (get_prop k (check_format validator k' d skip cur errors)).
Proof.
  intros H. unfold check_format.
  destruct d as [d |]; [| done]. destruct (d_validate d) as [rule |]; [| done].
  destruct (_ && _); [| done].
  destruct (validator rule cur); [done | by apply not_required_set].
Qed.

Lemma check_values_not_required k' d skip cur errors k :
  not_required (get_prop k errors) ->
  not_required (get_prop k (check_values k' d skip cur errors)).
Proof.
  intros H. unfold check_values.
  destruct d as [d |]; [| done]. destruct (d_values d) as [allowed |]; [| done].
  destruct (_ && _); [| done].
  destruct (indexOf allowed cur <? 0); [by apply not_required_set | done].
Qed.

(** The checks only add or replace entries. *)
Lemma set_prop_keeps k k0 (e : verror) errors :
  is_Some (get_prop k errors) -> is_Some (get_prop k (set_prop k0 e errors)).
Proof. intros H. rewrite get_set. by destruct (decide (k = k0)). Qed.

Lemma check_type_keeps k' d skip e pv errors k :
  is_Some (get_prop k errors) ->
  is_Some (get_prop k (check_type toS moment st k' d skip e pv errors)).
Proof.
  intros H. unfold check_type.
  destruct d as [d |]; [| done]. destruct (d_type d) as [ty |]; [| done].
  destruct (negb skip && negb e); [| done].
  destruct (String.eqb ty "datetime").
  - destruct (datetime_invalid moment st pv); [by apply set_prop_keeps | done].
  - destruct (typeValid toS st ty pv); [done | by apply set_prop_keeps].
Qed.

Lemma check_format_keeps k' d skip cur errors k :
  is_Some (get_prop k errors) ->
  is_Some (get_prop k (check_format validator k' d skip cur errors)).
Proof.
  intros H. unfold check_format.
  destruct d as [d |]; [| done]. destruct (d_validate d) as [rule |]; [| done].
  destruct (_ && _); [| done].
  destruct (validator rule cur); [done | by apply set_prop_keeps].
Qed.

Lemma check_values_keeps k' d skip cur errors k :
  is_Some (get_prop k errors) ->
  is_Some (get_prop k (check_values k' d skip cur errors)).
Proof.
  intros H. unfold check_values.
  destruct d as [d |]; [| done]. destruct (d_values d) as [allowed |]; [| done].
  destruct (_ && _); [| done].
  destruct (indexOf allowed cur <? 0); [by apply set_prop_keeps | done].
Qed.

Lemma step_data vs k k' :
  k' <> k \/ virtuals s !! k = None ->
  get_prop k (vs_data (step vs k')) = get_prop k (vs_data vs).
Proof.
  intros H. unfold validate_key. simpl.
  destruct (bool_decide (is_Some (virtuals s !! k'))) eqn:E; [| done].
  destruct H as [H | H]; [by apply get_delete_ne |].
  destruct (decide (k = k')) as [-> | Hne]; [| by apply get_delete_ne].
  apply bool_decide_eq_true in E. rewrite H in E. by destruct E.
Qed.

Lemma step_errors_other vs k k' :
  k <> k' -> k <> "properties" -> k <> "datetime" ->
  get_prop k (vs_errors (step vs k')) = get_prop k (vs_errors vs).
Proof.
  intros H1 H2 H3. unfold validate_key. simpl.
  rewrite check_values_other, check_format_other by done.
  match goal with |- get_prop k (if ?c then _ else _) = _ => destruct c end.
  - rewrite get_set_ne, check_type_other by done.
    match goal with |- get_prop k (if ?c then _ else _) = _ => destruct c end;
      [by apply get_set_ne | done].
  - rewrite check_type_other by done.
    match goal with |- get_prop k (if ?c then _ else _) = _ => destruct c end;
      [by apply get_set_ne | done].
Qed.

Lemma step_errors_keeps vs k k' :
  is_Some (get_prop k (vs_errors vs)) -> is_Some (get_prop k (vs_errors (step vs k'))).
Proof.
  intros H. unfold validate_key. simpl.
  apply check_values_keeps, check_format_keeps.
  match goal with |- is_Some (get_prop k (if ?c then _ else _)) => destruct c end.
  - apply set_prop_keeps, check_type_keeps.
    match goal with |- is_Some (get_prop k (if ?c then _ else _)) => destruct c end;
      [by apply set_prop_keeps | done].
  - apply check_type_keeps.
    match goal with |- is_Some (get_prop k (if ?c then _ else _)) => destruct c end;
      [by apply set_prop_keeps | done].
Qed.

(** A round writes a [Required] error only under its own key, and only
    for a value that is there, empty, and not virtual. *)
Lemma step_not_required vs k k' :
  (k' = k -> is_Some (virtuals s !! k)
             \/ exists v, get_prop k (vs_data vs) = Some v /\ valueIsEmpty v = false) ->
  not_required (get_prop k (vs_errors vs)) ->
  not_required (get_prop k (vs_errors (step vs k'))).
Proof.
  intros Hown H. unfold validate_key. simpl.
  apply check_values_not_required, check_format_not_required.
  assert (not_required (get_prop k
            (if negb (bool_decide (is_Some (virtuals s !! k'))
                      || negb (bool_decide (is_Some (paths s !! k')))
                         && match explicitOnly (s_options s) with
                            | Some false => true
                            | _ => false
                            end)
                && negb (bool_decide (is_Some (paths s !! k')))
             then set_prop "properties"
                    (PropertyNotAllowed
                       ("Property not allowed {" ++ k' ++ "} for " ++ entityKind ++ " Entity"))
                    (vs_errors vs)
             else vs_errors vs))) as H1.
  { match goal with |- not_required (get_prop k (if ?c then _ else _)) => destruct c end;
      [by apply not_required_set | done]. }
  match goal with |- not_required (get_prop k (if ?c then _ else _)) => destruct c eqn:Ec end;
    [| by apply check_type_not_required].
  destruct (decide (k' = k)) as [-> | Hne].
  - exfalso. apply andb_true_iff in Ec as [Ec Hempty]. apply andb_true_iff in Ec as [Hskip _].
    destruct (Hown eq_refl) as [Hv | (v & Hv & Hne)].
    + apply negb_true_iff, orb_false_iff in Hskip as [Hskip _].
      apply bool_decide_eq_false in Hskip. done.
    + rewrite Hv in Hempty. simpl in Hempty. congruence.
  - intros msg. rewrite get_set_ne by done. by apply check_type_not_required.
Qed.

(** The round of a key whose value is there and empty, declared as
    required and not virtual: an entry for the key exists afterwards, and
    it is the [Required] error unless the format or the values check of
    the same field replaces it. *)
Lemma step_required vs k v d :
  get_prop k (vs_data vs) = Some v -> valueIsEmpty v = true ->
  paths s !! k = Some d -> d_required d = Some (VBool true) ->
  virtuals s !! k = None ->
  is_Some (get_prop k (vs_errors (step vs k)))
  /\ ((forall rule, d_validate d = Some rule -> truthy v = true -> validator rule v = true) ->
      (forall allowed, d_values d = Some allowed ->
         strict_eq v (VStr "") = true \/ 0 <= indexOf allowed v) ->
      get_prop k (vs_errors (step vs k)) = Some (required_error k)).
Proof.
  intros Hv He Hd Hr Hvirt. unfold validate_key. cbv zeta.
  rewrite Hv, Hd, Hvirt.
  change (default VUndefined (Some v)) with v. rewrite He.
  rewrite (bool_decide_eq_false_2 (is_Some None)) by (by intros [? ?]).
  rewrite (bool_decide_eq_true_2 (is_Some (Some d))) by done.
  unfold is_required. rewrite Hr. rewrite Hv.
  change (default VUndefined (Some v)) with v.
  cbn [negb orb andb vs_errors vs_data].
  assert (check_type toS moment st k (Some d) false true
            match v with VStr x => VStr (trim x) | _ => v end (vs_errors vs)
          = vs_errors vs) as ->.
  { unfold check_type. by destruct (d_type d). }
  split.
  - apply check_values_keeps, check_format_keeps. rewrite get_set_eq. done.
  - intros Hfmt Hvals.
    assert (check_format validator k (Some d) false v
              (set_prop k (required_error k) (vs_errors vs))
            = set_prop k (required_error k) (vs_errors vs)) as ->.
    { unfold check_format. destruct (d_validate d) as [rule |] eqn:Hrule; [| done].
      simpl. destruct (truthy v) eqn:Ht; simpl; [| done].
      rewrite (Hfmt rule eq_refl eq_refl).
      by destruct (_ && _). }
    assert (check_values k (Some d) false v
              (set_prop k (required_error k) (vs_errors vs))
            = set_prop k (required_error k) (vs_errors vs)) as ->.
    { unfold check_values. destruct (d_values d) as [allowed |] eqn:Hal; [| done].
      simpl. destruct (Hvals allowed eq_refl) as [-> | Hidx]; [done |].
      destruct (negb (strict_eq v (VStr ""))); [| done].
      destruct (Z.ltb_spec (indexOf allowed v) 0); [lia | done]. }
    apply get_set_eq.
Qed.

(** The loop keeps the value of a key that is not virtual. *)
Lemma loop_data ks vs k :
  virtuals s !! k = None ->
  get_prop k (vs_data (fold_left step ks vs)) = get_prop k (vs_data vs).
Proof.
  intros Hvirt. revert vs. induction ks as [| k' r IH]; intros vs; [done |].
  simpl. rewrite IH. apply step_data. by right.
Qed.

Lemma loop_keeps ks vs k :
  is_Some (get_prop k (vs_errors vs)) ->
  is_Some (get_prop k (vs_errors (fold_left step ks vs))).
Proof.
  revert vs. induction ks as [| k' r IH]; intros vs H; [done |].
  simpl. by apply IH, step_errors_keeps.
Qed.

Lemma loop_required ks vs k v d :
  get_prop k (vs_data vs) = Some v -> valueIsEmpty v = true ->
  paths s !! k = Some d -> d_required d = Some (VBool true) ->
  virtuals s !! k = None -> k ∈ ks ->
  is_Some (get_prop k (vs_errors (fold_left step ks vs)))
  /\ ((forall rule, d_validate d = Some rule -> truthy v = true -> validator rule v = true) ->
      (forall allowed, d_values d = Some allowed ->
         strict_eq v (VStr "") = true \/ 0 <= indexOf allowed v) ->
      k <> "properties" -> k <> "datetime" ->
      get_prop k (vs_errors (fold_left step ks vs)) = Some (required_error k)).
Proof.
  intros Hv He Hd Hr Hvirt. revert vs Hv.
  induction ks as [| k' r IH]; intros vs Hv Hin; [by apply elem_of_nil in Hin |].
  simpl.
  assert (get_prop k (vs_data (step vs k')) = Some v) as Hv'
    by (rewrite step_data; [done | by right]).
  destruct (decide (k ∈ r)) as [Hr' | Hnr]; [by apply IH |].
  apply elem_of_cons in Hin as [<- | ?]; [| done].
  destruct (step_required vs k v d Hv He Hd Hr Hvirt) as [Hsome Hreq].
  split; [by apply loop_keeps |].
  intros Hfmt Hvals Hp Hdt. specialize (Hreq Hfmt Hvals).
  clear IH. revert Hreq Hnr. generalize (step vs k). clear -Hp Hdt.
  induction r as [| k' r IH]; intros vs Hreq Hnr; [done |].
  simpl. apply IH.
  - rewrite step_errors_other; [done | | done | done].
    intros ->. apply Hnr. by left.
  - intros ?. apply Hnr. by right.
Qed.

Lemma loop_not_required ks vs k v :
  is_Some (virtuals s !! k)
  \/ (get_prop k (vs_data vs) = Some v /\ valueIsEmpty v = false) ->
  not_required (get_prop k (vs_errors vs)) ->
  not_required (get_prop k (vs_errors (fold_left step ks vs))).
Proof.
  revert vs. induction ks as [| k' r IH]; intros vs Hk H; [done |].
  simpl. apply IH.
  - destruct Hk as [Hk | [Hv Hne]]; [by left |].
    destruct (virtuals s !! k) eqn:Hvirt; [by left |].
    right. split; [| done]. rewrite step_data; [done | by right].
  - apply step_not_required; [| done].
    intros ->. destruct Hk as [Hk | [Hv Hne]]; [by left | right; eauto].
Qed.

End ValidateFacts.




End ModelFacts.

(** ** More of the schema registry *)

Module SchemaMore.
Import JS Datastore Heap Schema SchemaFacts.

(** Setting a path and reading it back gives the descriptor set, and the
    other paths read as before. *)
Theorem path_set_then_get (name : string) (d : descriptor) (s : schema) :
  reserved name = false ->
  exists s',
    path_set name d s = Ok s'
    /\ path_get name s' = PathDescriptor d
    /\ forall other, other <> name -> path_get other s' = path_get other s.
Proof.
  intros Hr. unfold path_set. rewrite Hr. eexists. split; [reflexivity |].
  unfold path_get. simpl. rewrite lookup_insert_eq. split; [done |].
  intros other Hne. by rewrite lookup_insert_ne.
Qed.

(** A path [nickname] set on the schema of [name] reads back. *)
Lemma path_set_then_get_witness :
  reserved "nickname" = false
  /\ exists s',
       path_set "nickname" empty_descriptor (Scenarios.schema_with Scenarios.required_name)
       = Ok s'
       /\ path_get "nickname" s' = PathDescriptor empty_descriptor
       /\ path_get "name" s' = PathDescriptor Scenarios.required_name.
Proof.
  split; [reflexivity |].
  destruct (path_set_then_get "nickname" empty_descriptor
              (Scenarios.schema_with Scenarios.required_name) eq_refl)
    as (s' & Hs & Hget & Hother).
  exists s'. split; [exact Hs |]. split; [exact Hget |].
  rewrite Hother by discriminate. reflexivity.
Defined.

Lemma vivify_assign_eq h q m : h <> "__proto__" -> vivify h (assign h q m) = q.
Proof.
  intros Hh. unfold vivify. rewrite own_ordinary, assign_ordinary by done.
  by rewrite lookup_insert_eq.
Qed.

Lemma vivify_assign_ne h hook q m :
  hook <> h -> h <> "__proto__" -> vivify h (assign hook q m) = vivify h m.
Proof.
  intros Hne Hh. unfold vivify, assign. rewrite !own_ordinary by done.
  destruct (String.eqb hook "__proto__"); [done |]. by rewrite lookup_insert_ne.
Qed.

Lemma queue_of_pre hook fn s s' h :
  pre hook fn s = Ok s' -> h <> "__proto__" ->
  queue_of s' h
  = if String.eqb hook h then queue_push_pre fn (queue_of s h) else queue_of s h.
Proof.
  intros Hpre Hh. unfold pre in Hpre. unfold queue_of.
  destruct (String.eqb_spec hook h) as [-> | Hne].
  - destruct (IS_ENTITY_HOOK h); destruct (shadowed _); try done;
      injection Hpre as <-; simpl; by rewrite vivify_assign_eq.
  - destruct (IS_ENTITY_HOOK hook), (IS_ENTITY_HOOK h); destruct (shadowed _); try done;
      injection Hpre as <-; simpl; try done; by rewrite vivify_assign_ne.
Qed.

Lemma queue_of_post hook fn s s' h :
  post_ hook fn s = Ok s' -> h <> "__proto__" ->
  queue_of s' h
  = if String.eqb hook h then queue_push_post fn (queue_of s h) else queue_of s h.
Proof.
  intros Hpost Hh. unfold post_ in Hpost. unfold queue_of.
  destruct (String.eqb_spec hook h) as [-> | Hne].
  - destruct (IS_ENTITY_HOOK h); destruct (shadowed _); try done;
      injection Hpost as <-; simpl; by rewrite vivify_assign_eq.
  - destruct (IS_ENTITY_HOOK hook), (IS_ENTITY_HOOK h); destruct (shadowed _); try done;
      injection Hpost as <-; simpl; try done; by rewrite vivify_assign_ne.
Qed.

(** One call that returns appends its function to the list it names and
    to no other. *)
Lemma register_queue s r s' h :
  register s r = Ok s' -> h <> "__proto__" ->
  pres (queue_of s' h) = (pres (queue_of s h) ++ registered_pre h [r])%list
  /\ post (queue_of s' h) = (post (queue_of s h) ++ registered_post h [r])%list.
Proof.
  intros Hr Hh. destruct r as [hook fn | hook fn]; simpl in *.
  - rewrite (queue_of_pre hook fn s s' h Hr Hh).
    destruct (String.eqb hook h); simpl; by rewrite !app_nil_r.
  - rewrite (queue_of_post hook fn s s' h Hr Hh).
    destruct (String.eqb hook h); simpl; by rewrite !app_nil_r.
Qed.

Lemma registered_pre_cons h r rs :
  registered_pre h (r :: rs) = (registered_pre h [r] ++ registered_pre h rs)%list.
Proof. unfold registered_pre. simpl. by destruct r as [h' fn | h' fn]; [destruct (String.eqb h' h) |]. Qed.

Lemma registered_post_cons h r rs :
  registered_post h (r :: rs) = (registered_post h [r] ++ registered_post h rs)%list.
Proof. unfold registered_post. simpl. by destruct r as [h' fn | h' fn]; [| destruct (String.eqb h' h)]. Qed.

Lemma register_all_queue rs s s' h :
  register_all rs s = Ok s' -> h <> "__proto__" ->
  pres (queue_of s' h) = (pres (queue_of s h) ++ registered_pre h rs)%list
  /\ post (queue_of s' h) = (post (queue_of s h) ++ registered_post h rs)%list.
Proof.
  intros Hall Hh. revert s Hall. induction rs as [| r rs IH]; intros s Hall.
  - injection Hall as <-. simpl. by rewrite !app_nil_r.
  - simpl in Hall. destruct (register s r) as [s1 | m] eqn:Hr; [| done].
    destruct (IH s1 Hall) as [-> ->].
    destruct (register_queue s r s1 h Hr Hh) as [-> ->].
    rewrite (registered_pre_cons h r rs), (registered_post_cons h r rs).
    by rewrite <- !app_assoc.
Qed.

(** On a schema as its constructor leaves it, a run of [pre] and [post]
    calls that returns gives every hook name other than [__proto__] its
    functions in the order of the calls, the pre and the post functions
    apart; before the pre functions of [save] stands the validation
    middleware the constructor registered.  A call under [__proto__]
    changes no table, and a call that follows one under
    [hasOwnProperty] and goes to the same table throws. *)
Theorem hooks_keep_registration_order (obj : list (string * descriptor))
    (opts : option options) (s s' : schema) (rs : list registration) (h : string) :
  constructor obj opts = Ok s ->
  register_all rs s = Ok s' ->
  h <> "__proto__" ->
  pres (queue_of s' h)
  = ((if String.eqb h "save" then [ValidateBeforeSave] else [])
     ++ registered_pre h rs)%list
  /\ post (queue_of s' h) = registered_post h rs
  /\ (forall fn, register s' (RegPre "__proto__" fn) = Ok s'
                 \/ register s' (RegPre "__proto__" fn) = Throw "TypeError")
  /\ (forall fn s1 r, register s' (RegPre "hasOwnProperty" fn) = Ok s1 ->
        IS_ENTITY_HOOK match r with RegPre k _ | RegPost k _ => k end = true ->
        register s1 r = Throw "TypeError").
Proof.
  intros Hs Hall Hh. destruct (register_all_queue rs s s' h Hall Hh) as [-> ->].
  unfold constructor in Hs. destruct (declare_paths obj ∅) as [p | m]; [| discriminate].
  cbv zeta in Hs. rewrite pre_save_new in Hs. injection Hs as <-.
  split; [| split; [| split]].
  - unfold queue_of, vivify. rewrite own_ordinary by done.
    destruct (String.eqb_spec h "save") as [-> | Hne]; [done |]. simpl.
    destruct (IS_ENTITY_HOOK h); [by rewrite lookup_singleton_ne | by rewrite lookup_empty].
  - unfold queue_of, vivify. rewrite own_ordinary by done. simpl.
    destruct (IS_ENTITY_HOOK h).
    + destruct (decide (h = "save")) as [-> | Hne]; [done | by rewrite lookup_singleton_ne].
    + by rewrite lookup_empty.
  - intros fn. simpl. unfold pre. simpl.
    destruct (shadowed (cq_entity (callQueue s'))); [by right | left].
    by destruct s' as [? ? ? ? ? [? ?] ?].
  - intros fn s1 r Hreg Hent. simpl in Hreg. unfold pre in Hreg. simpl in Hreg.
    destruct (shadowed (cq_entity (callQueue s'))); [done |]. injection Hreg as <-.
    assert (Hsh : shadowed (assign "hasOwnProperty"
                              (queue_push_pre fn (vivify "hasOwnProperty"
                                                    (cq_entity (callQueue s'))))
                              (cq_entity (callQueue s'))) = true).
    { unfold shadowed. rewrite assign_ordinary by done.
      rewrite lookup_insert_eq. by apply bool_decide_eq_true_2. }
    destruct r as [k g | k g]; simpl in *; unfold pre, post_; simpl;
      by rewrite Hent, Hsh.
Qed.

(** Two functions registered before [save] follow the validation. *)
Lemma hooks_keep_registration_order_witness :
  exists s s',
    constructor Scenarios.two_paths None = Ok s
    /\ register_all Scenarios.some_registrations s = Ok s'
    /\ pres (queue_of s' "save") = [ValidateBeforeSave; UserFn 1; UserFn 3]
    /\ post (queue_of s' "delete") = [UserFn 2].
Proof.
  eexists. eexists. split; [reflexivity |]. split; [reflexivity |].
  split.
  - apply (hooks_keep_registration_order Scenarios.two_paths None _ _
             Scenarios.some_registrations "save" eq_refl eq_refl). discriminate.
  - apply (hooks_keep_registration_order Scenarios.two_paths None _ _
             Scenarios.some_registrations "delete" eq_refl eq_refl). discriminate.
Defined.

Lemma method_entries_lookup (entries : list (string * member)) (m : gmap string nat)
    (k : string) :
  (k = "__proto__" \/ forall f, (k, Fn f) ∉ entries) ->
  fold_left method_entry entries m !! k = m !! k.
Proof.
  revert m. induction entries as [| [k' v] entries IH]; intros m Hno; [done |].
  simpl. rewrite IH.
  - destruct v as [f |]; [| done]. simpl. unfold assign.
    destruct (String.eqb_spec k' "__proto__") as [-> | Hk']; [done |].
    rewrite lookup_insert_ne; [done |].
    intros ->. destruct Hno as [-> | Hno]; [done |]. apply (Hno f). left.
  - destruct Hno as [-> | Hno]; [by left | right].
    intros f Hin. apply (Hno f). by right.
Qed.



(** Whatever [schema.method] is given, a method the table holds after the
    call was there before or is a function the call supplied, under the
    name it was supplied with. *)
Theorem method_stores_only_supplied_functions (name : method_arg) (fn : member)
    (s s' : schema) (k : string) (f : nat) :
  method name fn s = Ok s' ->
  methods s' !! k = Some f ->
  methods s !! k = Some f
  \/ (name = MethodName k /\ fn = Fn f)
  \/ (exists entries, name = MethodTable entries /\ (k, Fn f) ∈ entries).
Proof.
  intros Hm Hk. destruct name as [n | entries | |]; simpl in Hm.
  - destruct fn as [g |]; injection Hm as <-; [| by left].
    simpl in Hk. unfold assign in Hk.
    destruct (String.eqb n "__proto__"); [by left |].
    destruct (decide (n = k)) as [-> | Hne].
    + rewrite lookup_insert_eq in Hk. injection Hk as ->. right. left. done.
    + rewrite lookup_insert_ne in Hk by done. by left.
  - injection Hm as <-. simpl in Hk.
    assert (Hgen : forall m, fold_left method_entry entries m !! k = Some f ->
                     m !! k = Some f \/ (k, Fn f) ∈ entries).
    { clear. induction entries as [| [k' v] entries IH]; intros m Hk; [by left |].
      simpl in Hk. destruct (IH _ Hk) as [Hm | Hin].
      - destruct v as [g |]; [| by left]. simpl in Hm. unfold assign in Hm.
        destruct (String.eqb k' "__proto__"); [by left |].
        destruct (decide (k' = k)) as [-> | Hne].
        + rewrite lookup_insert_eq in Hm. injection Hm as ->. right. left.
        + rewrite lookup_insert_ne in Hm by done. by left.
      - right. by right. }
    destruct (Hgen _ Hk) as [? | ?]; [by left |]. right. right. by exists entries.
  - discriminate.
  - injection Hm as <-. by left.
Qed.

(** A number given under a name stores nothing. *)
Lemma method_stores_only_supplied_functions_witness :
  method (MethodName "doSomething") (Fn 7)
         (Scenarios.schema_with Scenarios.required_name)
  = Ok (set_methods (Scenarios.schema_with Scenarios.required_name)
                    {["doSomething" := 7%nat]})
  /\ (methods (Scenarios.schema_with Scenarios.required_name) !! "doSomething"
      = Some 7%nat
      \/ (MethodName "doSomething" = MethodName "doSomething" /\ Fn 7 = Fn 7)
      \/ (exists entries, MethodName "doSomething" = MethodTable entries
                          /\ ("doSomething", Fn 7) ∈ entries)).
Proof.
  split; [reflexivity |].
  apply (method_stores_only_supplied_functions (MethodName "doSomething") (Fn 7)
           (Scenarios.schema_with Scenarios.required_name) _ "doSomething" 7%nat
           eq_refl).
  reflexivity.
Defined.

(** Handles of virtuals with different names are different objects: on a
    schema without a virtual named [hasOwnProperty], whose handles are
    allocated and belong to one name each, two declarations under
    different names, the first of them not [hasOwnProperty], return
    different handles, and each name other than [__proto__] keeps its
    own. *)
Theorem virtual_handles_apart (n1 n2 : string) (s : schema) (st : store) :
  (forall n h, virtuals s !! n = Some h -> is_Some (st !! h)) ->
  (forall a b h, virtuals s !! a = Some h -> virtuals s !! b = Some h -> a = b) ->
  virtuals s !! "hasOwnProperty" = None ->
  n1 <> "hasOwnProperty" ->
  n1 <> n2 ->
  exists h1 s1 st1 h2 s2 st2,
    virtual n1 s st = Ok (h1, s1, st1)
    /\ virtual n2 s1 st1 = Ok (h2, s2, st2)
    /\ h1 <> h2
    /\ (n1 <> "__proto__" -> virtuals s2 !! n1 = Some h1)
    /\ (n2 <> "__proto__" -> virtuals s2 !! n2 = Some h2).
Proof.
  intros Halloc Hinj Hown Hn1 Hne.
  assert (Hsh : shadowed (virtuals s) = false) by (by apply shadowed_false).
  assert (Hfresh : forall n h, virtuals s !! n = Some h -> h <> fresh (dom st)).
  { intros n h Hn Heq. destruct (Halloc n h Hn) as [o Ho].
    pose proof (fresh_absent st). congruence. }
  assert (Hown_in : forall (m : gmap string loc) n h, own m n = Some h -> m !! n = Some h).
  { intros m n h. unfold own. by destruct (String.eqb n "__proto__"). }
  assert (Hstep : forall n (s0 : schema) (st0 : store),
             shadowed (virtuals s0) = false ->
             exists h s1 st1,
               virtual n s0 st0 = Ok (h, s1, st1)
               /\ ((own (virtuals s0) n = Some h /\ s1 = s0 /\ st1 = st0)
                   \/ (own (virtuals s0) n = None /\ h = fresh (dom st0)
                       /\ s1 = set_virtuals s0 (assign n h (virtuals s0))
                       /\ st1 = <[h := VirtualType n]> st0))).
  { intros n s0 st0 Hs0. destruct (own (virtuals s0) n) as [h |] eqn:Ho.
    - exists h, s0, st0. split; [by apply virtual_declared | by left].
    - do 3 eexists. split; [by apply virtual_new |]. right. done. }
  destruct (Hstep n1 s st Hsh) as (h1 & s1 & st1 & Hv1 & Hc1).
  assert (Hsh1 : shadowed (virtuals s1) = false).
  { destruct Hc1 as [(_ & -> & _) | (_ & _ & -> & _)]; [done |].
    apply shadowed_false. simpl. unfold assign.
    destruct (String.eqb n1 "__proto__"); [done |]. by rewrite lookup_insert_ne. }
  destruct (Hstep n2 s1 st1 Hsh1) as (h2 & s2 & st2 & Hv2 & Hc2).
  exists h1, s1, st1, h2, s2, st2. split; [done |]. split; [done |].
  destruct Hc1 as [(Ho1 & -> & ->) | (Ho1 & -> & -> & ->)].
  - apply Hown_in in Ho1.
    destruct Hc2 as [(Ho2 & -> & ->) | (Ho2 & -> & -> & ->)].
    + apply Hown_in in Ho2. split; [| by split].
      intros ->. by apply Hne, (Hinj n1 n2 h2).
    + split; [by apply (Hfresh n1) |]. simpl. split.
      * intros _. unfold assign. destruct (String.eqb n2 "__proto__"); [done |].
        by rewrite lookup_insert_ne.
      * intros Hp. rewrite assign_ordinary by done. apply lookup_insert_eq.
  - destruct Hc2 as [(Ho2 & -> & ->) | (Ho2 & -> & -> & ->)].
    + apply Hown_in in Ho2. simpl in Ho2. split; [| split].
      * unfold assign in Ho2. destruct (String.eqb n1 "__proto__").
        -- intros Heq. apply (Hfresh n2 h2); [done | by symmetry].
        -- rewrite lookup_insert_ne in Ho2 by done.
           intros Heq. apply (Hfresh n2 h2); [done | by symmetry].
      * intros Hp. simpl. rewrite assign_ordinary by done. apply lookup_insert_eq.
      * done.
    + split; [| split].
      * intros Heq.
        pose proof (fresh_absent (<[fresh (dom st) := VirtualType n1]> st)) as Hf.
        rewrite <- Heq, lookup_insert_eq in Hf. discriminate.
      * intros Hp. simpl. rewrite (assign_ordinary _ n1) by done.
        unfold assign. destruct (String.eqb n2 "__proto__"); [apply lookup_insert_eq |].
        rewrite lookup_insert_ne by done. apply lookup_insert_eq.
      * intros Hp. simpl. rewrite (assign_ordinary _ n2) by done. apply lookup_insert_eq.
Qed.

(** Two virtuals declared on a schema that has none. *)
Lemma virtual_handles_apart_witness :
  exists h1 s1 st1 h2 s2 st2,
    virtual "fullname" Scenarios.indexed_schema ∅ = Ok (h1, s1, st1)
    /\ virtual "initials" s1 st1 = Ok (h2, s2, st2)
    /\ h1 <> h2
    /\ virtuals s2 !! "fullname" = Some h1
    /\ virtuals s2 !! "initials" = Some h2.
Proof.
  destruct (virtual_handles_apart "fullname" "initials" Scenarios.indexed_schema ∅)
    as (h1 & s1 & st1 & h2 & s2 & st2 & H1 & H2 & Hne & Hk1 & Hk2).
  - intros n h H. unfold Scenarios.indexed_schema in H. simpl in H.
    by rewrite lookup_empty in H.
  - intros a b h H. unfold Scenarios.indexed_schema in H. simpl in H.
    by rewrite lookup_empty in H.
  - reflexivity.
  - discriminate.
  - discriminate.
  - exists h1, s1, st1, h2, s2, st2. split; [exact H1 |]. split; [exact H2 |].
    split; [exact Hne |]. split; [apply Hk1; discriminate | apply Hk2; discriminate].
Defined.

End SchemaMore.

(** ** More of the model *)

Module ModelMore.
Import JS Datastore Heap Schema Model SchemaFacts JSFacts ModelFacts.

(** *** Model.excludeFromIndexes *)

Lemma set_paths_same (s : schema) : set_paths s (paths s) = s.
Proof. by destruct s. Qed.

Section ExcludeMore.

Variable alias : gmap string loc.

Lemma shares_same p : shares alias p p = true.
Proof. unfold shares. by rewrite String.eqb_refl. Qed.

Lemma shares_unknown p q : alias !! p = None -> shares alias p q = String.eqb p q.
Proof. intros H. unfold shares. rewrite H. by rewrite orb_false_r. Qed.

Lemma shares_known p q : shares alias p q = true -> p = q \/ is_Some (alias !! q).
Proof.
  unfold shares. intros H. apply orb_true_iff in H as [H | H].
  - left. by apply String.eqb_eq.
  - right. by destruct (alias !! p), (alias !! q).
Qed.

Lemma mark_in_place_lookup p m q :
  mark_in_place alias p m !! q
  = (fun d => if shares alias p q then mark_excluded d else d) <$> m !! q.
Proof. unfold mark_in_place. rewrite map_lookup_imap. by destruct (m !! q). Qed.

(** One round on a name that is declared or not reserved. *)
Lemma exclude_one_paths (s : schema) (p : string) :
  (forall q, is_Some (alias !! q) -> is_Some (paths s !! q)) ->
  reserved p = false \/ is_Some (paths s !! p) ->
  exists s1,
    exclude_one alias s p = Ok (s1, alias)
    /\ (forall q, paths s1 !! q
                  = if shares alias p q then Some (marked s q) else paths s !! q)
    /\ (forall q, is_Some (alias !! q) -> is_Some (paths s1 !! q)).
Proof.
  intros Hwf Hok. unfold exclude_one.
  destruct (paths s !! p) as [d |] eqn:Hp.
  - eexists. split; [reflexivity |].
    assert (Hq : forall q, paths (set_paths s (mark_in_place alias p (paths s))) !! q
                           = if shares alias p q then Some (marked s q) else paths s !! q).
    { intros q. simpl. rewrite mark_in_place_lookup. unfold marked.
      destruct (paths s !! q) as [dq |] eqn:Hq; simpl;
        destruct (shares alias p q) eqn:Hs; try done.
      exfalso. destruct (shares_known p q Hs) as [-> | Ha]; [congruence |].
      destruct (Hwf q Ha) as [? ?]. congruence. }
    split; [exact Hq |]. intros q Ha. rewrite Hq.
    destruct (shares alias p q); [done | by apply Hwf].
  - assert (Ha : alias !! p = None).
    { destruct (alias !! p) eqn:E; [| done].
      destruct (Hwf p) as [? ?]; [done | congruence]. }
    destruct Hok as [Hr | [? ?]]; [| done].
    unfold path_set. rewrite Hr. rewrite delete_id by done.
    eexists. split; [reflexivity |].
    assert (Hq : forall q, paths (set_paths s (<[p := excluded_descriptor]> (paths s))) !! q
                           = if shares alias p q then Some (marked s q) else paths s !! q).
    { intros q. simpl. rewrite shares_unknown by done.
      destruct (String.eqb_spec p q) as [<- | Hne].
      - rewrite lookup_insert_eq. unfold marked. by rewrite Hp.
      - by rewrite lookup_insert_ne. }
    split; [exact Hq |]. intros q Hq'. rewrite Hq.
    destruct (shares alias p q); [done | by apply Hwf].
Qed.

Lemma marked_after_round (s s1 : schema) (p q : string) :
  paths s1 !! q = (if shares alias p q then Some (marked s q) else paths s !! q) ->
  marked s1 q = marked s q.
Proof.
  intros Hq. unfold marked at 1. rewrite Hq.
  destruct (shares alias p q); [| done].
  unfold marked. by destruct (paths s !! q).
Qed.

Lemma excludeFromIndexes_paths (properties : list string) (s : schema) :
  (forall q, is_Some (alias !! q) -> is_Some (paths s !! q)) ->
  Forall (fun p => reserved p = false \/ is_Some (paths s !! p)) properties ->
  exists s',
    excludeFromIndexes alias properties s = (s', alias, None)
    /\ forall q, paths s' !! q
                 = if existsb (fun p => shares alias p q) properties
                   then Some (marked s q) else paths s !! q.
Proof.
  revert s. induction properties as [| p0 r IH]; intros s Hwf Hall.
  - exists s. by split.
  - apply Forall_cons in Hall as [H0 Hall]. simpl.
    destruct (exclude_one_paths s p0 Hwf H0) as (s1 & -> & Hq1 & Hwf1).
    destruct (IH s1 Hwf1) as (s' & Hs' & Hq).
    { eapply Forall_impl; [exact Hall |]. intros p [? | [d Hd]]; [by left |]. right.
      rewrite Hq1. destruct (shares alias p0 p); [done | by rewrite Hd]. }
    exists s'. split; [done |]. intros q. rewrite Hq.
    rewrite (marked_after_round s s1 p0 q (Hq1 q)). rewrite Hq1.
    destruct (shares alias p0 q); simpl; [| done].
    by destruct (existsb _ r).
Qed.

Lemma excludeFromIndexes_fixed (properties : list string) (s : schema) :
  Forall (fun p => is_Some (paths s !! p)
                   /\ forall q d, shares alias p q = true -> paths s !! q = Some d ->
                        mark_excluded d = d) properties ->
  excludeFromIndexes alias properties s = (s, alias, None).
Proof.
  induction properties as [| p r IH]; intros Hall; [done |].
  apply Forall_cons in Hall as [[[d Hd] Hm] Hall]. simpl.
  unfold exclude_one. rewrite Hd.
  assert (mark_in_place alias p (paths s) = paths s) as ->.
  { apply map_eq. intros q. rewrite mark_in_place_lookup.
    destruct (paths s !! q) as [dq |] eqn:Hq; [| done]. simpl.
    destruct (shares alias p q) eqn:Hs; [| done]. by rewrite (Hm q dq). }
  rewrite set_paths_same. by apply IH.
Qed.

Lemma existsb_shares_false (properties : list string) (q : string) :
  (forall p, p ∈ properties -> shares alias p q = false) ->
  existsb (fun p => shares alias p q) properties = false.
Proof.
  induction properties as [| p r IH]; intros H; [done |]. simpl.
  rewrite H by left. apply IH. intros p' Hin. apply H. by right.
Qed.

Lemma existsb_shares_true (properties : list string) (p q : string) :
  p ∈ properties -> shares alias p q = true ->
  existsb (fun p => shares alias p q) properties = true.
Proof.
  intros Hin Hs. apply existsb_exists. exists p. split; [by apply list_elem_of_In | done].
Qed.

(** [Model.excludeFromIndexes], given names that are declared or not
    reserved, throws nothing and leaves each of them excluded from the
    indexes: a declared path keeps the rest of its descriptor, an
    undeclared one is declared optional.  The declared paths that hold
    the descriptor object of a listed path are excluded with it; every
    path that is not listed and shares no object with a listed one is
    unchanged.  A second call with the same names changes nothing. *)
Theorem excludeFromIndexes_marks (properties : list string) (s : schema) :
  (forall q, is_Some (alias !! q) -> is_Some (paths s !! q)) ->
  Forall (fun p => reserved p = false \/ is_Some (paths s !! p)) properties ->
  exists s',
    excludeFromIndexes alias properties s = (s', alias, None)
    /\ (forall q, paths s' !! q
                  = if existsb (fun p => shares alias p q) properties
                    then Some (marked s q) else paths s !! q)
    /\ (forall p, p ∈ properties ->
          exists d, paths s' !! p = Some d
                    /\ d_excludeFromIndexes d = Some (VBool true)
                    /\ (forall d0, paths s !! p = Some d0 -> d = mark_excluded d0)
                    /\ (paths s !! p = None -> d = excluded_descriptor))
    /\ (forall q, (forall p, p ∈ properties -> shares alias p q = false) ->
          paths s' !! q = paths s !! q)
    /\ excludeFromIndexes alias properties s' = (s', alias, None).
Proof.
  intros Hwf Hall.
  destruct (excludeFromIndexes_paths properties s Hwf Hall) as (s' & Hs' & Hp).
  exists s'. split; [done |]. split; [done |]. split; [| split].
  - intros p Hin. exists (marked s p).
    rewrite Hp, (existsb_shares_true properties p p Hin (shares_same p)).
    split; [done |]. unfold marked. split; [by destruct (paths s !! p) |].
    split; [by intros d0 -> | by intros ->].
  - intros q Hnone. by rewrite Hp, existsb_shares_false.
  - apply excludeFromIndexes_fixed. apply Forall_forall. intros p Hin. split.
    + rewrite Hp, (existsb_shares_true properties p p Hin (shares_same p)). done.
    + intros q d Hs Hq. rewrite Hp, (existsb_shares_true properties p q Hin Hs) in Hq.
      injection Hq as <-. unfold marked. by destruct (paths s !! q).
Qed.

Lemma excludeFromIndexes_runs (before : list string) (al : gmap string loc) (s : schema) :
  Forall (fun q => reserved q = false \/ is_Some (paths s !! q)) before ->
  exists s' al',
    excludeFromIndexes al before s = (s', al', None)
    /\ forall q, q ∉ before -> paths s !! q = None -> paths s' !! q = None.
Proof.
  revert al s. induction before as [| p r IH]; intros al s Hall.
  - exists s, al. by split.
  - apply Forall_cons in Hall as [H0 Hall]. simpl. unfold exclude_one.
    destruct (paths s !! p) as [d |] eqn:Hp.
    + destruct (IH al (set_paths s (mark_in_place al p (paths s)))) as (s' & al' & Hs' & Hq).
      { eapply Forall_impl; [exact Hall |]. intros q [? | [dq Hdq]]; [by left |]. right.
        simpl. unfold mark_in_place. rewrite map_lookup_imap, Hdq. done. }
      exists s', al'. split; [done |]. intros q Hnin Hnone. apply Hq.
      * intros ?. apply Hnin. by right.
      * simpl. unfold mark_in_place. by rewrite map_lookup_imap, Hnone.
    + destruct H0 as [Hr | [? ?]]; [| done]. unfold path_set. rewrite Hr.
      destruct (IH (base.delete p al) (set_paths s (<[p := excluded_descriptor]> (paths s))))
        as (s' & al' & Hs' & Hq).
      { eapply Forall_impl; [exact Hall |]. intros q [? | [dq Hdq]]; [by left |]. right.
        simpl. destruct (decide (p = q)) as [-> | Hne].
        - by rewrite lookup_insert_eq.
        - by rewrite lookup_insert_ne, Hdq. }
      exists s', al'. split; [done |]. intros q Hnin Hnone. apply Hq.
      * intros ?. apply Hnin. by right.
      * simpl. rewrite lookup_insert_ne; [done |]. intros ->. apply Hnin. left.
Qed.

(** An undeclared reserved name makes [Model.excludeFromIndexes] throw
    the schema's pathname error when it is reached; the names listed
    before it have been excluded by then and stay so. *)
Theorem excludeFromIndexes_stops_at_reserved (before after : list string)
    (p : string) (s : schema) :
  Forall (fun q => reserved q = false \/ is_Some (paths s !! q)) before ->
  reserved p = true ->
  paths s !! p = None ->
  p ∉ before ->
  exists s' alias',
    excludeFromIndexes alias (before ++ p :: after) s = (s', alias', Some (pathname_error p))
    /\ excludeFromIndexes alias before s = (s', alias', None).
Proof.
  intros Hall Hr Hp Hnin.
  destruct (excludeFromIndexes_runs before alias s Hall) as (s' & al' & Hs' & Hpaths).
  exists s', al'. split; [| done].
  assert (Hp' : paths s' !! p = None) by (by apply Hpaths).
  clear Hpaths Hall Hnin Hp. revert s Hs'. generalize alias.
  induction before as [| q r IH]; intros al s Hs'.
  - simpl in Hs'. injection Hs' as -> ->. simpl. unfold exclude_one, path_set.
    by rewrite Hp', Hr.
  - simpl in *. destruct (exclude_one al s q) as [[s1 al1] | m]; [by apply IH | done].
Qed.

End ExcludeMore.

(** [first] and [last] hold one descriptor object: excluding [first]
    excludes [last]; [email] stays, and [biography] is declared. *)
Lemma excludeFromIndexes_marks_witness :
  exists s',
    excludeFromIndexes Scenarios.shared_alias ["first"; "biography"] Scenarios.shared_schema
    = (s', Scenarios.shared_alias, None)
    /\ paths s' !! "first" = Some (mark_excluded Scenarios.required_name)
    /\ paths s' !! "last" = Some (mark_excluded Scenarios.required_name)
    /\ paths s' !! "biography" = Some excluded_descriptor
    /\ paths s' !! "email" = Some empty_descriptor.
Proof.
  destruct (excludeFromIndexes_marks Scenarios.shared_alias ["first"; "biography"]
              Scenarios.shared_schema) as (s' & Hs & Hq & _).
  - intros q [l Hl]. apply (bool_decide_unpack _).
    destruct (decide (q = "first")) as [-> | H1]; [by vm_compute |].
    destruct (decide (q = "last")) as [-> | H2]; [by vm_compute |].
    exfalso. unfold Scenarios.shared_alias in Hl.
    by rewrite lookup_insert_ne, lookup_singleton_ne in Hl.
  - repeat constructor.
  - exists s'. split; [exact Hs |]. rewrite !Hq. repeat split.
Defined.

(** [name] is excluded before the reserved [save] stops the call. *)
Lemma excludeFromIndexes_stops_at_reserved_witness :
  exists s' alias',
    excludeFromIndexes ∅ (["name"] ++ "save" :: ["email"]) Scenarios.indexed_schema
    = (s', alias', Some (pathname_error "save"))
    /\ excludeFromIndexes ∅ ["name"] Scenarios.indexed_schema = (s', alias', None).
Proof.
  apply (excludeFromIndexes_stops_at_reserved ∅ ["name"] ["email"] "save"
           Scenarios.indexed_schema).
  - repeat constructor.
  - reflexivity.
  - reflexivity.
  - intros H. apply elem_of_cons in H as [H | H]; [discriminate |].
    by apply elem_of_nil in H.
Defined.

(** *** Model.key and the identifiers of get, update and delete *)

(** [Model.key] given an array builds, in the order of the array, the
    keys it builds for the elements one at a time; an element that is
    [undefined] or [null] gets the partial key. *)
Theorem key_batch_pointwise (toS : number -> string) (kind : string)
    (ids : list ident) (ancestors : option (list ident)) (namespace : option string) :
  exists ks,
    key toS kind (Many ids) ancestors namespace = ManyKeys ks
    /\ Forall2 (fun i k => key toS kind (One i) ancestors namespace = OneKey k) ids ks
    /\ Forall2 (fun i k =>
                  key_namespace k = namespace
                  /\ key_path k
                     = (default [] ancestors
                        ++ IdStr kind :: if absent i then [] else [parseId_ident toS i])%list)
               ids ks.
Proof.
  eexists. split; [reflexivity |]. split.
  - induction ids as [| i r IH]; simpl; constructor; [| exact IH].
    unfold key. destruct (absent i) eqn:E; [| done].
    unfold getKey, getPath. rewrite E. by destruct i.
  - induction ids as [| i r IH]; simpl; constructor; [| exact IH].
    unfold getKey, getPath. destruct namespace, ancestors, (absent i); done.
Qed.

Lemma parseId_again toS (n : number) :
  (forall z, n = Whole z -> parseInt10 (toS (Whole z)) = Whole z) ->
  (forall a b, n <> Frac a b) ->
  parseId_ident toS (IdNum n) = IdNum n.
Proof.
  intros Hround Hfrac. unfold parseId_ident, parseId. simpl.
  destruct n as [z | a b | | neg]; simpl; try done.
  - by rewrite Hround.
  - by destruct (Hfrac a b).
Qed.

Lemma parseInt10_not_frac s a b : parseInt10 s <> Frac a b.
Proof.
  unfold parseInt10. destruct (strip_sign (trim_start s)) as [neg body].
  destruct (take_digits body) as [ds rest]. destruct ds; [done |].
  unfold round_double.
  repeat (match goal with |- context [if ?c then _ else _] => destruct c end); done.
Qed.

(** [get], [update] and [delete] pass their identifier through [parseId]
    before [Model.key] does so again.  For a string whose number prints
    back to a numeral [parseInt] reads as the same number, they ask for
    the key [Model.key] builds for the string; for [null], which
    [isFinite] accepts, they ask for a key with the identifier [NaN],
    where [Model.key] builds the partial key. *)
Theorem get_requests_key_of_parsed_id (toS : number -> string) (kind s : string)
    (ancestors : option (list ident)) (namespace : option string) :
  (forall z, parseInt10 s = Whole z -> parseInt10 (toS (Whole z)) = Whole z) ->
  get_requested toS kind (One (IdStr s)) ancestors namespace
  = key toS kind (One (IdStr s)) ancestors namespace
  /\ get_requested toS kind (One IdNull) ancestors namespace
     = OneKey (mkKey namespace (default [] ancestors ++ [IdStr kind; IdNum NaN])%list)
  /\ key toS kind (One IdNull) ancestors namespace
     = OneKey (mkKey namespace (default [] ancestors ++ [IdStr kind])%list).
Proof.
  intros Hround. split; [| split].
  - unfold get_requested, parseId. simpl.
    destruct (isFinite_string s) eqn:Hf; [| done].
    unfold key. simpl. unfold getKey, getPath. simpl.
    rewrite (parseId_again toS (parseInt10 s) Hround (parseInt10_not_frac s)).
    unfold parseId_ident, parseId. simpl. by rewrite Hf.
  - unfold get_requested, parseId. simpl.
    unfold key, getKey, getPath. simpl. by destruct namespace, ancestors.
  - unfold key, getKey, getPath. simpl. by destruct namespace, ancestors.
Qed.

(** The string [42] is requested under the key [Model.key] gives it. *)
Lemma get_requests_key_of_parsed_id_witness :
  get_requested Number_toString_int "User" (One (IdStr "42")) None None
  = OneKey (ds_key [IdStr "User"; IdNum (Whole 42)])
  /\ get_requested Number_toString_int "User" (One IdNull) None None
     = OneKey (ds_key [IdStr "User"; IdNum NaN]).
Proof.
  assert (Hround : forall z, parseInt10 "42" = Whole z ->
                     parseInt10 (Number_toString_int (Whole z)) = Whole z).
  { intros z H. vm_compute in H. injection H as <-. reflexivity. }
  destruct (get_requests_key_of_parsed_id Number_toString_int "User" "42" None None Hround)
    as (Hs & Hn & _).
  split; [rewrite Hs; reflexivity | exact Hn].
Defined.

(** *** Model.get with preserveOrder *)

Section SortMore.
Context {A : Type} (rank : A -> Z).

Local Abbreviation by_rank := (fun a b : A => rank a - rank b).
Local Abbreviation ranked := (fun a b : A => rank a <= rank b).

Lemma insert_sorted_last x l :
  Forall (fun y => rank y <= rank x) l -> insert_sorted by_rank x l = (l ++ [x])%list.
Proof.
  induction 1 as [| y r Hy Hr IH]; simpl; [done |].
  destruct (Z.ltb_spec 0 (rank y - rank x)); [lia |]. by rewrite IH.
Qed.

Lemma sort_from_ranked l acc :
  StronglySorted ranked (acc ++ l) ->
  fold_left (fun acc x => insert_sorted by_rank x acc) l acc = (acc ++ l)%list.
Proof.
  revert acc. induction l as [| x r IH]; intros acc Hs; simpl.
  - by rewrite app_nil_r.
  - rewrite insert_sorted_last.
    + rewrite IH; rewrite <- app_assoc; done.
    + apply Forall_forall. intros y Hy.
      apply (StronglySorted_app_1_elem_of ranked acc (x :: r) y x Hs Hy). left.
Qed.

(** The sort leaves an array alone that is in the comparator's order. *)
Lemma sort_ranked l : StronglySorted ranked l -> sort by_rank l = l.
Proof. intros Hs. unfold sort. by rewrite sort_from_ranked. Qed.

End SortMore.

(** With [preserveOrder], entities the backend returns in the order of
    their ranks come back as the backend returned them; entities with
    equal ranks, such as those of keys with names, all of rank -1, are
    never exchanged. *)
Theorem get_preserveOrder_keeps_ranked (toS : number -> string) (kind : string)
    (st : store) (ids : list ident) (anc : option (list ident)) (ns : option string)
    (arr : value) (rest items : list value) (es : list instance) :
  isFinite toS (Many ids) = false ->
  array_items st arr = Some items -> models_of_fetched st items = Some es ->
  StronglySorted (fun a b => id_rank ids a <= id_rank ids b) es ->
  get toS kind st (Many ids) anc ns None true (Resolved (arr :: rest))
  = CbOk (Multiple es).
Proof.
  intros Hf Hitems Hes Hs.
  unfold get, parseId. rewrite Hf. simpl. rewrite Hitems. simpl. rewrite Hes.
  simpl. do 2 f_equal. apply (sort_ranked (id_rank ids)). exact Hs.
Qed.

(** The users [a] and [b], requested as [b, a], come back as fetched. *)
Lemma get_preserveOrder_keeps_ranked_witness :
  get Number_toString_int "User" Scenarios.users_store
      (Many [IdStr "b"; IdStr "a"]) None None None true (Resolved [VRef 1%positive])
  = CbOk (Multiple [mkInstance (Some Scenarios.key_a) (VRef 2%positive);
                    mkInstance (Some Scenarios.key_b) (VRef 3%positive)]).
Proof.
  apply (get_preserveOrder_keeps_ranked Number_toString_int "User" Scenarios.users_store
           [IdStr "b"; IdStr "a"] None None (VRef 1%positive) []
           [VRef 2%positive; VRef 3%positive]).
  - reflexivity.
  - reflexivity.
  - reflexivity.
  - repeat constructor; vm_compute; discriminate.
Defined.

(** *** Model.update *)

Lemma callers_transaction_quiet toS model_save st id k t :
  forallb (fun ev => negb (is_run ev) && negb (is_commit ev))
          (fst (getInTransaction toS model_save false t st id k)) = true.
Proof.
  assert (Hon : forall c e, forallb (fun ev => negb (is_run ev) && negb (is_commit ev))
                              (fst (onTransaction c e)) = true).
  { intros c e. unfold onTransaction. destruct (some_truthy e); [by destruct e |].
    destruct (some_truthy (error c)); [by destruct (error c) | done]. }
  assert (Hroll : forall c, forallb (fun ev => negb (is_run ev) && negb (is_commit ev))
                              (fst (rollback_then_done false t c)) = true).
  { intros c. unfold rollback_then_done, done. destruct (t_rollback t) as [v | e]; [| done].
    specialize (Hon c (Some (Foreign v))). by destruct (onTransaction c _). }
  assert (Hsave : forall st' k' d, forallb (fun ev => negb (is_run ev) && negb (is_commit ev))
                    (fst (save_in_transaction model_save false t st' k' d)) = true).
  { intros st' k' d. unfold save_in_transaction.
    destruct (model_save k' d (Some t) st') as [[ent info] | e].
    - unfold done. specialize (Hon (mkClosure None ent) None).
      by destruct (onTransaction _ _).
    - specialize (Hroll (mkClosure (Some (Foreign e)) VUndefined)).
      by destruct (rollback_then_done _ _ _). }
  unfold getInTransaction. destruct (t_get t) as [[| entity more] | e].
  - destruct (update_not_found_message toS id) as [m |]; [| done].
    specialize (Hroll (mkClosure (Some (NotFound m)) VUndefined)).
    by destruct (rollback_then_done _ _ _).
  - destruct entity as [| | b | n | x | l]; try done.
    + specialize (Hsave st None (VBool b)). by destruct (save_in_transaction _ _ _ _ _ _).
    + specialize (Hsave st None (VNum n)). by destruct (save_in_transaction _ _ _ _ _ _).
    + specialize (Hsave st None (VStr x)). by destruct (save_in_transaction _ _ _ _ _ _).
    + match goal with |- context [save_in_transaction _ _ _ ?s ?k ?d] =>
        specialize (Hsave s k d); by destruct (save_in_transaction _ _ _ s k d) end.
  - unfold done. specialize (Hon (mkClosure (Some (Foreign e)) VUndefined) (Some (Foreign e))).
    by destruct (onTransaction _ _).
Qed.

(** Under a transaction of the caller, [update] neither runs nor commits
    it, whatever the lookup and the save come to: settling the
    transaction stays with the caller. *)
Theorem update_leaves_callers_transaction_open (toS : number -> string)
    (kind : string)
    (model_save : option keyres -> value -> option Transaction -> store
                  -> promise (value * value))
    (st : store) (id : idarg) (data : value) (anc : option (list ident))
    (ns : option string) (t : Transaction) (replace : bool) (fresh : Transaction) :
  forallb (fun ev => negb (is_run ev) && negb (is_commit ev))
          (fst (update toS kind model_save st id data anc ns (Some t) replace fresh)) = true.
Proof.
  unfold update. destruct replace.
  - unfold save_replace. by destruct (model_save _ _ _ _) as [[ent info] | e].
  - destruct (negb (String.eqb (t_ctor t) "Transaction")); [done |].
    apply callers_transaction_quiet.
Qed.

(** When the lookup finds the entity and its save succeeds, [update]
    under the caller's transaction emits [update] and calls back with the
    saved entity; under a transaction of its own it commits first, and
    calls back with the saved entity only when the commit resolves to
    nothing: any value the commit resolves to takes the place of the
    error. *)
Theorem update_found_and_saved (toS : number -> string) (kind : string)
    (model_save : option keyres -> value -> option Transaction -> store
                  -> promise (value * value))
    (st : store) (id : idarg) (data : value) (anc : option (list ident))
    (ns : option string) (tx : option Transaction) (fresh : Transaction)
    (l : loc) (o : object) (r cv ent info : value) :
  let t := default fresh tx in
  let k := key toS kind (parseId toS id) anc ns in
  let saved := EvModelSave (OneKey <$> o_key o) (VRef l) (Some (o_props o)) true in
  t_ctor t = "Transaction" -> t_run t = Resolved r ->
  t_get t = Resolved [VRef l] -> st !! l = Some o ->
  model_save (OneKey <$> o_key o) (VRef l) (Some t) st = Resolved (ent, info) ->
  t_commit t = Resolved cv ->
  update toS kind model_save st id data anc ns tx false fresh
  = match tx with
    | Some _ => ([EvGet k; saved; EvEmit "update"], CbOk ent)
    | None =>
        if truthy cv
        then ([EvRun; EvGet k; saved; EvCommit], CbError (Foreign cv))
        else ([EvRun; EvGet k; saved; EvCommit; EvEmit "update"], CbOk ent)
    end.
Proof.
  cbv zeta. intros Hc Hrun Hg Ho Hs Hcm.
  destruct tx as [t |]; cbv [default from_option Datatypes.id] in Hc, Hrun, Hg, Hs, Hcm;
    unfold update, getInTransaction; rewrite ?Hc, ?Hrun, Hg; simpl;
    rewrite extend_self by done; unfold save_in_transaction; rewrite Ho; simpl;
    rewrite Hs; simpl; [done |].
  rewrite Hcm. unfold onTransaction. simpl. by destruct (truthy cv).
Qed.

(** The update of entity 5 under a transaction of the caller, and under
    one that [update] opens and whose commit resolves to nothing. *)
Lemma update_found_and_saved_witness :
  update Number_toString_int "User" Scenarios.save_succeeds Scenarios.update_store
    (One (IdNum (Whole 5))) (VRef 4%positive) None None
    (Some (Scenarios.transaction_found VUndefined)) false
    (Scenarios.transaction_found VUndefined)
  = ([EvGet (OneKey Scenarios.key_5);
      EvModelSave (Some (OneKey Scenarios.key_5)) (VRef 2%positive)
        (Some [("y", VNum (Whole 2))]) true;
      EvEmit "update"],
     CbOk (VRef 2%positive)).
Proof.
  exact (update_found_and_saved Number_toString_int "User" Scenarios.save_succeeds
           Scenarios.update_store (One (IdNum (Whole 5))) (VRef 4%positive) None None
           (Some (Scenarios.transaction_found VUndefined))
           (Scenarios.transaction_found VUndefined)
           2%positive Scenarios.fetched_5 VUndefined VUndefined (VRef 2%positive) VUndefined
           eq_refl eq_refl eq_refl eq_refl eq_refl eq_refl).
Defined.

(** When the lookup itself fails with an error, [update] hands that
    error to the callback and issues nothing more: no save, no rollback
    and no commit, under the caller's transaction as under its own. *)
Theorem update_lookup_failure_reported (toS : number -> string) (kind : string)
    (model_save : option keyres -> value -> option Transaction -> store
                  -> promise (value * value))
    (st : store) (id : idarg) (data : value) (anc : option (list ident))
    (ns : option string) (tx : option Transaction) (fresh : Transaction)
    (r e : value) :
  let t := default fresh tx in
  let k := key toS kind (parseId toS id) anc ns in
  t_ctor t = "Transaction" -> t_run t = Resolved r ->
  t_get t = Rejected e -> truthy e = true ->
  update toS kind model_save st id data anc ns tx false fresh
  = (match tx with Some _ => [EvGet k] | None => [EvRun; EvGet k] end,
     CbError (Foreign e)).
Proof.
  cbv zeta. intros Hc Hrun Hg He.
  destruct tx as [t |]; cbv [default from_option Datatypes.id] in Hc, Hrun, Hg;
    unfold update, getInTransaction, done, onTransaction;
    rewrite ?Hc, ?Hrun, Hg; simpl; by rewrite He.
Qed.

(** A lookup that fails under a transaction [update] opened. *)
Lemma update_lookup_failure_reported_witness :
  update Number_toString_int "User" Scenarios.save_succeeds Scenarios.update_store
    (One (IdNum (Whole 5))) (VRef 4%positive) None None None false
    (Scenarios.transaction_failing (VStr "unavailable"))
  = ([EvRun; EvGet (OneKey Scenarios.key_5)], CbError (Foreign (VStr "unavailable"))).
Proof.
  exact (update_lookup_failure_reported Number_toString_int "User" Scenarios.save_succeeds
           Scenarios.update_store (One (IdNum (Whole 5))) (VRef 4%positive) None None None
           (Scenarios.transaction_failing (VStr "unavailable")) VUndefined
           (VStr "unavailable") eq_refl eq_refl eq_refl eq_refl).
Defined.

(** When the save of the fetched entity fails, [update] rolls the
    transaction back, however the rollback settles.  If the rollback
    rejects, the callback is never called.  If it resolves to a truthy
    value, that value reaches the callback as the error and no commit
    follows.  If it resolves to a falsy value, the callback receives the
    error of the save under the caller's transaction; under a
    transaction [update] opened a commit follows, and the callback
    receives what the commit resolves to when that is truthy, the error
    of the save when it is falsy, and is never called when the commit
    rejects. *)
Theorem update_failed_save_rolls_back (toS : number -> string) (kind : string)
    (model_save : option keyres -> value -> option Transaction -> store
                  -> promise (value * value))
    (st : store) (id : idarg) (data : value) (anc : option (list ident))
    (ns : option string) (tx : option Transaction) (fresh : Transaction)
    (l : loc) (o : object) (r e : value) :
  let t := default fresh tx in
  t_ctor t = "Transaction" -> t_run t = Resolved r ->
  t_get t = Resolved [VRef l] -> st !! l = Some o ->
  model_save (OneKey <$> o_key o) (VRef l) (Some t) st = Rejected e ->
  truthy e = true ->
  let res := update toS kind model_save st id data anc ns tx false fresh in
  existsb is_rollback (fst res) = true
  /\ snd res
     = match t_rollback t with
       | Rejected e' => Unhandled (Foreign e')
       | Resolved rv =>
           if truthy rv then CbError (Foreign rv)
           else
             match tx with
             | Some _ => CbError (Foreign e)
             | None =>
                 match t_commit t with
                 | Rejected e' => Unhandled (Foreign e')
                 | Resolved cv => CbError (Foreign (if truthy cv then cv else e))
                 end
             end
       end
  /\ existsb is_commit (fst res)
     = match tx, t_rollback t with
       | None, Resolved rv => negb (truthy rv)
       | _, _ => false
       end.
Proof.
  cbv zeta. intros Hc Hrun Hg Ho Hs He.
  destruct tx as [t |]; cbv [default from_option Datatypes.id] in Hc, Hrun, Hg, Hs |- *;
    unfold update, getInTransaction; rewrite ?Hc, ?Hrun, Hg; simpl;
    rewrite extend_self by done; unfold save_in_transaction; rewrite Ho; simpl;
    rewrite Hs; simpl; unfold rollback_then_done, done, onTransaction.
  - destruct (t_rollback t) as [rv | e']; simpl; [| done].
    destruct (truthy rv) eqn:Erv; simpl; rewrite ?He; simpl; done.
  - destruct (t_rollback fresh) as [rv | e']; simpl; [| done].
    destruct (truthy rv) eqn:Erv; simpl; [done |].
    destruct (t_commit fresh) as [cv | e']; simpl; [| done].
    destruct (truthy cv) eqn:Ecv; simpl; rewrite ?He; simpl; done.
Qed.

(** A save that fails under the caller's transaction, whose rollback
    resolves to nothing. *)
Lemma update_failed_save_rolls_back_witness :
  update Number_toString_int "User" Scenarios.save_fails Scenarios.update_store
    (One (IdNum (Whole 5))) (VRef 4%positive) None None
    (Some (Scenarios.transaction_found VUndefined)) false
    (Scenarios.transaction_found VUndefined)
  = ([EvGet (OneKey Scenarios.key_5);
      EvModelSave (Some (OneKey Scenarios.key_5)) (VRef 2%positive)
        (Some [("y", VNum (Whole 2))]) true;
      EvRollback],
     CbError (Foreign (VStr "invalid")))
  /\ snd (update Number_toString_int "User" Scenarios.save_fails Scenarios.update_store
            (One (IdNum (Whole 5))) (VRef 4%positive) None None
            (Some (Scenarios.transaction_found VUndefined)) false
            (Scenarios.transaction_found VUndefined))
     = CbError (Foreign (VStr "invalid")).
Proof.
  split; [reflexivity |].
  exact (proj1 (proj2 (update_failed_save_rolls_back Number_toString_int "User"
           Scenarios.save_fails Scenarios.update_store (One (IdNum (Whole 5)))
           (VRef 4%positive) None None (Some (Scenarios.transaction_found VUndefined))
           (Scenarios.transaction_found VUndefined) 2%positive Scenarios.fetched_5
           VUndefined (VStr "invalid")
           eq_refl eq_refl eq_refl eq_refl eq_refl eq_refl))).
Defined.

(** *** Model.delete and Model.deleteAll *)

Section DeleteMore.

Variable toS : number -> string.
Variable kind : string.
Variable hk : hooks.
Variable run_pre : nat -> option keyres -> option errv.
Variable run_post : nat -> keyres -> option errv.
Variable ds_delete : keyres -> errv + option Z.

Local Abbreviation delete_ := (Model.delete toS kind hk run_pre run_post ds_delete).
Local Abbreviation delete_each_ := (delete_each toS kind hk run_pre run_post ds_delete).
Local Abbreviation deleteAll_ := (deleteAll toS kind hk run_pre run_post ds_delete).

Lemma execPre_list_pres fns c : forallb is_pre (fst (execPre_list run_pre fns c)) = true.
Proof.
  induction fns as [| f r IH]; simpl; [done |].
  destruct (run_pre f c); [done |].
  destruct (execPre_list run_pre r c) as [ev res]. simpl in *. done.
Qed.

Lemma pres_only tr :
  forallb is_pre tr = true ->
  backend_deletes tr = [] /\ transaction_deletes tr = [] /\ existsb is_post tr = false.
Proof.
  induction tr as [| e r IH]; [done |]. simpl. intros H.
  apply andb_true_iff in H as [He Hr]. destruct e; try done. by apply IH.
Qed.

Lemma execPre_list_all_pass fns c :
  Forall (fun f => run_pre f c = None) fns ->
  execPre_list run_pre fns c = (map (fun f => DPre f c) fns, None).
Proof.
  induction 1 as [| f r Hf Hr IH]; simpl; [done |]. by rewrite Hf, IH.
Qed.

Lemma execPre_list_first_failure fns1 f fns2 c e :
  Forall (fun f => run_pre f c = None) fns1 -> run_pre f c = Some e ->
  execPre_list run_pre (fns1 ++ f :: fns2) c
  = (map (fun f => DPre f c) (fns1 ++ [f]), Some e).
Proof.
  intros Hall Hf. induction Hall as [| g r Hg Hr IH]; simpl.
  - by rewrite Hf.
  - by rewrite Hg, IH.
Qed.

(** In a transaction, [delete] never calls the backend's delete and runs
    no post function.  When every pre function passes, each has run
    once, in the order of registration, the key is then handed to the
    transaction, once, and the callback is called with nothing.  When
    one of them fails, the functions up to it have run, nothing is handed
    to the transaction, and the error of the failing function reaches
    the callback. *)
Theorem delete_in_transaction_defers (id : idarg) (anc : option (list ident))
    (ns : option string) (t : Transaction) (k : option keyres) :
  t_ctor t = "Transaction" ->
  let res := delete_ id anc ns (Some t) k in
  let k' := default (key toS kind (parseId toS id) anc ns) k in
  let multiple :=
    match k with
    | Some k0 => is_many k0
    | None => match id with Many _ => true | One _ => false end
    end in
  let context := if multiple then None else Some k' in
  let fns := default [] (_pres hk !! "delete") in
  backend_deletes (fst res) = []
  /\ existsb is_post (fst res) = false
  /\ (Forall (fun f => run_pre f context = None) fns ->
      fst res = (map (fun f => DPre f context) fns ++ [DTransactionDelete k'])%list
      /\ snd res = CbOk None)
  /\ (forall fns1 f fns2 e,
        fns = (fns1 ++ f :: fns2)%list ->
        Forall (fun f => run_pre f context = None) fns1 ->
        run_pre f context = Some e ->
        fst res = map (fun f => DPre f context) (fns1 ++ [f])
        /\ snd res = CbError e)
  /\ ((snd res = CbOk None /\ transaction_deletes (fst res) = [k'])
      \/ ((exists e, snd res = CbError e) /\ transaction_deletes (fst res) = [])).
Proof.
  intros Hc. cbv zeta.
  set (k' := default (key toS kind (parseId toS id) anc ns) k).
  set (multiple := match k with
                   | Some k0 => is_many k0
                   | None => match id with Many _ => true | One _ => false end
                   end).
  assert (Hdel : delete_ id anc ns (Some t) k
                 = match execPre hk run_pre "delete"
                           (if multiple then None else Some k') with
                   | (ev, Some e) => (ev, CbError e)
                   | (ev, None) => ((ev ++ [DTransactionDelete k'])%list, CbOk None)
                   end).
  { unfold Model.delete. rewrite Hc. simpl. unfold k', multiple. by destruct k. }
  rewrite Hdel. unfold execPre.
  pose proof (execPre_list_pres (default [] (_pres hk !! "delete"))
                (if multiple then None else Some k')) as Hpre.
  split; [| split; [| split; [| split]]].
  - destruct (execPre_list run_pre _ _) as [ev [e |]]; simpl in *.
    + by apply pres_only.
    + rewrite backend_deletes_app. destruct (pres_only ev Hpre) as (-> & _). done.
  - destruct (execPre_list run_pre _ _) as [ev [e |]]; simpl in *.
    + by apply pres_only.
    + rewrite existsb_app. destruct (pres_only ev Hpre) as (_ & _ & ->). done.
  - intros Hall. by rewrite (execPre_list_all_pass _ _ Hall).
  - intros fns1 f fns2 e -> Hall Hf.
    by rewrite (execPre_list_first_failure fns1 f fns2 _ e Hall Hf).
  - destruct (execPre_list run_pre _ _) as [ev [e |]]; simpl in *.
    + right. split; [eauto |]. by apply pres_only.
    + left. split; [done |]. unfold transaction_deletes in *.
      rewrite omap_app. destruct (pres_only ev Hpre) as (_ & Ht & _).
      unfold transaction_deletes in Ht. by rewrite Ht.
Qed.

(** Outside a transaction, a [delete] that reports success has run every
    pre function, then the backend's delete, then every post function,
    each once and in the order of registration, and its response is the
    backend's, with [success] telling whether indexes were updated. *)
Theorem delete_success_ran_everything (id : idarg) (anc : option (list ident))
    (ns : option string) (k : option keyres) (r : option delete_response) :
  snd (delete_ id anc ns None k) = CbOk r ->
  let k' := default (key toS kind (parseId toS id) anc ns) k in
  let multiple :=
    match k with
    | Some k0 => is_many k0
    | None => match id with Many _ => true | One _ => false end
    end in
  let context := if multiple then None else Some k' in
  exists apiRes,
    ds_delete k' = inr apiRes
    /\ r = (fun n => mkDeleteResponse n (0 <? n)) <$> apiRes
    /\ fst (delete_ id anc ns None k)
       = (map (fun f => DPre f context) (default [] (_pres hk !! "delete"))
          ++ DDelete k' :: map (fun f => DPost f k') (default [] (_posts hk !! "delete")))%list.
Proof.
  cbv zeta. unfold Model.delete.
  destruct k as [k0 |]; simpl; unfold execPre, execPost;
    match goal with |- context [execPre_list run_pre ?fns ?c] =>
      pose proof (execPre_list_passed run_pre fns c) as Hpre;
      destruct (execPre_list run_pre fns c) as [ev [e |]]; [done |]
    end;
    match goal with |- context [ds_delete ?key] =>
      destruct (ds_delete key) as [e | apiRes]; [done |]
    end;
    match goal with |- context [execPost_list run_post ?fns ?c] =>
      pose proof (execPost_list_passed run_post fns c) as Hpost;
      destruct (execPost_list run_post fns c) as [ev' [e |]]; [done |]
    end;
    simpl; intros [= <-]; exists apiRes;
    rewrite (Hpre ev eq_refl), (Hpost ev' eq_refl); done.
Qed.

Lemma delete_each_passed es ev :
  delete_each_ es = (ev, None) -> backend_deletes ev = map OneKey (map fe_key es).
Proof.
  revert ev. induction es as [| e r IH]; simpl; intros ev H.
  - by injection H as <-.
  - pose proof (delete_single_calls toS kind hk run_pre run_post ds_delete (fe_key e)) as Hone.
    simpl in Hone.
    destruct (Model.delete toS kind hk run_pre run_post ds_delete (One IdNull) None None None
                (Some (OneKey (fe_key e)))) as [ev1 out].
    simpl in Hone. destruct out as [err | resp | m | err]; try done.
    destruct (delete_each_ r) as [ev2 res]. injection H as <- ->.
    rewrite backend_deletes_app, (IH ev2 eq_refl).
    destruct Hone as [[_ Hno] | ->]; [by destruct (Hno resp) | done].
Qed.

(** A [deleteAll] that reports success has asked the backend to delete
    every entity the query matched: one call for each, in the order of
    the result, when a function is registered for [delete], and one call
    for all of them otherwise. *)
Theorem deleteAll_success_deleted_all (es : list fetched) (x : bool * string) :
  snd (deleteAll_ (inr es)) = CbOk x ->
  x = (true, deleted_message kind)
  /\ backend_deletes (fst (deleteAll_ (inr es)))
     = if has_delete_hooks hk then map OneKey (map fe_key es)
       else [ManyKeys (map fe_key es)].
Proof.
  destruct (has_delete_hooks hk) eqn:Hh.
  - unfold deleteAll. rewrite Hh.
    pose proof (delete_each_passed es) as Hpass.
    destruct (delete_each_ es) as [ev [err |]]; [done |].
    simpl. intros [= <-]. split; [done |]. by apply Hpass.
  - rewrite (deleteAll_batch toS kind hk run_pre run_post ds_delete es Hh).
    unfold deleteAll. rewrite Hh.
    destruct (Model.delete _ _ _ _ _ _ _ _ _ _ _) as [ev [err | resp | m | err]]; try done.
    simpl. by intros [= <-].
Qed.

End DeleteMore.

(** A delete in a transaction: the key goes to the transaction, not to
    the backend. *)
Lemma delete_in_transaction_defers_witness :
  backend_deletes
    (fst (Model.delete Number_toString_int "User" Scenarios.audit_hooks Scenarios.pre_ok
          Scenarios.post_ok Scenarios.ds_delete_ok (One (IdNum (Whole 5))) None None
          (Some (Scenarios.transaction_found VUndefined)) None)) = []
  /\ existsb is_post
       (fst (Model.delete Number_toString_int "User" Scenarios.audit_hooks Scenarios.pre_ok
          Scenarios.post_ok Scenarios.ds_delete_ok (One (IdNum (Whole 5))) None None
          (Some (Scenarios.transaction_found VUndefined)) None)) = false
  /\ transaction_deletes
       (fst (Model.delete Number_toString_int "User" Scenarios.audit_hooks Scenarios.pre_ok
          Scenarios.post_ok Scenarios.ds_delete_ok (One (IdNum (Whole 5))) None None
          (Some (Scenarios.transaction_found VUndefined)) None)) = [OneKey Scenarios.key_5].
Proof.
  destruct (delete_in_transaction_defers Number_toString_int "User" Scenarios.audit_hooks
              Scenarios.pre_ok Scenarios.post_ok Scenarios.ds_delete_ok
              (One (IdNum (Whole 5))) None None (Scenarios.transaction_found VUndefined)
              None eq_refl) as (Hb & Hp & Hpass & _).
  split; [exact Hb |]. split; [exact Hp |].
  destruct Hpass as [-> _]; [repeat constructor | reflexivity].
Defined.

(** The delete of entity 5 between its pre and its post function. *)
Lemma delete_success_ran_everything_witness :
  fst (Model.delete Number_toString_int "User" Scenarios.audit_hooks Scenarios.pre_ok
         Scenarios.post_ok Scenarios.ds_delete_ok (One (IdNum (Whole 5))) None None None None)
  = [DPre 0 (Some (OneKey Scenarios.key_5)); DDelete (OneKey Scenarios.key_5);
     DPost 1 (OneKey Scenarios.key_5)].
Proof.
  destruct (delete_success_ran_everything Number_toString_int "User" Scenarios.audit_hooks
              Scenarios.pre_ok Scenarios.post_ok Scenarios.ds_delete_ok
              (One (IdNum (Whole 5))) None None None
              (Some (mkDeleteResponse 1 true)) eq_refl) as (apiRes & _ & _ & Htr).
  rewrite Htr. reflexivity.
Defined.

(** Two users deleted one by one, each between the two functions. *)
Lemma deleteAll_success_deleted_all_witness :
  backend_deletes
    (fst (deleteAll Number_toString_int "User" Scenarios.audit_hooks Scenarios.pre_ok
            Scenarios.post_ok Scenarios.ds_delete_ok (inr Scenarios.two_users)))
  = [OneKey Scenarios.key_a; OneKey Scenarios.key_b].
Proof.
  destruct (deleteAll_success_deleted_all Number_toString_int "User" Scenarios.audit_hooks
              Scenarios.pre_ok Scenarios.post_ok Scenarios.ds_delete_ok Scenarios.two_users
              (true, "All User deleted successfully.") eq_refl) as [_ H].
  rewrite H. reflexivity.
Defined.

(** *** Model.sanitize *)

Section TableMore.
Context {V : Type}.
Implicit Types (ps d r : list (string * V)) (k : string).

Lemma delete_prop_absent k r : k ∉ keys r -> delete_prop k r = r.
Proof.
  induction r as [| [k' v] r IH]; simpl; intros Hk; [done |].
  apply not_elem_of_cons in Hk as [Hne Hk].
  destruct (String.eqb_spec k' k) as [-> | _]; [done |]. by rewrite IH.
Qed.

Lemma delete_prop_app k d r :
  k ∉ keys d -> delete_prop k (d ++ r) = (d ++ delete_prop k r)%list.
Proof.
  induction d as [| [k' v] d IH]; simpl; intros Hk; [done |].
  apply not_elem_of_cons in Hk as [Hne Hk].
  destruct (String.eqb_spec k' k) as [-> | _]; [done |]. by rewrite IH.
Qed.

Lemma get_prop_app k d r : k ∉ keys d -> get_prop k (d ++ r) = get_prop k r.
Proof.
  induction d as [| [k' v] d IH]; simpl; intros Hk; [done |].
  apply not_elem_of_cons in Hk as [Hne Hk].
  destruct (String.eqb_spec k' k) as [-> | _]; [done |]. by rewrite IH.
Qed.

Lemma set_prop_app k v v0 d r :
  k ∉ keys d -> set_prop k v (d ++ (k, v0) :: r) = (d ++ (k, v) :: r)%list.
Proof.
  induction d as [| [k' v'] d IH]; simpl; intros Hk.
  - by rewrite String.eqb_refl.
  - apply not_elem_of_cons in Hk as [Hne Hk].
    destruct (String.eqb_spec k' k) as [-> | _]; [done |]. by rewrite IH.
Qed.

End TableMore.

Lemma sanitized_keys s ps k : k ∈ keys (sanitized s ps) -> k ∈ keys ps.
Proof.
  unfold keys. rewrite !list_elem_of_fmap. intros ([k' v] & -> & Hin).
  apply list_elem_of_omap in Hin as ([k0 v0] & Hin & Heq). simpl in Heq.
  destruct (not_writable s k0); [done |]. injection Heq as <- _.
  by exists (k0, v0).
Qed.

Lemma sanitize_fold s d todo :
  NoDup (keys todo) -> (forall k, k ∈ keys d -> k ∉ keys todo) ->
  fold_left (sanitize_step s) (keys todo) (d ++ todo)%list = (d ++ sanitized s todo)%list.
Proof.
  revert d. induction todo as [| [k v] todo IH]; intros d Hnd Hdis; [done |].
  simpl in Hnd. apply NoDup_cons in Hnd as [Hk Hnd].
  assert (Hkd : k ∉ keys d).
  { intros Hin. apply (Hdis k Hin). left. }
  simpl. unfold sanitize_step at 2.
  destruct (not_writable s k) eqn:Hw.
  - rewrite delete_prop_app by done. simpl. rewrite String.eqb_refl.
    rewrite delete_prop_absent by done. apply IH; [done |].
    intros k' Hin Hin'. apply (Hdis k' Hin). by right.
  - rewrite get_prop_app by done. simpl. rewrite String.eqb_refl.
    assert (Hstep : (if strict_eq v (VStr "null")
                     then set_prop k VNull (d ++ (k, v) :: todo)%list
                     else (d ++ (k, v) :: todo)%list)
                    = ((d ++ [(k, if strict_eq v (VStr "null") then VNull else v)])
                       ++ todo)%list).
    { rewrite <- app_assoc. simpl.
      destruct (strict_eq v (VStr "null")); [by apply set_prop_app | done]. }
    rewrite Hstep, IH; [by rewrite <- app_assoc | done |].
    intros k' Hin. unfold keys in Hin. rewrite fmap_app in Hin.
    apply elem_of_app in Hin as [Hin | Hin].
    + intros Hin'. apply (Hdis k' Hin). by right.
    + simpl in Hin. apply list_elem_of_singleton in Hin as ->. done.
Qed.

Lemma sanitize_props_sanitized s ps :
  NoDup (keys ps) -> sanitize_props s ps = sanitized s ps.
Proof.
  intros Hnd. unfold sanitize_props.
  apply (sanitize_fold s [] ps Hnd). intros k Hin. by apply elem_of_nil in Hin.
Qed.

Lemma sanitized_idem s ps : sanitized s (sanitized s ps) = sanitized s ps.
Proof.
  induction ps as [| [k v] ps IH]; [done |]. simpl.
  destruct (not_writable s k) eqn:Hw; [done |]. simpl. rewrite Hw, IH. f_equal.
  by destruct (strict_eq v (VStr "null")) eqn:E; [| rewrite E].
Qed.

Lemma sanitized_NoDup s ps : NoDup (keys ps) -> NoDup (keys (sanitized s ps)).
Proof.
  induction ps as [| [k v] ps IH]; [done |]. simpl. intros Hnd.
  apply NoDup_cons in Hnd as [Hk Hnd].
  destruct (not_writable s k); [by apply IH |]. simpl.
  apply NoDup_cons. split; [| by apply IH].
  intros Hin. apply Hk. by eapply sanitized_keys.
Qed.

(** [sanitize] keeps the surviving properties of an object in the order
    they had, and a second [sanitize] of the same object changes nothing
    any more. *)
Theorem sanitize_keeps_order_and_settles (s : schema) (st : store) (l : loc) (o : object) :
  st !! l = Some o -> o_class o = CObject -> NoDup (keys (o_props o)) ->
  exists o',
    (sanitize s st (VRef l)).2 !! l = Some o'
    /\ keys (o_props o')
       = List.filter (fun k => negb (not_writable s k)) (keys (o_props o))
    /\ sanitize s (sanitize s st (VRef l)).2 (VRef l) = sanitize s st (VRef l).
Proof.
  intros Ho Hc Hnd.
  assert (Hsan : sanitize s st (VRef l)
                 = (VRef l, <[l := set_props o (sanitized s (o_props o))]> st)).
  { unfold sanitize, is_object, class_of, update_object. rewrite Ho. simpl.
    by rewrite Hc, sanitize_props_sanitized. }
  rewrite Hsan. simpl. eexists. split; [apply lookup_insert_eq |]. split.
  - simpl. clear. induction (o_props o) as [| [k v] ps IH]; [done |].
    simpl. destruct (not_writable s k); simpl; by rewrite IH.
  - unfold sanitize, is_object, class_of, update_object.
    rewrite lookup_insert_eq. simpl. rewrite Hc.
    rewrite sanitize_props_sanitized by (by apply sanitized_NoDup).
    rewrite sanitized_idem. f_equal.
    rewrite insert_insert_eq. reflexivity.
Qed.

(** Of a raw user, [name] and [email] survive, in that order. *)
Lemma sanitize_keeps_order_and_settles_witness :
  exists o',
    (sanitize Scenarios.indexed_schema Scenarios.raw_store (VRef 1%positive)).2 !! 1%positive
    = Some o'
    /\ keys (o_props o') = ["name"; "email"].
Proof.
  assert (Hnd : NoDup (keys (o_props Scenarios.raw_user))).
  { apply (bool_decide_unpack _). vm_compute. exact I. }
  destruct (sanitize_keeps_order_and_settles Scenarios.indexed_schema Scenarios.raw_store
              1%positive Scenarios.raw_user eq_refl eq_refl Hnd) as (o' & Hl & Hk & _).
  exists o'. split; [exact Hl |]. rewrite Hk. reflexivity.
Defined.

(** *** validate *)

Lemma keys_get_prop {V : Type} (k : string) (ps : list (string * V)) :
  k ∈ keys ps -> is_Some (get_prop k ps).
Proof.
  induction ps as [| [k' v] r IH]; simpl; intros Hin; [by apply elem_of_nil in Hin |].
  destruct (String.eqb_spec k' k) as [-> | Hne]; [done |].
  apply elem_of_cons in Hin as [-> | Hin]; [done | by apply IH].
Qed.

Lemma set_prop_not_nil {V : Type} (k : string) (v : V) (ps : list (string * V)) :
  set_prop k v ps <> [].
Proof. destruct ps as [| [k' v'] r]; simpl; [done |]. by destruct (String.eqb k' k). Qed.

Lemma truthy_not_blank v :
  truthy v = true -> strict_eq v (VStr "") = false /\ strict_eq v VNull = false.
Proof.
  destruct v as [| | b | n | x | l]; simpl; try done.
  intros H. apply negb_true_iff in H. by rewrite H.
Qed.

Section ValidateMore.

Variable entityKind : string.
Variable toS : store -> value -> string.
Variable moment : string -> bool.
Variable validator : string -> value -> bool.
Variable s : schema.
Variable st : store.

Local Abbreviation step := (validate_key entityKind toS moment validator s st).
Local Abbreviation accepted := (entry_accepted toS moment validator s st).

Local Ltac unaffected :=
  split; [intros ->; split; [done | by (intros; simplify_eq)] | by intros [-> _]].

Local Ltac reported H :=
  split; [intros H; by apply set_prop_not_nil in H |].

Lemma check_type_nil k d skip e pv errors :
  check_type toS moment st k d skip e pv errors = []
  <-> errors = []
      /\ forall d' ty, d = Some d' -> d_type d' = Some ty -> skip = false -> e = false ->
           if String.eqb ty "datetime" then datetime_invalid moment st pv = false
           else typeValid toS st ty pv = true.
Proof.
  unfold check_type. destruct d as [d |]; [| unaffected].
  destruct (d_type d) as [ty |] eqn:Hty; [| unaffected].
  destruct skip, e; simpl; try unaffected.
  destruct (String.eqb ty "datetime") eqn:Hdt.
  - destruct (datetime_invalid moment st pv) eqn:Hdi.
    + reported H.
      intros [_ H]. specialize (H d ty eq_refl Hty eq_refl eq_refl).
      rewrite Hdt in H. congruence.
    + split; [intros ->; split; [done |] | by intros [-> _]].
      intros d' ty' [= <-] Hty' _ _. rewrite Hty in Hty'. injection Hty' as <-.
      by rewrite Hdt.
  - destruct (typeValid toS st ty pv) eqn:Htv.
    + split; [intros ->; split; [done |] | by intros [-> _]].
      intros d' ty' [= <-] Hty' _ _. rewrite Hty in Hty'. injection Hty' as <-.
      by rewrite Hdt.
    + reported H.
      intros [_ H]. specialize (H d ty eq_refl Hty eq_refl eq_refl).
      rewrite Hdt in H. congruence.
Qed.

Lemma check_format_nil k d skip cur errors :
  check_format validator k d skip cur errors = []
  <-> errors = []
      /\ forall d' rule, d = Some d' -> d_validate d' = Some rule -> skip = false ->
           truthy cur = true -> validator rule cur = true.
Proof.
  unfold check_format. destruct d as [d |]; [| unaffected].
  destruct (d_validate d) as [rule |] eqn:Hr; [| unaffected].
  destruct skip; simpl; [unaffected |].
  destruct (truthy cur) eqn:Ht; simpl; [| unaffected].
  destruct (truthy_not_blank cur Ht) as [-> ->]. simpl.
  destruct (validator rule cur) eqn:Hv.
  - split; [intros ->; split; [done |] | by intros [-> _]].
    intros d' r' [= <-] Hr' _ _. rewrite Hr in Hr'. by injection Hr' as <-.
  - reported H.
    intros [_ H]. specialize (H d rule eq_refl Hr eq_refl eq_refl). congruence.
Qed.

Lemma check_values_nil k d skip cur errors :
  check_values k d skip cur errors = []
  <-> errors = []
      /\ forall d' allowed, d = Some d' -> d_values d' = Some allowed -> skip = false ->
           strict_eq cur (VStr "") = false -> 0 <= indexOf allowed cur.
Proof.
  unfold check_values. destruct d as [d |]; [| unaffected].
  destruct (d_values d) as [allowed |] eqn:Hr; [| unaffected].
  destruct skip; simpl; [unaffected |].
  destruct (strict_eq cur (VStr "")) eqn:Hs; simpl; [unaffected |].
  destruct (Z.ltb_spec (indexOf allowed cur) 0).
  - reported H'.
    intros [_ H']. specialize (H' d allowed eq_refl Hr eq_refl eq_refl). lia.
  - split; [intros ->; split; [done |] | by intros [-> _]].
    intros d' a' [= <-] Ha' _ _. rewrite Hr in Ha'. by injection Ha' as <-.
Qed.

(** One round leaves the error table empty exactly when it was empty and
    the entry of the key is accepted. *)
Lemma is_required_true (d : descriptor) :
  is_required (Some d) = true <-> d_required d = Some (VBool true).
Proof.
  unfold is_required. destruct (d_required d) as [[| | [|] | | |] |]; split; done.
Qed.

Lemma step_nil vs k v :
  get_prop k (vs_data vs) = Some v ->
  vs_errors (step vs k) = [] <-> vs_errors vs = [] /\ accepted k v.
Proof.
  intros Hv. unfold validate_key. cbv zeta. cbn [vs_errors].
  rewrite check_values_nil, check_format_nil. rewrite Hv.
  change (default VUndefined (Some v)) with v.
  unfold entry_accepted, conforms.
  destruct (virtuals s !! k) as [h |] eqn:Hvirt.
  - rewrite (bool_decide_eq_true_2 (is_Some (Some h))) by done. cbn [orb negb andb].
    rewrite check_type_nil. split.
    + intros [[[He _] _] _]. split; [done | by left].
    + intros [He _]. repeat split; done.
  - rewrite (bool_decide_eq_false_2 (is_Some None)) by (by intros [? ?]).
    cbn [orb negb andb]. rewrite Hv. change (default VUndefined (Some v)) with v.
    destruct (paths s !! k) as [d |] eqn:Hd.
    + rewrite (bool_decide_eq_true_2 (is_Some (Some d))) by done. cbn [negb andb orb].
      destruct (is_required (Some d) && valueIsEmpty v) eqn:Hreq.
      * apply andb_true_iff in Hreq as [Hr Hempty]. apply is_required_true in Hr.
        split.
        -- intros [[H _] _]. by apply set_prop_not_nil in H.
        -- intros [_ [[? ?] | (Hc & _)]]; [done |]. specialize (Hc Hr). congruence.
      * rewrite check_type_nil. split.
        -- intros [[[He Ht] Hf] Hval]. split; [done |]. right.
           split; [| split; [| split]].
           ++ intros Hr. apply is_required_true in Hr. rewrite Hr in Hreq.
              by destruct (valueIsEmpty v).
           ++ intros ty Hty Hempty. by apply (Ht d ty).
           ++ intros rule Hr Htr. by apply (Hf d rule).
           ++ intros allowed Ha Hs. by apply (Hval d allowed).
        -- intros [He [[? ?] | (Hr & Hty & Hf & Hval)]]; [done |].
           split; [split; [split; [done |] |] |].
           ++ intros d' ty' [= <-] Hty' _ Hempty. by apply Hty.
           ++ intros d' rule [= <-] ? _ ?. by apply (Hf rule).
           ++ intros d' allowed [= <-] ? _ ?. by apply (Hval allowed).
    + rewrite (bool_decide_eq_false_2 (is_Some None)) by (by intros [? ?]).
      cbn [negb andb orb]. unfold check_type, is_required. cbn [andb].
      destruct (explicitOnly (s_options s)) as [[|] |] eqn:Hopen; cbn [negb andb orb].
      * split; [intros [[H _] _]; by apply set_prop_not_nil in H |].
        by intros [_ [[? ?] | ?]].
      * split; [intros [[He _] _]; split; [done | by right] |].
        intros [He _]. split; [split; [done |] |]; by intros.
      * split; [intros [[H _] _]; by apply set_prop_not_nil in H |].
        by intros [_ [[? ?] | ?]].
Qed.

Lemma loop_nil ks vs :
  (forall k, k ∈ ks -> is_Some (get_prop k (vs_data vs)) \/ is_Some (virtuals s !! k)) ->
  vs_errors (fold_left step ks vs) = []
  <-> vs_errors vs = []
      /\ forall k v, k ∈ ks -> get_prop k (vs_data vs) = Some v -> accepted k v.
Proof.
  revert vs. induction ks as [| k0 r IH]; intros vs Hks.
  - simpl. split; [intros H; split; [done |]; intros k v Hin; by apply elem_of_nil in Hin
                  | by intros [H _]].
  - simpl.
    assert (Hdata : forall k, virtuals s !! k = None ->
                      get_prop k (vs_data (step vs k0)) = get_prop k (vs_data vs)).
    { intros k Hk. apply (step_data entityKind toS moment validator s st). by right. }
    rewrite IH.
    2:{ intros k Hin. destruct (virtuals s !! k) as [h |] eqn:Hvirt; [right; done |].
        left. rewrite Hdata by done.
        destruct (Hks k) as [? | [? ?]]; [by right | done | congruence]. }
    destruct (get_prop k0 (vs_data vs)) as [v0 |] eqn:Hv0.
    + rewrite (step_nil vs k0 v0 Hv0). split.
      * intros [[He Ha] Hr]. split; [done |]. intros k v Hin Hv.
        apply elem_of_cons in Hin as [-> | Hin]; [congruence |].
        destruct (virtuals s !! k) as [h |] eqn:Hvirt; [by left |].
        apply Hr; [done |]. by rewrite Hdata.
      * intros [He Ha]. split; [split; [done |]; apply Ha; [left | done] |].
        intros k v Hin Hv.
        destruct (virtuals s !! k) as [h |] eqn:Hvirt; [by left |].
        apply Ha; [by right |]. by rewrite <- Hdata.
    + destruct (Hks k0) as [[? ?] | Hvirt0]; [left | congruence |].
      assert (Hsame : vs_errors (step vs k0) = vs_errors vs).
      { unfold validate_key. cbv zeta. cbn [vs_errors].
        rewrite (bool_decide_eq_true_2 _ Hvirt0). cbn [orb negb andb].
        unfold check_values, check_format, check_type.
        destruct (paths s !! k0) as [d |]; [| done].
        by destruct (d_values d), (d_validate d), (d_type d). }
      rewrite Hsame. split.
      * intros [He Hr]. split; [done |]. intros k v Hin Hv.
        apply elem_of_cons in Hin as [-> | Hin]; [congruence |].
        destruct (virtuals s !! k) as [h |] eqn:Hvirt; [by left |].
        apply Hr; [done |]. by rewrite Hdata.
      * intros [He Ha]. split; [done |]. intros k v Hin Hv.
        destruct (virtuals s !! k) as [h |] eqn:Hvirt; [by left |].
        apply Ha; [by right |]. by rewrite <- Hdata.
Qed.

End ValidateMore.

Lemma validate_errors_nil entityKind toS moment validator s st ps :
  vs_errors (validate_loop entityKind toS moment validator s st ps) = []
  <-> forall k v, get_prop k ps = Some v -> entry_accepted toS moment validator s st k v.
Proof.
  unfold validate_loop. rewrite loop_nil.
  - simpl. split.
    + intros [_ H] k v Hv. apply H; [| done]. by eapply get_prop_keys.
    + intros H. split; [done |]. intros k v _ Hv. by apply H.
  - intros k Hin. left. by apply keys_get_prop.
Qed.


Section VirtualsMore.

Variable entityKind : string.
Variable toS : store -> value -> string.
Variable moment : string -> bool.
Variable validator : string -> value -> bool.
Variable s : schema.
Variable st : store.

Local Abbreviation step := (validate_key entityKind toS moment validator s st).

Lemma step_data_none vs k k' :
  get_prop k (vs_data vs) = None -> get_prop k (vs_data (step vs k')) = None.
Proof.
  intros H. unfold validate_key. cbv zeta. cbn [vs_data].
  destruct (bool_decide (is_Some (virtuals s !! k'))); [| done].
  destruct (decide (k = k')) as [-> | Hne]; [apply get_delete_eq |].
  by rewrite get_delete_ne.
Qed.

Lemma loop_data_none ks vs k :
  get_prop k (vs_data vs) = None -> get_prop k (vs_data (fold_left step ks vs)) = None.
Proof.
  revert vs. induction ks as [| k' r IH]; intros vs H; [done |].
  simpl. by apply IH, step_data_none.
Qed.

Lemma loop_data_virtual ks vs k :
  is_Some (virtuals s !! k) -> k ∈ ks ->
  get_prop k (vs_data (fold_left step ks vs)) = None.
Proof.
  intros Hvirt. revert vs. induction ks as [| k' r IH]; intros vs Hin;
    [by apply elem_of_nil in Hin |].
  simpl. destruct (decide (k = k')) as [<- | Hne].
  - apply loop_data_none. unfold validate_key. cbv zeta. cbn [vs_data].
    rewrite (bool_decide_eq_true_2 _ Hvirt). apply get_delete_eq.
  - apply IH. apply elem_of_cons in Hin as [? | ?]; done.
Qed.

Lemma validate_loop_data ps k :
  get_prop k (vs_data (validate_loop entityKind toS moment validator s st ps))
  = if bool_decide (is_Some (virtuals s !! k)) then None else get_prop k ps.
Proof.
  unfold validate_loop. destruct (bool_decide (is_Some (virtuals s !! k))) eqn:E.
  - apply bool_decide_eq_true in E.
    destruct (get_prop k ps) as [v |] eqn:Hv.
    + apply loop_data_virtual; [done |]. by eapply get_prop_keys.
    + by apply loop_data_none.
  - apply bool_decide_eq_false in E.
    rewrite (loop_data entityKind toS moment validator s st); [done |].
    by apply eq_None_not_Some.
Qed.

End VirtualsMore.


Lemma indexed_entries_spec {V : Type} (ps : list (string * V)) n k v :
  (n, (k, v)) ∈ indexed_entries ps <-> (k, v) ∈ ps /\ array_index k = Some n.
Proof.
  unfold indexed_entries. rewrite list_elem_of_omap. split.
  - intros ([k' v'] & Hin & Heq). simpl in Heq.
    destruct (array_index k') as [n' |] eqn:Hn; [| done].
    by injection Heq as <- <- <-.
  - intros [Hin Hn]. exists (k, v). split; [done |]. simpl. by rewrite Hn.
Qed.

Lemma lowest_spec {V : Type} (r : list (Z * (string * V))) (x : Z * (string * V)) :
  fold_left lower r x ∈ x :: r
  /\ forall y, y ∈ x :: r -> (fold_left lower r x).1 <= y.1.
Proof.
  revert x. induction r as [| y r IH]; intros x; simpl.
  - split; [left |]. intros y Hy. apply list_elem_of_singleton in Hy as ->. lia.
  - destruct (IH (lower x y)) as [Hin Hmin].
    assert (Hl : (lower x y).1 <= x.1 /\ (lower x y).1 <= y.1).
    { unfold lower. destruct (Z.ltb_spec y.1 x.1); lia. }
    assert (Hself : (fold_left lower r (lower x y)).1 <= (lower x y).1)
      by (apply Hmin; left).
    split.
    + apply elem_of_cons in Hin as [-> | Hin]; [| by right; right].
      unfold lower. destruct (y.1 <? x.1); [right; left | left].
    + intros z Hz. apply elem_of_cons in Hz as [-> | Hz]; [lia |].
      apply elem_of_cons in Hz as [-> | Hz]; [lia |]. apply Hmin. by right.
Qed.

(** The entry of a table that is not empty under the first of its keys. *)
Lemma first_entry_leads {V : Type} (ps : list (string * V)) :
  ps <> [] ->
  exists k v, first_entry ps = Some (k, v) /\ (k, v) ∈ ps /\ leads k ps.
Proof.
  intros Hne. unfold first_entry.
  destruct (indexed_entries ps) as [| x r] eqn:Hidx.
  - destruct ps as [| [k v] ps]; [done |]. exists k, v. split; [done |].
    split; [left |]. unfold leads.
    assert (Hnone : forall k', k' ∈ keys ((k, v) :: ps) -> array_index k' = None).
    { intros k' Hin. unfold keys in Hin. apply list_elem_of_fmap in Hin as ([k0 v0] & -> & Hin).
      simpl. destruct (array_index k0) as [n |] eqn:Hn; [| done].
      assert ((n, (k0, v0)) ∈ indexed_entries ((k, v) :: ps)) as H
        by (by apply indexed_entries_spec).
      rewrite Hidx in H. by apply elem_of_nil in H. }
    rewrite (Hnone k) by left. by split.
  - destruct (lowest_spec r x) as [Hin Hmin].
    destruct (fold_left lower r x) as [n [k v]] eqn:Hbest.
    rewrite <- Hidx in Hin. apply indexed_entries_spec in Hin as [Hin Hn].
    exists k, v. split; [done |]. split; [done |].
    unfold leads. rewrite Hn. intros k' n' Hk' Hn'.
    unfold keys in Hk'. apply list_elem_of_fmap in Hk' as ([k0 v0] & -> & Hk').
    simpl in Hn'.
    assert ((n', (k0, v0)) ∈ indexed_entries ps) as H by (by apply indexed_entries_spec).
    rewrite Hidx in H. by apply (Hmin _ H).
Qed.


(** The date error is recorded before the missing [2], and the
    middleware rejects with the error of [2], whose key comes first. *)
Lemma validation_middleware_index_first :
  fst (validate "User" Scenarios.no_text Scenarios.any_date Scenarios.accepts_all
         Scenarios.numbered_entity Scenarios.numbered_data)
  = Invalid [("datetime", WrongDateFormat "Wrong date format for 1");
             ("2", required_error "2")]
  /\ fst (validation_middleware "User" Scenarios.no_text Scenarios.any_date
            Scenarios.accepts_all Scenarios.numbered_entity Scenarios.numbered_data)
     = Rejects (Some (required_error "2")).
Proof. split; vm_compute; reflexivity. Qed.

(** *** Model.findOne and Model.findAround *)

(** [findAround] either rejects its arguments without touching the
    datastore, or builds and runs one query whose filter and order agree:
    forward, the values above the given one in ascending order, as many
    as [after] says; otherwise the values below it in descending order,
    as many as [before] says, or without a usable limit when a falsy
    [after] is all the options give.  The entities of the result are
    passed through the serializer one by one. *)
Theorem findAround_asks_one_direction (kind : string) (plain : Type)
    (fromDatastore : value -> value -> plain) (st : store) (args : list value)
    (query : errv + list value) :
  let res := findAround kind plain fromDatastore st args query in
  (fst res = [] /\ exists m, snd res = CbError (BadRequest m))
  \/ exists property v opts rest (forward : bool) n,
       args = property :: v :: opts :: rest
       /\ fst res = [initQuery kind (hd VUndefined rest);
                     FFilter property (Some (if forward then ">" else "<")) v;
                     FOrder property (negb forward);
                     FLimit n;
                     FRunQuery]
       /\ (if forward
           then get_prop "after" (own_props st opts) = Some n /\ truthy n = true
                /\ get_prop "before" (own_props st opts) = None
           else (get_prop "before" (own_props st opts) = Some n
                 /\ get_prop "after" (own_props st opts) = None)
                \/ (n = VUndefined
                    /\ get_prop "before" (own_props st opts) = None
                    /\ exists a, get_prop "after" (own_props st opts) = Some a
                                 /\ truthy a = false))
       /\ snd res
          = match query with
            | inl err => CbError err
            | inr entities =>
                CbOk (map (fun e => fromDatastore e
                             (default VUndefined (get_prop "readAll" (own_props st opts))))
                          entities)
            end.
Proof.
  cbv zeta. unfold findAround.
  destruct args as [| property [| v [| opts rest]]]; try (left; split; [done | eauto]).
  destruct (is_object st opts); simpl; [| left; split; [done | eauto]].
  destruct (get_prop "after" (own_props st opts)) as [a |] eqn:Ha;
    destruct (get_prop "before" (own_props st opts)) as [b |] eqn:Hb;
    try (left; split; [done | eauto]); right.
  - exists property, v, opts, rest, (truthy a), (if truthy a then a else VUndefined).
    split; [done |]. simpl.
    assert (Hns : match rest with ns :: _ => ns | [] => VUndefined end = hd VUndefined rest)
      by (by destruct rest).
    rewrite Hns. split; [by destruct query |]. split; [| by destruct query].
    destruct (truthy a) eqn:Ht; [done |]. right. eauto.
  - exists property, v, opts, rest, false, b. split; [done |]. simpl.
    assert (Hns : match rest with ns :: _ => ns | [] => VUndefined end = hd VUndefined rest)
      by (by destruct rest).
    rewrite Hns. split; [by destruct query |]. split; [by left | by destruct query].
Qed.

Section FindMore.

Variable kind : string.
Variable hk : hooks.
Variable run_hook : nat -> option errv.

Lemma run_hooks_pre_calls fns : query_calls (run_hooks run_hook FPre fns) = [].
Proof.
  induction fns as [| f r IH]; [done |]. simpl. by destruct (run_hook f).
Qed.

Lemma run_hooks_post_calls fns : query_calls (run_hooks run_hook FPost fns) = [].
Proof.
  induction fns as [| f r IH]; [done |]. simpl. by destruct (run_hook f).
Qed.

Lemma run_hooks_pre_no_post fns :
  existsb is_post_run (run_hooks run_hook FPre fns) = false.
Proof.
  induction fns as [| f r IH]; [done |]. simpl. by destruct (run_hook f).
Qed.

Lemma filters_calls (ps : list (string * value)) (rest : list find_event) :
  query_calls (map (fun p => FFilter (VStr p.1) None p.2) ps ++ rest)
  = (map (fun p => FFilter (VStr p.1) None p.2) ps ++ query_calls rest)%list.
Proof. induction ps as [| p r IH]; [done |]. simpl. by rewrite <- IH. Qed.

Lemma filters_no_post (ps : list (string * value)) (rest : list find_event) :
  existsb is_post_run (map (fun p => FFilter (VStr p.1) None p.2) ps ++ rest)
  = existsb is_post_run rest.
Proof. induction ps as [| p r IH]; [done |]. simpl. by rewrite <- IH. Qed.

(** [findOne] given an object builds the same query whatever the
    functions registered around it do: at most one result, one equality
    filter for each entry of the object in its order, the ancestors if
    any.  It calls back with the first entity of the result, as a model
    instance, and otherwise with an error; the functions registered after
    it run only when an entity was found. *)
Theorem findOne_query_and_result (st : store) (params : value)
    (ancestors : option (list ident)) (namespace : value) (query : errv + list value) :
  is_object st params = true ->
  let res := findOne kind hk run_hook st params ancestors namespace query in
  query_calls (fst res)
  = (initQuery kind namespace :: FLimit (VNum (Whole 1))
     :: map (fun p => FFilter (VStr p.1) None p.2) (own_props st params)
     ++ match ancestors with Some a => [FHasAncestor a] | None => [] end
     ++ [FRunQuery])%list
  /\ (forall m, snd res = CbOk m
                <-> exists entity rest, query = inr (entity :: rest)
                      /\ truthy entity = true /\ model_of_fetched st entity = Some m)
  /\ (existsb is_post_run (fst res) = true -> exists m, snd res = CbOk m).
Proof.
  intros Hobj. cbv zeta. unfold findOne. rewrite Hobj. cbn [negb].
  set (built := (initQuery kind namespace :: FLimit (VNum (Whole 1))
                 :: map (fun p => FFilter (VStr p.1) None p.2) (own_props st params)
                 ++ match ancestors with Some a => [FHasAncestor a] | None => [] end)%list).
  set (pres := run_hooks run_hook FPre (default [] (_pres hk !! "findOne"))).
  set (posts := run_hooks run_hook FPost (default [] (_posts hk !! "findOne"))).
  assert (Hcalls : query_calls (built ++ pres ++ [FRunQuery])
                   = (built ++ [FRunQuery])%list).
  { unfold built. simpl. rewrite <- !app_assoc, !filters_calls. do 3 f_equal.
    unfold query_calls. rewrite !List.filter_app.
    fold (query_calls pres). unfold pres. rewrite run_hooks_pre_calls.
    by destruct ancestors. }
  assert (Hnopost : existsb is_post_run (built ++ pres ++ [FRunQuery]) = false).
  { unfold built. simpl. rewrite <- !app_assoc, filters_no_post, !existsb_app.
    unfold pres. rewrite run_hooks_pre_no_post. by destruct ancestors. }
  assert (Hgoal : (built ++ [FRunQuery])%list
                  = (initQuery kind namespace :: FLimit (VNum (Whole 1))
                     :: map (fun p => FFilter (VStr p.1) None p.2) (own_props st params)
                     ++ match ancestors with Some a => [FHasAncestor a] | None => [] end
                     ++ [FRunQuery])%list).
  { unfold built. simpl. by rewrite <- app_assoc. }
  rewrite <- Hgoal.
  destruct query as [err | [| entity rest]]; cbn [fst snd].
  - split; [done |]. split; [| by rewrite Hnopost].
    intros m. split; [done | by intros (? & ? & ? & _)].
  - split; [done |]. split; [| by rewrite Hnopost].
    intros m. split; [done | by intros (? & ? & ? & _)].
  - destruct (truthy entity) eqn:Ht.
    + destruct (model_of_fetched st entity) as [m0 |] eqn:Hm; cbn [fst snd].
      * split; [| split; [| eauto]].
        -- unfold query_calls in *. rewrite List.filter_app, Hcalls.
           fold (query_calls posts). unfold posts.
           by rewrite run_hooks_post_calls, app_nil_r.
        -- intros m. split.
           ++ intros [= <-]. by exists entity, rest.
           ++ intros (e & r & [= <- <-] & _ & Hm'). congruence.
      * split; [done |]. split; [| by rewrite Hnopost].
        intros m. split; [done |]. intros (e & r & [= <- <-] & _ & Hm'). congruence.
    + cbn [fst snd]. split; [done |]. split; [| by rewrite Hnopost].
      intros m. split; [done |]. intros (e & r & [= <- <-] & Ht' & _). congruence.
Qed.

End FindMore.

(** A search for the user named Ann: the first function registered
    before it fails, the query runs all the same, and the user found
    comes back. *)
Lemma findOne_query_and_result_witness :
  query_calls
    (fst (findOne "User" Scenarios.find_hooks Scenarios.first_fails Scenarios.users_store
          (VRef 2%positive) None VUndefined (inr [VRef 2%positive])))
  = [FCreateQuery None "User"; FLimit (VNum (Whole 1));
     FFilter (VStr "name") None (VStr "Ann"); FRunQuery]
  /\ fst (findOne "User" Scenarios.find_hooks Scenarios.first_fails Scenarios.users_store
          (VRef 2%positive) None VUndefined (inr [VRef 2%positive]))
     = [FCreateQuery None "User"; FLimit (VNum (Whole 1));
        FFilter (VStr "name") None (VStr "Ann"); FPre 0; FRunQuery; FPost 2]
  /\ snd (findOne "User" Scenarios.find_hooks Scenarios.first_fails Scenarios.users_store
          (VRef 2%positive) None VUndefined (inr [VRef 2%positive]))
     = CbOk (mkInstance (Some Scenarios.key_a) (VRef 2%positive)).
Proof.
  destruct (findOne_query_and_result "User" Scenarios.find_hooks Scenarios.first_fails
              Scenarios.users_store (VRef 2%positive) None VUndefined
              (inr [VRef 2%positive]) eq_refl) as (Hq & _ & _).
  split; [rewrite Hq; reflexivity |]. split; reflexivity.
Defined.

End ModelMore.
